(** * reader4: EPUB/PDF ingestion pipeline (src/reader4.py) and its
      reading server (src/server.py)

    A shallow embedding of the conversion pipeline of [reader4.py] and of
    the path handling and the request handlers of [server.py], with the
    properties of the specification and further properties of the code.

    Python [str] values are sequences of Unicode code points; they are
    modelled as [list N].  Classifications that the interpreter answers
    from its Unicode tables are exact here for the ASCII range and for the
    (finite) white-space and line-boundary sets; for the remaining code
    points they are read from a [Unicode] structure, which stands for the
    interpreter's character database. *)

From Stdlib Require Import Strings.String Strings.Ascii.
From Stdlib Require Import List NArith ZArith Arith Bool Lia.
From Stdlib Require Import Sorting.Sorted Sorting.Permutation.
From Stdlib Require Import Numbers.DecimalNat.
Import ListNotations.

Set Implicit Arguments.
Set Warnings "-register-all".

(* ===================================================================== *)
(** ** Python strings *)
(* ===================================================================== *)

Definition pystr := list N.

(** An ASCII literal of the source, as a code-point sequence. *)
Definition py (s : string) : pystr := map N_of_ascii (list_ascii_of_string s).

Definition LF : N := 10.
Definition CR : N := 13.

Definition str_eqb (a b : pystr) : bool :=
  if list_eq_dec N.eq_dec a b then true else false.

(** Truthiness of a [str]: the empty string is falsy. *)
Definition truthy (s : pystr) : bool :=
  match s with [] => false | _ :: _ => true end.

(** Truthiness of an optional [str] ([None] and [""] are falsy); [x or d]. *)
Definition or_else (x : option pystr) (d : pystr) : pystr :=
  match x with
  | Some s => if truthy s then s else d
  | None => d
  end.

Definition in_range (lo hi c : N) : bool := ((lo <=? c) && (c <=? hi))%N.

Definition mem (c : N) (cs : list N) : bool := existsb (N.eqb c) cs.

Definition is_ascii (c : N) : bool := (c <? 128)%N.

Definition ascii_upper (c : N) : bool := in_range 65 90 c.
Definition ascii_lower (c : N) : bool := in_range 97 122 c.
(** The character class [[A-Za-z]]. *)
Definition ascii_letter (c : N) : bool := ascii_upper c || ascii_lower c.
Definition ascii_digit (c : N) : bool := in_range 48 57 c.

Definition to_ascii_lower (c : N) : N := if ascii_upper c then (c + 32)%N else c.
Definition to_ascii_upper (c : N) : N := if ascii_lower c then (c - 32)%N else c.

(** The interpreter's character database, for code points outside ASCII
    and for the case mappings of strings that contain such code points. *)
Class Unicode := {
  uni_isalpha : N -> bool;       (* str.isalpha *)
  uni_isdigit : N -> bool;       (* str.isdigit *)
  uni_isdecimal : N -> bool;     (* the class \d *)
  uni_isword : N -> bool;        (* the class \w *)
  uni_lower : pystr -> pystr;    (* str.lower *)
  uni_title : pystr -> pystr     (* str.title *)
}.

(** A database that knows no letters or digits outside ASCII.  It serves the
    closed examples, whose inputs are ASCII and never consult it. *)
Definition ascii_repertoire : Unicode := {|
  uni_isalpha := fun _ => false;
  uni_isdigit := fun _ => false;
  uni_isdecimal := fun _ => false;
  uni_isword := fun _ => false;
  uni_lower := fun s => s;
  uni_title := fun s => s
|}.

Section CharClasses.
Context {U : Unicode}.

(** [c.isalpha()] *)
Definition isalpha (c : N) : bool :=
  if is_ascii c then ascii_letter c else uni_isalpha c.

(** [c.isdigit()] *)
Definition isdigit (c : N) : bool :=
  if is_ascii c then ascii_digit c else uni_isdigit c.

(** The regular-expression class [\d] on [str] patterns. *)
Definition re_digit (c : N) : bool :=
  if is_ascii c then ascii_digit c else uni_isdecimal c.

(** The regular-expression class [\w] on [str] patterns. *)
Definition re_word (c : N) : bool :=
  if is_ascii c then ascii_letter c || ascii_digit c || N.eqb c 95
  else uni_isword c.

(** [s.lower()] *)
Definition str_lower (s : pystr) : pystr :=
  if forallb is_ascii s then map to_ascii_lower s else uni_lower s.
End CharClasses.

(** [c.isspace()], which is also the class [\s]: the white-space code points
    of the interpreter, a finite set. *)
Definition isspace (c : N) : bool :=
  in_range 9 13 c || in_range 28 32 c || N.eqb c 133 || N.eqb c 160
  || N.eqb c 5760 || in_range 8192 8202 c || N.eqb c 8232 || N.eqb c 8233
  || N.eqb c 8239 || N.eqb c 8287 || N.eqb c 12288.

(** The line boundaries of [str.splitlines], other than the pair CR LF. *)
Definition is_linebreak (c : N) : bool :=
  in_range 10 13 c || in_range 28 30 c || N.eqb c 133
  || N.eqb c 8232 || N.eqb c 8233.

(** [s.lstrip()], [s.rstrip()], [s.strip()] *)
Fixpoint lstrip (s : pystr) : pystr :=
  match s with
  | c :: s' => if isspace c then lstrip s' else s
  | [] => []
  end.

Definition rstrip (s : pystr) : pystr := rev (lstrip (rev s)).

Definition strip (s : pystr) : pystr := rstrip (lstrip s).

(** [a.startswith(b)] *)
Fixpoint startswith (s p : pystr) : bool :=
  match p, s with
  | [], _ => true
  | c :: p', d :: s' => N.eqb c d && startswith s' p'
  | _ :: _, [] => false
  end.

(** [a.endswith(b)] *)
Definition endswith (s p : pystr) : bool := startswith (rev s) (rev p).

(** [sep.join(parts)] *)
Fixpoint join (sep : pystr) (parts : list pystr) : pystr :=
  match parts with
  | [] => []
  | [p] => p
  | p :: rest => p ++ sep ++ join sep rest
  end.

(** [s.split(c)] for a one-character separator: always at least one field. *)
Fixpoint split_on (c : N) (s : pystr) : list pystr :=
  match s with
  | [] => [[]]
  | d :: s' =>
      if N.eqb d c then [] :: split_on c s'
      else match split_on c s' with
           | f :: fs => (d :: f) :: fs
           | [] => [[d]]
           end
  end.

(** [s.split()]: the maximal runs of non-white-space characters. *)
Fixpoint split_ws_aux (cur : pystr) (s : pystr) : list pystr :=
  match s with
  | [] => match cur with [] => [] | _ => [rev cur] end
  | c :: s' =>
      if isspace c
      then match cur with
           | [] => split_ws_aux [] s'
           | _ => rev cur :: split_ws_aux [] s'
           end
      else split_ws_aux (c :: cur) s'
  end.

Definition split_ws (s : pystr) : list pystr := split_ws_aux [] s.

(** [s.splitlines()]: CR LF is one boundary; a final boundary opens no
    further line. *)
Fixpoint splitlines_aux (cur : pystr) (s : pystr) : list pystr :=
  match s with
  | [] => match cur with [] => [] | _ => [rev cur] end
  | c :: s' =>
      if is_linebreak c
      then rev cur ::
           match s' with
           | d :: s'' =>
               if N.eqb c CR && N.eqb d LF
               then splitlines_aux [] s''
               else splitlines_aux [] s'
           | [] => []
           end
      else splitlines_aux (c :: cur) s'
  end.

Definition splitlines (s : pystr) : list pystr := splitlines_aux [] s.

(** [s.replace(old, new)] for a non-empty [old]: the matches are taken left
    to right and do not overlap.  [skip] counts the characters of the current
    match that are still to be dropped. *)
Fixpoint replace_aux (old new : pystr) (skip : nat) (s : pystr) : pystr :=
  match s with
  | [] => []
  | c :: s' =>
      match skip with
      | S k => replace_aux old new k s'
      | O =>
          if startswith s old
          then new ++ replace_aux old new (length old - 1) s'
          else c :: replace_aux old new 0 s'
      end
  end.

Definition replace (old new s : pystr) : pystr := replace_aux old new 0 s.

(** [str(n)] for a non-negative [int]. *)
Fixpoint digits_of_uint (d : Decimal.uint) : pystr :=
  match d with
  | Decimal.Nil => []
  | Decimal.D0 d => 48%N :: digits_of_uint d
  | Decimal.D1 d => 49%N :: digits_of_uint d
  | Decimal.D2 d => 50%N :: digits_of_uint d
  | Decimal.D3 d => 51%N :: digits_of_uint d
  | Decimal.D4 d => 52%N :: digits_of_uint d
  | Decimal.D5 d => 53%N :: digits_of_uint d
  | Decimal.D6 d => 54%N :: digits_of_uint d
  | Decimal.D7 d => 55%N :: digits_of_uint d
  | Decimal.D8 d => 56%N :: digits_of_uint d
  | Decimal.D9 d => 57%N :: digits_of_uint d
  end.

Definition str_of_nat (n : nat) : pystr := digits_of_uint (Nat.to_uint n).

(** [html.escape(s)] with its default [quote=True]. *)
Definition escape_char (c : N) : pystr :=
  if N.eqb c 38 then py "&amp;"
  else if N.eqb c 60 then py "&lt;"
  else if N.eqb c 62 then py "&gt;"
  else if N.eqb c 34 then [38; 113; 117; 111; 116; 59]%N
  else if N.eqb c 39 then py "&#x27;"
  else [c].

Definition escape (s : pystr) : pystr := flat_map escape_char s.

(** [os.path.basename(p)] (POSIX): what follows the last ['/']. *)
Definition basename (p : pystr) : pystr := last (split_on 47 p) [].

(** [os.path.splitext(p)] (POSIX): the extension starts at the last dot of
    the last path component, unless only dots precede it there. *)
Definition splitext (p : pystr) : pystr * pystr :=
  let name := basename p in
  let dir := firstn (List.length p - List.length name) p in
  let fields := split_on 46 name in
  let ext := last fields [] in
  let stem := firstn (List.length name - List.length ext - 1) name in
  match fields with
  | [] | [_] => (p, [])
  | _ => if forallb (N.eqb 46) stem then (p, [])
         else (dir ++ stem, 46%N :: ext)
  end.

(** [os.path.join(a, b)] (POSIX). *)
Definition path_join (a b : pystr) : pystr :=
  if startswith b [47%N] then b
  else if negb (truthy a) || endswith a [47%N] then a ++ b
  else a ++ 47%N :: b.

(* ===================================================================== *)
(** ** Utilities of reader4.py *)
(* ===================================================================== *)

(** [text_to_html]: plain text to simple paragraph markup. *)
Definition text_to_html (text : pystr) : pystr :=
  let lines := map strip (filter (fun line => truthy (strip line)) (splitlines text)) in
  match lines with
  | [] => py "<p></p>"
  | _ => concat (map (fun line => py "<p>" ++ escape line ++ py "</p>") lines)
  end.

(** The class [[-\u2010\u2011\u00AD]]. *)
Definition hyphen_like (c : N) : bool := mem c [45; 8208; 8209; 173]%N.

(** The longest white-space prefix and what follows it. *)
Fixpoint span_ws (s : pystr) : pystr * pystr :=
  match s with
  | c :: s' => if isspace c then let (w, r) := span_ws s' in (c :: w, r) else ([], s)
  | [] => ([], [])
  end.

(** A match of [([A-Za-z])[-\u2010\u2011\u00AD]\s*\n\s*([A-Za-z])] at the
    start of [s]: its two groups and its length.  Between the hyphen and the
    second letter the pattern accepts exactly a white-space run that holds a
    line feed, and since a letter is no white space that run is the longest
    one. *)
Definition hyphen_break_at (s : pystr) : option (N * N * nat) :=
  match s with
  | l1 :: h :: rest =>
      if ascii_letter l1 && hyphen_like h then
        let (w, r) := span_ws rest in
        match r with
        | l2 :: _ =>
            if mem LF w && ascii_letter l2
            then Some (l1, l2, 3 + List.length w)
            else None
        | [] => None
        end
      else None
  | _ => None
  end.

(** [re.sub(pattern, r"\1\2", s)]: leftmost matches, not overlapping.
    [skip] counts the characters of the current match still to be dropped. *)
Fixpoint merge_hyphen_aux (skip : nat) (s : pystr) : pystr :=
  match s with
  | [] => []
  | c :: s' =>
      match skip with
      | S k => merge_hyphen_aux k s'
      | O =>
          match hyphen_break_at s with
          | Some (l1, l2, n) => l1 :: l2 :: merge_hyphen_aux (n - 1) s'
          | None => c :: merge_hyphen_aux 0 s'
          end
      end
  end.

Definition merge_hyphen (s : pystr) : pystr := merge_hyphen_aux 0 s.

Definition terminal_punct : list N := [46; 33; 63; 58; 59; 41]%N.

(** [re.search(r"[.!?:;)]$", prev)]: [$] holds at the end and before a final
    line feed. *)
Definition ends_terminal (prev : pystr) : bool :=
  match rev prev with
  | c :: before =>
      mem c terminal_punct
      || (N.eqb c LF && match before with d :: _ => mem d terminal_punct | [] => false end)
  | [] => false
  end.

Fixpoint drop_while (f : N -> bool) (s : pystr) : pystr :=
  match s with
  | c :: s' => if f c then drop_while f s' else s
  | [] => []
  end.

Definition rebuilt_last (rebuilt : list pystr) : option pystr :=
  match rev rebuilt with
  | x :: _ => Some x
  | [] => None
  end.

Section Normalizer.
Context {U : Unicode}.

(** [re.match(r"^([-*]|\d+[.)])\s", stripped)] *)
Definition list_like (stripped : pystr) : bool :=
  match stripped with
  | c :: rest =>
      if mem c [45; 42]%N
      then match rest with d :: _ => isspace d | [] => false end
      else if re_digit c
      then match drop_while re_digit rest with
           | d :: e :: _ => mem d [46; 41]%N && isspace e
           | _ => false
           end
      else false
  | [] => false
  end.

(** One iteration of the loop that joins the lines of a paragraph. *)
Definition rebuild_step (rebuilt : list pystr) (line : pystr) : list pystr :=
  let stripped := strip line in
  if negb (truthy stripped) then rebuilt ++ [[]]
  else match rebuilt_last rebuilt with
       | None => rebuilt ++ [stripped]
       | Some prev =>
           if negb (truthy prev) then rebuilt ++ [stripped]
           else if list_like stripped then rebuilt ++ [stripped]
           else if negb (ends_terminal prev)
           then removelast rebuilt ++ [prev ++ 32%N :: stripped]
           else rebuilt ++ [stripped]
       end.

(** One iteration of the loop that compresses repeated blank lines. *)
Definition compact_step (compact : list pystr) (line : pystr) : list pystr :=
  match line, rebuilt_last compact with
  | [], Some [] => compact
  | _, _ => compact ++ [line]
  end.

(** [normalize_pdf_text] *)
Definition normalize_pdf_text (text : pystr) : pystr :=
  if negb (truthy text) then []
  else
    let normalized := replace [CR] [LF] (replace [CR; LF] [LF] text) in
    let normalized := merge_hyphen normalized in
    let lines := split_on LF normalized in
    let rebuilt := fold_left rebuild_step lines [] in
    let compact := fold_left compact_step rebuilt [] in
    strip (join [LF] compact).
End Normalizer.

(* ===================================================================== *)
(** ** Data structures *)
(* ===================================================================== *)

(** A physical file of the book (spine item). *)
Record ChapterContent := {
  ch_id : pystr;
  ch_href : pystr;
  ch_title : pystr;
  ch_content : pystr;
  ch_text : pystr;
  ch_order : nat
}.

(** A logical entry of the navigation sidebar. *)
Inductive TOCEntry :=
  MkTOCEntry (title href file_href anchor : pystr) (children : list TOCEntry).

Definition toc_title (e : TOCEntry) := let (t, _, _, _, _) := e in t.
Definition toc_href (e : TOCEntry) := let (_, h, _, _, _) := e in h.
Definition toc_file_href (e : TOCEntry) := let (_, _, f, _, _) := e in f.
Definition toc_anchor (e : TOCEntry) := let (_, _, _, a, _) := e in a.
Definition toc_children (e : TOCEntry) := let (_, _, _, _, c) := e in c.

Record BookMetadata := {
  meta_title : pystr;
  meta_language : pystr;
  meta_authors : list (option pystr);      (* a value without text is None *)
  meta_description : option pystr;
  meta_publisher : option pystr;
  meta_date : option pystr;
  meta_identifiers : list (option pystr);
  meta_subjects : list (option pystr)
}.

(** The master object. *)
Record Book := {
  book_metadata : BookMetadata;
  book_spine : list ChapterContent;
  book_toc : list TOCEntry;
  book_images : list (pystr * pystr);   (* dict, in insertion order *)
  book_source_file : pystr;
  book_processed_at : pystr;
  book_version : pystr
}.

(** A [dict] keeps its keys in insertion order; assigning to a present key
    changes the value in place. *)
Section Dict.
Variables K V : Type.
Variable keq : K -> K -> bool.

Fixpoint dict_set (d : list (K * V)) (k : K) (v : V) : list (K * V) :=
  match d with
  | [] => [(k, v)]
  | (k', v') :: d' =>
      if keq k k' then (k', v) :: d' else (k', v') :: dict_set d' k v
  end.

Fixpoint dict_get (d : list (K * V)) (k : K) : option V :=
  match d with
  | [] => None
  | (k', v') :: d' => if keq k k' then Some v' else dict_get d' k
  end.
End Dict.

(* ===================================================================== *)
(** ** PDF outline selection *)
(* ===================================================================== *)

(** A node of [reader.outline]: a destination (its title attribute, if any,
    and the page that [get_destination_page_number] resolves, [None] when the
    call raises or yields [None]) or a nested list one level deeper. *)
Inductive outline_item :=
| OutlineDest (title : option pystr) (page : option Z)
| OutlineList (items : list outline_item).

(** What the reader of a PDF file offers. *)
Record PdfReader := {
  pdf_title : option pystr;            (* doc_meta.get("/Title") *)
  pdf_author : option pystr;
  pdf_subject : option pystr;
  pdf_producer : option pystr;
  pdf_creation_date : option pystr;
  pdf_pages : list (option pystr);     (* page.extract_text() of each page *)
  pdf_outline : option (list outline_item)   (* None: the access raises *)
}.

(** [{"title": ..., "page": ..., "level": ...}] *)
Record LevelEntry := { le_title : pystr; le_page : nat; le_level : nat }.

(** [{"title": ..., "page": ...}] *)
Record OutlineEntry := { oe_title : pystr; oe_page : nat }.

Definition as_entry (title : option pystr) (page : option Z) (level : nat)
  : option LevelEntry :=
  match title with
  | None => None
  | Some t =>
      if negb (truthy t) then None
      else match page with
           | None => None
           | Some pn =>
               if (pn <? 0)%Z then None
               else Some {| le_title := strip t; le_page := Z.to_nat pn; le_level := level |}
           end
  end.

Definition levels := list (nat * list LevelEntry).

(** [entries_by_level.setdefault(level, []).append(entry)] *)
Fixpoint level_append (d : levels) (level : nat) (e : LevelEntry) : levels :=
  match d with
  | [] => [(level, [e])]
  | (k, l) :: d' =>
      if Nat.eqb level k then (k, l ++ [e]) :: d'
      else (k, l) :: level_append d' level e
  end.

(** [walk]: one item at depth [level]. *)
Fixpoint walk_item (level : nat) (item : outline_item) (acc : levels) : levels :=
  match item with
  | OutlineList items =>
      (fix walk_list (its : list outline_item) (acc : levels) : levels :=
         match its with
         | [] => acc
         | it :: its' => walk_list its' (walk_item (S level) it acc)
         end) items acc
  | OutlineDest t p =>
      match as_entry t p level with
      | Some e => level_append acc level e
      | None => acc
      end
  end.

Definition walk (items : list outline_item) (level : nat) (acc : levels) : levels :=
  fold_left (fun acc it => walk_item level it acc) items acc.

Definition entry_key_eqb (a b : pystr * nat) : bool :=
  str_eqb (fst a) (fst b) && Nat.eqb (snd a) (snd b).

(** [sorted(..., key=lambda x: x["page"])]: a stable sort. *)
Fixpoint insert_by_page (e : LevelEntry) (l : list LevelEntry) : list LevelEntry :=
  match l with
  | [] => [e]
  | x :: l' =>
      if le_page e <=? le_page x then e :: l else x :: insert_by_page e l'
  end.

Definition sorted_by_page (l : list LevelEntry) : list LevelEntry :=
  fold_right insert_by_page [] l.

Fixpoint unique_by_page (seen_pages : list nat) (l : list LevelEntry) : list LevelEntry :=
  match l with
  | [] => []
  | entry :: l' =>
      if existsb (Nat.eqb (le_page entry)) seen_pages
      then unique_by_page seen_pages l'
      else entry :: unique_by_page (le_page entry :: seen_pages) l'
  end.

Definition dedupe_by_page (entries : list LevelEntry) : list LevelEntry :=
  let dedup :=
    fold_left (fun d e => dict_set entry_key_eqb d (le_title e, le_page e) e) entries [] in
  let sorted_entries := sorted_by_page (map snd dedup) in
  unique_by_page [] sorted_entries.

Definition without_level (e : LevelEntry) : OutlineEntry :=
  {| oe_title := le_title e; oe_page := le_page e |}.

(** A literal of a pattern compiled with IGNORECASE, for the lower-case
    letters and the dot that the two keyword patterns use: besides both
    ASCII cases, [i] also matches U+0130 and U+0131, [k] the Kelvin sign and
    [s] the long s. *)
Definition ci_char (p x : N) : bool :=
  N.eqb (to_ascii_lower x) p
  || (N.eqb p 105 && (N.eqb x 304 || N.eqb x 305))
  || (N.eqb p 107 && N.eqb x 8490)
  || (N.eqb p 115 && N.eqb x 383).

(** The literal [kw] at the start of [s]: the last character matched and
    what follows the match. *)
Fixpoint ci_match (kw : pystr) (last_c : option N) (s : pystr) : option (option N * pystr) :=
  match kw with
  | [] => Some (last_c, s)
  | p :: kw' =>
      match s with
      | x :: s' => if ci_char p x then ci_match kw' (Some x) s' else None
      | [] => None
      end
  end.

Section Outline.
Context {U : Unicode}.

Definition is_word (c : option N) : bool :=
  match c with Some x => re_word x | None => false end.

(** [\b] between the character before (if any) and the rest. *)
Definition word_boundary (prev : option N) (s : pystr) : bool :=
  xorb (is_word prev) (is_word (hd_error s)).

(** [re.compile(r"\b(k1|k2|...)\b", re.IGNORECASE).search(s)], [prev] being
    the character before [s]. *)
Fixpoint keyword_search (kws : list pystr) (prev : option N) (s : pystr) : bool :=
  (word_boundary prev s
   && existsb (fun kw =>
                 match ci_match kw prev s with
                 | Some (last_c, rest) => word_boundary last_c rest
                 | None => false
                 end) kws)
  || match s with
     | c :: s' => keyword_search kws (Some c) s'
     | [] => false
     end.

Definition chapter_like_re (s : pystr) : bool :=
  keyword_search [py "chapter"; py "chap."; py "prologue"; py "epilogue"; py "appendix"] None s.

Definition part_like_re (s : pystr) : bool :=
  keyword_search [py "part"; py "book"; py "section"] None s.

Definition count_titles (f : pystr -> bool) (entries : list LevelEntry) : nat :=
  List.length (filter (fun e => f (le_title e)) entries).

(** The part-dominance rule: [Some] result when it returns. *)
Definition part_dominance (normalized_by_level : levels) : option (list OutlineEntry) :=
  let top_entries :=
    match dict_get Nat.eqb normalized_by_level 0 with Some l => l | None => [] end in
  match top_entries with
  | [] => None
  | _ =>
      let part_like_count := count_titles part_like_re top_entries in
      if Nat.max 2 (List.length top_entries / 2) <=? part_like_count then
        match dict_get Nat.eqb normalized_by_level 1 with
        | Some (e :: l) => Some (map without_level (e :: l))
        | _ => None
        end
      else None
  end.

(** [(chapter_like_count, ratio, len(entries))]; the ratio is kept as the
    fraction count/len, which is the score's first and third components. *)
Definition score := (nat * nat)%type.

(** [score > best_score] on the triples, lexicographically; the ratios
    [c1/n1] and [c2/n2] are compared by cross-multiplication. *)
Definition score_gt (a b : score) : bool :=
  let (c1, n1) := a in
  let (c2, n2) := b in
  (c2 <? c1)
  || (Nat.eqb c1 c2
      && ((c2 * n1 <? c1 * n2)
          || (Nat.eqb (c1 * n2) (c2 * n1) && (n2 <? n1)))).

Definition best_step (best : option (nat * score)) (item : nat * list LevelEntry)
  : option (nat * score) :=
  let (level, entries) := item in
  if List.length entries <? 3 then best
  else
    let sc := (count_titles chapter_like_re entries, List.length entries) in
    match best with
    | None => Some (level, sc)
    | Some (_, best_score) => if score_gt sc best_score then Some (level, sc) else best
    end.

Definition level_entries (normalized_by_level : levels) (level : nat) : list OutlineEntry :=
  match dict_get Nat.eqb normalized_by_level level with
  | Some l => map without_level l
  | None => []
  end.

(** [0 if 0 in normalized_by_level else min(normalized_by_level.keys())] *)
Definition fallback_level (normalized_by_level : levels) : nat :=
  if existsb (fun le => Nat.eqb (fst le) 0) normalized_by_level then 0
  else fold_right Nat.min (fst (hd (0, []) normalized_by_level))
                  (map fst normalized_by_level).

(** The dictionary that [walk(outline, 0)] fills. *)
Definition entries_by_level (reader : PdfReader) : levels :=
  walk (match pdf_outline reader with Some o => o | None => [] end) 0 [].

Definition normalized_by_level (reader : PdfReader) : levels :=
  map (fun le => (fst le, dedupe_by_page (snd le))) (entries_by_level reader).

(** [get_pdf_outline_entries] *)
Definition get_pdf_outline_entries (reader : PdfReader) : list OutlineEntry :=
  match entries_by_level reader with
  | [] => []
  | _ =>
      let normalized := normalized_by_level reader in
      match part_dominance normalized with
      | Some r => r
      | None =>
          match fold_left best_step normalized None with
          | Some (best_level, (c, _)) =>
              if 3 <=? c then level_entries normalized best_level
              else level_entries normalized (fallback_level normalized)
          | None => level_entries normalized (fallback_level normalized)
          end
      end
  end.
End Outline.

(* ===================================================================== *)
(** ** The outside world and the effects of a run *)
(* ===================================================================== *)

Inductive item_kind := ITEM_DOCUMENT | ITEM_IMAGE | ITEM_OTHER.

(** An item of the EPUB container. *)
Record EpubItem := {
  item_id : pystr;
  item_name : pystr;            (* get_name() *)
  item_type : item_kind;        (* get_type() *)
  item_content : list N         (* get_content(), bytes *)
}.

(** [epub.Link] and [epub.Section] both carry a title and an href. *)
Record Link := { link_title : pystr; link_href : pystr }.

(** An element of [book.toc]. *)
Inductive toc_node :=
| TocTuple (section : Link) (children : list toc_node)
| TocLink (item : Link)
| TocSection (item : Link)
| TocOther.

(** The value of [book.toc]: a list of elements, or, for a navigation map
    without navigation points, the single [Link] that the reader of the
    container stores in place of a list. *)
Inductive toc_value :=
| TocItems (items : list toc_node)
| TocBareLink (item : Link).

(** What [epub.read_epub] returns. *)
Record EpubBook := {
  epub_metadata : pystr -> list (option pystr);  (* get_metadata('DC', key), the values *)
  epub_items : list EpubItem;                    (* get_items() *)
  epub_toc : toc_value;
  epub_spine : list (pystr * pystr)              (* (idref, linear) *)
}.

(** The BeautifulSoup steps A to C of [process_epub] (image rewriting,
    cleaning, body extraction) and [extract_plain_text], as functions of the
    image map and the raw document. *)
Class Html := {
  chapter_html : list (pystr * pystr) -> list N -> pystr;
  chapter_text : list (pystr * pystr) -> list N -> pystr
}.

(** A stand-in for the closed examples: the document's bytes as they are. *)
Definition raw_html : Html := {|
  chapter_html := fun _ raw => raw;
  chapter_text := fun _ raw => raw
|}.

(** The call after the opening of an EPUB that raises in a faulty run. *)
Inductive epub_fault :=
| EpubMetadataRaises      (* book.get_metadata, inside extract_metadata_robust *)
| EpubRmtreeRaises        (* shutil.rmtree(output_dir): the directory exists *)
| EpubMakedirsRaises.     (* os.makedirs(images_dir, exist_ok=True) *)

(** The call after the opening of a PDF that raises in a faulty run. *)
Inductive pdf_fault :=
| PdfRmtreeRaises         (* shutil.rmtree(output_dir): the directory exists *)
| PdfMakedirsRaises       (* os.makedirs(output_dir, exist_ok=True) *)
| PdfMetadataRaises       (* reader.metadata *)
| PdfPagesRaise.          (* reader.pages or page.extract_text() *)

(** The file system and the clock, as one run sees them.  [epub_at] and
    [pdf_at] give the sources of the runs in which the source opens and
    the calls listed above succeed; [epub_faulty] and [pdf_faulty] give
    the sources that open in a run where one of these calls raises, and
    that call.  A path that neither knows cannot be opened. *)
Record World := {
  epub_at : pystr -> option EpubBook;
  pdf_at : pystr -> option PdfReader;
  exists_at : pystr -> bool;              (* os.path.exists *)
  writable : pystr -> bool;               (* open(path, 'wb') succeeds *)
  now_isoformat : pystr;                  (* datetime.now().isoformat() *)
  epub_faulty : pystr -> option (EpubBook * epub_fault);
  pdf_faulty : pystr -> option (PdfReader * pdf_fault)
}.

Inductive event :=
| Print (msg : pystr)
| ReadFile (path : pystr)
| Rmtree (dir : pystr)
| Makedirs (dir : pystr)
| WriteFile (path : pystr) (data : list N).

Inductive error :=
| ValueError (msg : pystr)
| ReadError (path : pystr)          (* the source cannot be opened *)
| WriteError (path : pystr)
| DirectoryError (dir : pystr)      (* shutil.rmtree or os.makedirs raises *)
| SourceError (path : pystr)        (* an access to the opened source raises *)
| TypeError.                        (* iteration over a value that is no sequence *)

(** Computations that may raise and that log their effects in order. *)
Definition M (A : Type) : Type := list event -> (error + A) * list event.

Definition ret {A} (a : A) : M A := fun log => (inr a, log).

Definition bind {A B} (m : M A) (f : A -> M B) : M B :=
  fun log =>
    match m log with
    | (inl e, log') => (inl e, log')
    | (inr a, log') => f a log'
    end.

Definition raise {A} (e : error) : M A := fun log => (inl e, log).

Definition emit (ev : event) : M unit := fun log => (inr tt, log ++ [ev]).

Notation "x <- m ;; k" := (bind m (fun x => k))
  (at level 61, m at next level, right associativity).
Notation "m ;; k" := (bind m (fun _ => k))
  (at level 61, right associativity).

Definition print (msg : pystr) : M unit := emit (Print msg).

Definition run {A} (m : M A) : (error + A) * list event := m [].

(** [for x in xs: body], with a loop state. *)
Fixpoint for_each {A S} (xs : list A) (body : S -> A -> M S) (st : S) : M S :=
  match xs with
  | [] => ret st
  | x :: xs' => st' <- body st x ;; for_each xs' body st'
  end.

Definition enumerate {A} (l : list A) : list (nat * A) :=
  combine (seq 0 (List.length l)) l.

(** [l[a:b]] for indices that are not negative. *)
Definition slice {A} (l : list A) (a b : nat) : list A := firstn (b - a) (skipn a l).

(* ===================================================================== *)
(** ** PDF conversion *)
(* ===================================================================== *)

Definition flat_toc_entry (title href : pystr) : TOCEntry :=
  MkTOCEntry title href href [] [].

Section Pdf.
Context {U : Unicode}.

(** One iteration of the loop over the outline entries. *)
Definition outline_step (page_texts : list pystr) (starts : list nat)
    (st : list ChapterContent * list TOCEntry) (ie : nat * OutlineEntry)
  : list ChapterContent * list TOCEntry :=
  let (i, entry) := ie in
  let (spine_chapters, toc_structure) := st in
  let start := nth i starts 0 in
  let end_ := nth (i + 1) starts 0 in
  if List.length page_texts <=? start then st
  else
    let end_ := Nat.max (start + 1) (Nat.min end_ (List.length page_texts)) in
    let segment_text := strip (join [LF; LF] (slice page_texts start end_)) in
    let href := py "chapter-" ++ str_of_nat (i + 1) in
    let chapter_title :=
      or_else (Some (oe_title entry)) (py "Chapter " ++ str_of_nat (i + 1)) in
    (spine_chapters ++
       [{| ch_id := href; ch_href := href; ch_title := chapter_title;
           ch_content := text_to_html segment_text;
           ch_text := join [32%N] (split_ws segment_text);
           ch_order := i |}],
     toc_structure ++ [flat_toc_entry chapter_title href]).

(** One iteration of the loop over the pages. *)
Definition page_step (st : list ChapterContent * list TOCEntry) (ip : nat * pystr)
  : list ChapterContent * list TOCEntry :=
  let (i, page_text) := ip in
  let (spine_chapters, toc_structure) := st in
  let href := py "page-" ++ str_of_nat (i + 1) in
  let page_title := py "Page " ++ str_of_nat (i + 1) in
  (spine_chapters ++
     [{| ch_id := href; ch_href := href; ch_title := page_title;
         ch_content := text_to_html page_text;
         ch_text := join [32%N] (split_ws page_text);
         ch_order := i |}],
   toc_structure ++ [flat_toc_entry page_title href]).

Definition some_if_truthy (x : option pystr) : option pystr :=
  match x with
  | Some s => if truthy s then Some s else None
  | None => None
  end.

(** [process_pdf] *)
Definition process_pdf (W : World) (pdf_path output_dir : pystr) : M Book :=
  if negb (endswith (str_lower pdf_path) (py ".pdf")) then
    raise (ValueError (py "Unsupported file type: '" ++ pdf_path
                       ++ py "'. This function expects a .pdf file."))
  else
    print (py "Loading " ++ pdf_path ++ py "...") ;;
    emit (ReadFile pdf_path) ;;
    opened <- match pdf_at W pdf_path with
              | Some r => ret (r, None)
              | None =>
                  match pdf_faulty W pdf_path with
                  | Some (r, fault) => ret (r, Some fault)
                  | None => raise (ReadError pdf_path)
                  end
              end ;;
    let reader := fst opened in
    let fault := snd opened in
    match fault with
    | Some PdfRmtreeRaises =>
        emit (Rmtree output_dir) ;; raise (DirectoryError output_dir)
    | _ => if exists_at W output_dir then emit (Rmtree output_dir) else ret tt
    end ;;
    emit (Makedirs output_dir) ;;
    match fault with
    | Some PdfMakedirsRaises => raise (DirectoryError output_dir)
    | _ => ret tt
    end ;;
    match fault with
    | Some PdfMetadataRaises => raise (SourceError pdf_path)
    | _ => ret tt
    end ;;
    let title := or_else (pdf_title reader) (fst (splitext (basename pdf_path))) in
    let metadata :=
      {| meta_title := title;
         meta_language := py "en";
         meta_authors := match some_if_truthy (pdf_author reader) with
                         | Some a => [Some a]
                         | None => []
                         end;
         meta_description := some_if_truthy (pdf_subject reader);
         meta_publisher := some_if_truthy (pdf_producer reader);
         meta_date := some_if_truthy (pdf_creation_date reader);
         meta_identifiers := [];
         meta_subjects := [] |} in
    print (py "Extracting PDF text...") ;;
    match fault with
    | Some PdfPagesRaise => raise (SourceError pdf_path)
    | _ => ret tt
    end ;;
    let page_texts :=
      map (fun page => normalize_pdf_text (or_else page [])) (pdf_pages reader) in
    let outline_entries := get_pdf_outline_entries reader in
    st <- match outline_entries with
          | _ :: _ =>
              print (py "Found " ++ str_of_nat (List.length outline_entries)
                     ++ py " outline entries. Building chapter ranges...") ;;
              let starts := map oe_page outline_entries ++ [List.length page_texts] in
              ret (fold_left (outline_step page_texts starts)
                             (enumerate outline_entries) ([], []))
          | [] =>
              print (py "No PDF outline found. Falling back to page-based segmentation...") ;;
              ret (fold_left page_step (enumerate page_texts) ([], []))
          end ;;
    ret {| book_metadata := metadata;
           book_spine := fst st;
           book_toc := snd st;
           book_images := [];
           book_source_file := basename pdf_path;
           book_processed_at := now_isoformat W;
           book_version := py "3.0" |}.
End Pdf.

(* ===================================================================== *)
(** ** EPUB conversion *)
(* ===================================================================== *)

(** [href.split('#')[0]] *)
Definition href_file (href : pystr) : pystr := nth 0 (split_on 35 href) [].

(** [href.split('#')[1] if '#' in href else ""] *)
Definition href_anchor (href : pystr) : pystr :=
  if mem 35 href then nth 1 (split_on 35 href) [] else [].

(** The entries that one element of the source list appends. *)
Fixpoint parse_toc_item (depth : nat) (item : toc_node) : list TOCEntry :=
  match item with
  | TocTuple section children =>
      [MkTOCEntry (link_title section) (link_href section)
                  (href_file (link_href section)) (href_anchor (link_href section))
                  ((fix parse_list (l : list toc_node) : list TOCEntry :=
                      match l with
                      | [] => []
                      | x :: l' => parse_toc_item (S depth) x ++ parse_list l'
                      end) children)]
  | TocLink item =>
      [MkTOCEntry (link_title item) (link_href item)
                  (href_file (link_href item)) (href_anchor (link_href item)) []]
  | TocSection item =>
      [MkTOCEntry (link_title item) (link_href item)
                  (href_file (link_href item)) (href_anchor (link_href item)) []]
  | TocOther => []
  end.

(** [parse_toc_recursive] *)
Definition parse_toc_recursive (toc_list : list toc_node) (depth : nat) : list TOCEntry :=
  flat_map (parse_toc_item depth) toc_list.

(** [s.title()] on ASCII: a letter is upper-cased after an uncased character
    and lower-cased after a cased one. *)
Fixpoint ascii_title (prev_cased : bool) (s : pystr) : pystr :=
  match s with
  | [] => []
  | c :: s' =>
      (if prev_cased then to_ascii_lower c else to_ascii_upper c)
        :: ascii_title (ascii_letter c) s'
  end.

Section Epub.
Context {U : Unicode} {H : Html}.

Definition str_title (s : pystr) : pystr :=
  if forallb is_ascii s then ascii_title false s else uni_title s.

(** [get_fallback_toc] *)
Definition get_fallback_toc (book_obj : EpubBook) : list TOCEntry :=
  flat_map (fun item =>
              match item_type item with
              | ITEM_DOCUMENT =>
                  let name := item_name item in
                  let title :=
                    str_title (replace [95%N] [32%N]
                                (replace (py ".xhtml") []
                                   (replace (py ".html") [] (item_name item)))) in
                  [MkTOCEntry title name name [] []]
              | _ => []
              end) (epub_items book_obj).

(** [extract_metadata_robust] *)
Definition get_list (book_obj : EpubBook) (key : pystr) : list (option pystr) :=
  epub_metadata book_obj key.

Definition get_one (book_obj : EpubBook) (key : pystr) : option pystr :=
  match epub_metadata book_obj key with
  | x :: _ => x
  | [] => None
  end.

Definition extract_metadata_robust (book_obj : EpubBook) : BookMetadata :=
  {| meta_title := or_else (get_one book_obj (py "title")) (py "Untitled");
     meta_language := or_else (get_one book_obj (py "language")) (py "en");
     meta_authors := (get_list book_obj (py "creator"));
     meta_description := get_one book_obj (py "description");
     meta_publisher := get_one book_obj (py "publisher");
     meta_date := get_one book_obj (py "date");
     meta_identifiers := (get_list book_obj (py "identifier"));
     meta_subjects := (get_list book_obj (py "subject")) |}.

(** The characters that the file-name sanitizer keeps. *)
Definition safe_char (c : N) : bool :=
  isalpha c || isdigit c || mem c [46; 95; 45]%N.

Definition sanitize (original_fname : pystr) : pystr :=
  strip (filter safe_char original_fname).

(** One iteration of the image loop. *)
Definition image_step (W : World) (images_dir : pystr)
    (image_map : list (pystr * pystr)) (item : EpubItem) : M (list (pystr * pystr)) :=
  match item_type item with
  | ITEM_IMAGE =>
      let original_fname := basename (item_name item) in
      let safe_fname := sanitize original_fname in
      let local_path := path_join images_dir safe_fname in
      (if writable W local_path
       then emit (WriteFile local_path (item_content item))
       else raise (WriteError local_path)) ;;
      let rel_path := py "images/" ++ safe_fname in
      let image_map := dict_set str_eqb image_map (item_name item) rel_path in
      ret (dict_set str_eqb image_map original_fname rel_path)
  | _ => ret image_map
  end.

(** [book.get_item_with_id] *)
Definition get_item_with_id (book : EpubBook) (uid : pystr) : option EpubItem :=
  find (fun item => str_eqb (item_id item) uid) (epub_items book).

(** One iteration of the loop over the spine. *)
Definition spine_step (book : EpubBook) (image_map : list (pystr * pystr))
    (spine_chapters : list ChapterContent) (ispine : nat * (pystr * pystr))
  : list ChapterContent :=
  let (i, spine_item) := ispine in
  let (item_id, linear) := spine_item in
  match get_item_with_id book item_id with
  | None => spine_chapters
  | Some item =>
      match item_type item with
      | ITEM_DOCUMENT =>
          spine_chapters ++
            [{| ch_id := item_id;
                ch_href := item_name item;
                ch_title := py "Section " ++ str_of_nat (i + 1);
                ch_content := chapter_html image_map (item_content item);
                ch_text := chapter_text image_map (item_content item);
                ch_order := i |}]
      | _ => spine_chapters
      end
  end.

(** [process_epub] *)
Definition process_epub (W : World) (epub_path output_dir : pystr) : M Book :=
  if negb (endswith (str_lower epub_path) (py ".epub")) then
    raise (ValueError (py "Unsupported file type: '" ++ epub_path
                       ++ py "'. This script currently supports only .epub files."))
  else
    print (py "Loading " ++ epub_path ++ py "...") ;;
    emit (ReadFile epub_path) ;;
    opened <- match epub_at W epub_path with
              | Some b => ret (b, None)
              | None =>
                  match epub_faulty W epub_path with
                  | Some (b, fault) => ret (b, Some fault)
                  | None => raise (ReadError epub_path)
                  end
              end ;;
    let book := fst opened in
    let fault := snd opened in
    match fault with
    | Some EpubMetadataRaises => raise (SourceError epub_path)
    | _ => ret tt
    end ;;
    let metadata := extract_metadata_robust book in
    match fault with
    | Some EpubRmtreeRaises =>
        emit (Rmtree output_dir) ;; raise (DirectoryError output_dir)
    | _ => if exists_at W output_dir then emit (Rmtree output_dir) else ret tt
    end ;;
    let images_dir := path_join output_dir (py "images") in
    emit (Makedirs images_dir) ;;
    match fault with
    | Some EpubMakedirsRaises => raise (DirectoryError images_dir)
    | _ => ret tt
    end ;;
    print (py "Extracting images...") ;;
    image_map <- for_each (epub_items book) (image_step W images_dir) [] ;;
    print (py "Parsing Table of Contents...") ;;
    toc_structure <- match epub_toc book with
                     | TocItems toc_list => ret (parse_toc_recursive toc_list 0)
                     | TocBareLink _ => raise TypeError
                     end ;;
    toc_structure <- match toc_structure with
                     | [] =>
                         print (py "Warning: Empty TOC, building fallback from Spine...") ;;
                         ret (get_fallback_toc book)
                     | _ => ret toc_structure
                     end ;;
    print (py "Processing chapters...") ;;
    let spine_chapters :=
      fold_left (spine_step book image_map) (enumerate (epub_spine book)) [] in
    ret {| book_metadata := metadata;
           book_spine := spine_chapters;
           book_toc := toc_structure;
           book_images := image_map;
           book_source_file := basename epub_path;
           book_processed_at := now_isoformat W;
           book_version := py "3.0" |}.

(** [process_book] *)
Definition process_book (W : World) (input_path output_dir : pystr) : M Book :=
  let ext := str_lower (snd (splitext input_path)) in
  if str_eqb ext (py ".epub") then process_epub W input_path output_dir
  else if str_eqb ext (py ".pdf") then process_pdf W input_path output_dir
  else raise (ValueError (py "Unsupported file type: '" ++ input_path
                          ++ py "'. Supported extensions: .epub, .pdf.")).
End Epub.

(* ===================================================================== *)
(** ** Sample inputs *)
(* ===================================================================== *)

(** An EPUB without a title: its spine names an item that is not in the
    container, then a chapter, then the style sheet, then a chapter. *)
Definition sample_epub : EpubBook := {|
  epub_metadata := fun key =>
    if str_eqb key (py "creator") then [Some (py "A. Author")] else [];
  epub_items :=
    [ {| item_id := py "cover-img"; item_name := py "Images/cover art(1).JPG";
         item_type := ITEM_IMAGE; item_content := [255; 216; 255]%N |};
      {| item_id := py "c1"; item_name := py "text/ch1.xhtml";
         item_type := ITEM_DOCUMENT; item_content := py "<p>One</p>" |};
      {| item_id := py "css"; item_name := py "style.css";
         item_type := ITEM_OTHER; item_content := py "p {}" |};
      {| item_id := py "c2"; item_name := py "text/ch2.xhtml";
         item_type := ITEM_DOCUMENT; item_content := py "<p>Two</p>" |} ];
  epub_toc := TocItems
    [TocLink {| link_title := py "One"; link_href := py "text/ch1.xhtml#top" |}];
  epub_spine := [(py "missing", py "yes"); (py "c1", py "yes");
                 (py "css", py "no"); (py "c2", py "yes")]
|}.

(** A PDF of ten pages, without document information and without outline. *)
Definition ten_pages : PdfReader := {|
  pdf_title := None; pdf_author := None; pdf_subject := None;
  pdf_producer := None; pdf_creation_date := None;
  pdf_pages := map (fun n => Some (py "Text of page " ++ str_of_nat n ++ py "."))
                   (seq 1 10);
  pdf_outline := None
|}.

Definition dest (title : string) (page : Z) : outline_item :=
  OutlineDest (Some (py title)) (Some page).

(** A PDF whose outline has five parts at the top and twelve chapters one
    level below. *)
Definition parts_pdf : PdfReader := {|
  pdf_title := Some (py "Collected Works"); pdf_author := Some (py "A. Author");
  pdf_subject := None; pdf_producer := None; pdf_creation_date := None;
  pdf_pages := repeat (Some (py "Some text.")) 50;
  pdf_outline := Some
    [ dest "Part I" 0;
      OutlineList [dest "Chapter 1" 1; dest "Chapter 2" 4; dest "Chapter 3" 7];
      dest "Part II" 10;
      OutlineList [dest "Chapter 4" 11; dest "Chapter 5" 14];
      dest "Part III" 20;
      OutlineList [dest "Chapter 6" 21; dest "Chapter 7" 24; dest "Chapter 8" 27];
      dest "Part IV" 30;
      OutlineList [dest "Chapter 9" 31; dest "Chapter 10" 35];
      dest "Part V" 40;
      OutlineList [dest "Chapter 11" 41; dest "Chapter 12" 45] ]%Z
|}.

Definition sample_world : World := {|
  epub_at := fun p => if str_eqb p (py "book.epub") then Some sample_epub else None;
  pdf_at := fun p =>
    if str_eqb p (py "novel.pdf") then Some ten_pages
    else if str_eqb p (py "works.pdf") then Some parts_pdf
    else None;
  exists_at := fun _ => false;
  writable := fun _ => true;
  now_isoformat := py "2024-05-01T12:00:00";
  epub_faulty := fun _ => None;
  pdf_faulty := fun _ => None
|}.

(* ===================================================================== *)
(** ** Vocabulary of the properties *)
(* ===================================================================== *)

(** A line is blank when it holds white space only. *)
Definition blank (line : pystr) : Prop := Forall (fun c => isspace c = true) line.

Definition paragraph (line : pystr) : pystr :=
  py "<p>" ++ escape (strip line) ++ py "</p>".

Definition nonblank (line : pystr) : bool := truthy (strip line).

(** The navigation entry that goes with a chapter of a PDF. *)
Definition toc_of_chapter (c : ChapterContent) : TOCEntry :=
  flat_toc_entry (ch_title c) (ch_href c).

Definition by_page (a b : LevelEntry) : Prop := le_page a <= le_page b.

Definition in_page_order (es : list OutlineEntry) : Prop :=
  StronglySorted (fun a b => oe_page a <= oe_page b) es.

Definition not_a_write (ev : event) : Prop :=
  match ev with WriteFile _ _ => False | _ => True end.

(** A value that the source's metadata does not provide. *)
Definition absent (x : option pystr) : Prop := x = None \/ x = Some [].

(** [file] and [anchor] split [h] at a '#': either there is no anchor and
    [h] is the file part, or [h] is the file part, a '#', and the anchor. *)
Definition splits_href (h file anchor : pystr) : Prop :=
  (anchor = [] /\ h = file) \/ h = file ++ 35%N :: anchor.

Section Vocabulary.
Context {U : Unicode} {H : Html}.

Definition page_texts_of (r : PdfReader) : list pystr :=
  map (fun page => normalize_pdf_text (or_else page [])) (pdf_pages r).

(** The two lists that the segmentation loops of [process_pdf] build. *)
Definition pdf_segments (r : PdfReader) : list ChapterContent * list TOCEntry :=
  match get_pdf_outline_entries r with
  | [] => fold_left page_step (enumerate (page_texts_of r)) ([], [])
  | es =>
      fold_left (outline_step (page_texts_of r)
                   (map oe_page es ++ [List.length (page_texts_of r)]))
                (enumerate es) ([], [])
  end.

(** The chapter that one iteration of the page loop appends. *)
Definition page_chapter (ip : nat * pystr) : ChapterContent :=
  let href := py "page-" ++ str_of_nat (fst ip + 1) in
  {| ch_id := href; ch_href := href;
     ch_title := py "Page " ++ str_of_nat (fst ip + 1);
     ch_content := text_to_html (snd ip);
     ch_text := join [32%N] (split_ws (snd ip));
     ch_order := fst ip |}.

(** The chapter that one iteration of the outline loop appends, when it
    appends one. *)
Definition outline_chapter (page_texts : list pystr) (starts : list nat)
    (ie : nat * OutlineEntry) : ChapterContent :=
  let i := fst ie in
  let start := nth i starts 0 in
  let end_ := Nat.max (start + 1)
                (Nat.min (nth (i + 1) starts 0) (List.length page_texts)) in
  let segment_text := strip (join [LF; LF] (slice page_texts start end_)) in
  let href := py "chapter-" ++ str_of_nat (i + 1) in
  {| ch_id := href; ch_href := href;
     ch_title := or_else (Some (oe_title (snd ie))) (py "Chapter " ++ str_of_nat (i + 1));
     ch_content := text_to_html segment_text;
     ch_text := join [32%N] (split_ws segment_text);
     ch_order := i |}.

Definition outline_keep (page_texts : list pystr) (starts : list nat)
    (ie : nat * OutlineEntry) : bool :=
  negb (List.length page_texts <=? nth (fst ie) starts 0).

(** A spine entry is kept when it names an item and the item is a
    document. *)
Definition is_document (book : EpubBook) (uid : pystr) : bool :=
  match get_item_with_id book uid with
  | Some item => match item_type item with ITEM_DOCUMENT => true | _ => false end
  | None => false
  end.

Definition spine_keep (book : EpubBook) (ispine : nat * (pystr * pystr)) : bool :=
  is_document book (fst (snd ispine)).

(** The chapter that one iteration of the spine loop appends, when it
    appends one. *)
Definition spine_chapter (book : EpubBook) (image_map : list (pystr * pystr))
    (ispine : nat * (pystr * pystr)) : ChapterContent :=
  let i := fst ispine in
  let uid := fst (snd ispine) in
  let name := match get_item_with_id book uid with
              | Some item => item_name item | None => [] end in
  let raw := match get_item_with_id book uid with
             | Some item => item_content item | None => [] end in
  {| ch_id := uid; ch_href := name;
     ch_title := py "Section " ++ str_of_nat (i + 1);
     ch_content := chapter_html image_map raw;
     ch_text := chapter_text image_map raw;
     ch_order := i |}.

(** The characters that a sanitized file name may hold. *)
Definition filename_char (c : N) : Prop :=
  isalpha c = true \/ isdigit c = true \/ c = 46%N \/ c = 95%N \/ c = 45%N.

(** What an asset's entry in the image map and its file on disk look like. *)
Definition asset_value (v : pystr) : Prop :=
  exists safe, v = py "images/" ++ safe /\ basename v = safe
               /\ Forall filename_char safe.

Definition asset_path (images_dir p : pystr) : Prop :=
  exists safe, p = images_dir ++ 47%N :: safe /\ basename p = safe
               /\ Forall filename_char safe.

End Vocabulary.

Ltac run_monad := unfold bind, print, emit, ret, raise in *; cbn [fst snd] in *.

(** Evaluates the left-hand side of an equation and compares. *)
Ltac evaluate_run :=
  match goal with
  | |- ?l = _ =>
      let v := eval vm_compute in l in
      transitivity v; [vm_compute; reflexivity | reflexivity]
  end.

(* ===================================================================== *)
(** ** Vocabulary of the further properties *)
(* ===================================================================== *)

(** Induction over outline trees: a nested list holds items for which the
    property is already known. *)
Fixpoint outline_item_induction (P : outline_item -> Prop)
    (Hdest : forall t p, P (OutlineDest t p))
    (Hlist : forall items, Forall P items -> P (OutlineList items))
    (item : outline_item) : P item :=
  match item with
  | OutlineDest t p => Hdest t p
  | OutlineList items =>
      Hlist items
        ((fix all (l : list outline_item) : Forall P l :=
            match l with
            | [] => Forall_nil P
            | x :: l' =>
                Forall_cons x (@outline_item_induction P Hdest Hlist x) (all l')
            end) items)
  end.

(** A destination is usable when it has a non-empty title and resolves to a
    page that is not negative; a nested list when one of its items is. *)
Fixpoint has_usable (item : outline_item) : bool :=
  match item with
  | OutlineDest t p =>
      match as_entry t p 0 with Some _ => true | None => false end
  | OutlineList items => existsb has_usable items
  end.

(** The outline of a reader, empty when the access raises. *)
Definition outline_of (reader : PdfReader) : list outline_item :=
  match pdf_outline reader with Some o => o | None => [] end.

(** The usable destinations below an item that sits at depth [level], in
    document order, each with its depth. *)
Fixpoint outline_entries_of (level : nat) (item : outline_item) : list LevelEntry :=
  match item with
  | OutlineDest t p =>
      match as_entry t p level with Some e => [e] | None => [] end
  | OutlineList items => flat_map (outline_entries_of (S level)) items
  end.

(** The list that a level dictionary holds for a level, empty when the
    level is absent. *)
Definition lookup_level (d : levels) (level : nat) : list LevelEntry :=
  match dict_get Nat.eqb d level with Some l => l | None => [] end.

(** A PDF whose outline is flat: four entries, two of them chapters. *)
Definition flat_outline_pdf : PdfReader := {|
  pdf_title := Some (py "Essays"); pdf_author := None; pdf_subject := None;
  pdf_producer := None; pdf_creation_date := None;
  pdf_pages := repeat (Some (py "Some text.")) 10;
  pdf_outline := Some
    [dest "Chapter 1" 0; dest "Chapter 2" 3; dest "Notes" 6; dest "Index" 8]%Z
|}.

(** A PDF whose outline has three plain entries at the top and three
    chapters one level below. *)
Definition nested_outline_pdf : PdfReader := {|
  pdf_title := Some (py "Stories"); pdf_author := None; pdf_subject := None;
  pdf_producer := None; pdf_creation_date := None;
  pdf_pages := repeat (Some (py "Some text.")) 10;
  pdf_outline := Some
    [ dest "Front matter" 0; dest "Stories" 1;
      OutlineList [dest "Chapter 1" 1; dest "Chapter 2" 3; dest "Chapter 3" 5];
      dest "Back matter" 8 ]%Z
|}.

(** The page range [start, end) that the outline loop computes in its
    iteration [i]. *)
Definition chapter_range (page_texts : list pystr) (starts : list nat) (i : nat)
  : nat * nat :=
  let start := nth i starts 0 in
  (start,
   Nat.max (start + 1) (Nat.min (nth (i + 1) starts 0) (List.length page_texts))).

(** The text of a chapter that spans a page range. *)
Definition range_text (page_texts : list pystr) (rg : nat * nat) : pystr :=
  strip (join [LF; LF] (slice page_texts (fst rg) (snd rg))).

(** The ranges between successive starting pages, the last one running to
    the end of a document of [total] pages; they stop at the first start
    that lies past the end. *)
Fixpoint page_tiles (total : nat) (es : list OutlineEntry) : list (nat * nat) :=
  match es with
  | [] => []
  | e :: es' =>
      if oe_page e <? total
      then (oe_page e,
            Nat.min (match es' with e' :: _ => oe_page e' | [] => total end) total)
           :: page_tiles total es'
      else []
  end.

(** A string that neither starts nor ends with white space. *)
Definition trimmed (s : pystr) : Prop :=
  (forall c r, s = c :: r -> isspace c = false)
  /\ (forall c r, s = r ++ [c] -> isspace c = false).

(** No run of line feeds in [s] reaches three, [n] line feeds standing
    right before [s]. *)
Fixpoint lf_runs_within (n : nat) (s : pystr) : bool :=
  match s with
  | [] => true
  | c :: s' =>
      if N.eqb c LF then (n <? 2) && lf_runs_within (S n) s'
      else lf_runs_within 0 s'
  end.

(** No two neighbours in the list are both empty. *)
Fixpoint no_blank_pair (ls : list pystr) : Prop :=
  match ls with
  | x :: ((y :: _) as tl) => ~ (x = [] /\ y = []) /\ no_blank_pair tl
  | _ => True
  end.

(** The characters that could open or close markup or an attribute value:
    '<', '>', the double and the single quote. *)
Definition markup_char (c : N) : Prop := In c [60; 62; 34; 39]%N.


Section VocabularyEpub.
Context {U : Unicode} {H : Html}.

(** The file that the asset extractor writes for an image item. *)
Definition asset_target (output_dir : pystr) (item : EpubItem) : pystr :=
  path_join (path_join output_dir (py "images"))
            (sanitize (basename (item_name item))).

(** The value that the asset extractor registers for an image item. *)
Definition asset_rel_path (item : EpubItem) : pystr :=
  py "images/" ++ sanitize (basename (item_name item)).

(** An image item that registers the key: by its full name or by the
    base name of it. *)
Definition registers (key : pystr) (item : EpubItem) : bool :=
  match item_type item with
  | ITEM_IMAGE =>
      str_eqb key (item_name item) || str_eqb key (basename (item_name item))
  | _ => false
  end.

(** The book that [process_epub] assembles from a loaded container, the
    elements of its table of contents and the image map. *)
Definition epub_book (W : World) (epub_path : pystr) (b : EpubBook)
    (toc_list : list toc_node) (image_map : list (pystr * pystr)) : Book :=
  {| book_metadata := extract_metadata_robust b;
     book_spine := fold_left (spine_step b image_map) (enumerate (epub_spine b)) [];
     book_toc := match parse_toc_recursive toc_list 0 with
                 | [] => get_fallback_toc b
                 | toc => toc
                 end;
     book_images := image_map;
     book_source_file := basename epub_path;
     book_processed_at := now_isoformat W;
     book_version := py "3.0" |}.

(** What [process_epub] has logged when the image loop starts. *)
Definition epub_log_before_images (W : World) (epub_path output_dir : pystr)
    (log : list event) : list event :=
  log ++ [Print (py "Loading " ++ epub_path ++ py "..."); ReadFile epub_path]
      ++ (if exists_at W output_dir then [Rmtree output_dir] else [])
      ++ [Makedirs (path_join output_dir (py "images"));
          Print (py "Extracting images...")].
End VocabularyEpub.

(** A world in which the cover image of the sample EPUB cannot be
    written. *)
Definition locked_world : World := {|
  epub_at := epub_at sample_world;
  pdf_at := pdf_at sample_world;
  exists_at := fun _ => true;
  writable := fun p => negb (str_eqb p (py "book_data/images/coverart1.JPG"));
  now_isoformat := now_isoformat sample_world;
  epub_faulty := fun _ => None;
  pdf_faulty := fun _ => None
|}.

(** The sample EPUB with an empty table of contents, the sample EPUB whose
    navigation map has no navigation point, and a world that holds both. *)
Definition bare_epub : EpubBook := {|
  epub_metadata := epub_metadata sample_epub;
  epub_items := epub_items sample_epub;
  epub_toc := TocItems [];
  epub_spine := epub_spine sample_epub
|}.

Definition pointless_epub : EpubBook := {|
  epub_metadata := epub_metadata sample_epub;
  epub_items := epub_items sample_epub;
  epub_toc := TocBareLink {| link_title := []; link_href := [] |};
  epub_spine := epub_spine sample_epub
|}.

Definition bare_world : World := {|
  epub_at := fun p =>
    if str_eqb p (py "bare.epub") then Some bare_epub
    else if str_eqb p (py "pointless.epub") then Some pointless_epub
    else None;
  pdf_at := fun _ => None;
  exists_at := fun _ => false;
  writable := fun _ => true;
  now_isoformat := now_isoformat sample_world;
  epub_faulty := fun _ => None;
  pdf_faulty := fun p =>
    if str_eqb p (py "damaged.pdf") then Some (ten_pages, PdfPagesRaise) else None
|}.

(** The element of a container's table of contents yields an entry. *)
Definition yields_entry (n : toc_node) : bool :=
  match n with TocOther => false | _ => true end.

(** Induction over a container's table of contents: the children of a
    tuple are elements for which the property is already known. *)
Fixpoint toc_node_induction (P : toc_node -> Prop)
    (Htuple : forall s children, Forall P children -> P (TocTuple s children))
    (Hlink : forall i, P (TocLink i))
    (Hsection : forall i, P (TocSection i))
    (Hother : P TocOther)
    (n : toc_node) : P n :=
  match n with
  | TocTuple s children =>
      Htuple s children
        ((fix all (l : list toc_node) : Forall P l :=
            match l with
            | [] => Forall_nil P
            | x :: l' =>
                Forall_cons x
                  (@toc_node_induction P Htuple Hlink Hsection Hother x) (all l')
            end) children)
  | TocLink i => Hlink i
  | TocSection i => Hsection i
  | TocOther => Hother
  end.

(** The titled elements of a container's table of contents, at any depth,
    in document order. *)
Fixpoint toc_links (n : toc_node) : list Link :=
  match n with
  | TocTuple s children => s :: flat_map toc_links children
  | TocLink i => [i]
  | TocSection i => [i]
  | TocOther => []
  end.

(** An entry of the sidebar and the entries below it, in document order. *)
Fixpoint toc_flatten (e : TOCEntry) : list TOCEntry :=
  match e with
  | MkTOCEntry _ _ _ _ children => e :: flat_map toc_flatten children
  end.

(** The title and the href of an entry. *)
Definition entry_link (e : TOCEntry) : Link :=
  {| link_title := toc_title e; link_href := toc_href e |}.

(** The effects that a conversion of [path] into [out] may have: messages,
    reading the source, removing and creating the output directory, and
    writing files directly inside its image directory. *)
Definition confined (path out : pystr) (ev : event) : Prop :=
  match ev with
  | Print _ => True
  | ReadFile p => p = path
  | Rmtree p => p = out
  | Makedirs p => p = out \/ p = path_join out (py "images")
  | WriteFile p _ =>
      exists name, p = path_join out (py "images") ++ 47%N :: name
                   /\ ~ In 47%N name
  end.

(** The output directory that the command line derives from its argument:
    [os.path.splitext(input_file)[0] + "_data"]. *)
Definition cli_out_dir (input_file : pystr) : pystr :=
  fst (splitext input_file) ++ py "_data".

(* ===================================================================== *)
(** ** The web server (src/server.py) *)
(* ===================================================================== *)

(** [sub in s] for strings. *)
Fixpoint contains (sub s : pystr) : bool :=
  startswith s sub
  || match s with
     | [] => false
     | _ :: s' => contains sub s'
     end.

(** [os.sep] (POSIX) *)
Definition os_sep : pystr := [47%N].

Definition BOOKS_DIR : pystr := py ".".

(** What a request handler or one of its helpers raises. *)
Inductive server_error :=
| HTTPException (status_code : nat) (detail : pystr)
| MixedPathsError     (* [os.path.commonpath] on an absolute and a relative path *)
| IndexError         (* an index out of range *)
| OSError.           (* a failed change of the file system *)

(** [decode_book_id] *)
Definition decode_book_id (book_id : pystr) : pystr :=
  replace (py "__") os_sep book_id.

(** [encode_book_id] *)
Definition encode_book_id (rel_path : pystr) : pystr :=
  replace os_sep (py "__") rel_path.

(** [os.path.isabs(p)] (POSIX) *)
Definition isabs (p : pystr) : bool := startswith p os_sep.

(** The number of leading slashes that [os.path.normpath] keeps: two when
    the path starts with exactly two, otherwise at most one. *)
Definition initial_slashes (path : pystr) : nat :=
  if startswith path os_sep then
    if startswith path (py "//") && negb (startswith path (py "///")) then 2 else 1
  else 0.

Definition is_empty {A} (l : list A) : bool :=
  match l with [] => true | _ => false end.

(** One iteration of the loop of [os.path.normpath] over the components. *)
Definition normpath_step (slashes : nat) (new_comps : list pystr) (comp : pystr)
  : list pystr :=
  if str_eqb comp [] || str_eqb comp (py ".") then new_comps
  else if negb (str_eqb comp (py ".."))
          || ((slashes =? 0) && is_empty new_comps)
          || (negb (is_empty new_comps) && str_eqb (last new_comps []) (py ".."))
       then new_comps ++ [comp]
       else if negb (is_empty new_comps) then removelast new_comps
            else new_comps.

(** [os.path.normpath(path)] (POSIX) *)
Definition normpath (path : pystr) : pystr :=
  if negb (truthy path) then py "."
  else
    let slashes := initial_slashes path in
    let comps := fold_left (normpath_step slashes) (split_on 47 path) [] in
    let path := repeat 47%N slashes ++ join os_sep comps in
    if truthy path then path else py ".".

(** [os.path.abspath(path)] (POSIX) in a process whose working directory
    is [cwd]. *)
Definition abspath (cwd path : pystr) : pystr :=
  normpath (if isabs path then path else path_join cwd path).

(** The order of Python sequences: the first position where two sequences
    differ decides; a proper prefix is smaller. *)
Fixpoint lex_ltb {A} (eqb ltb : A -> A -> bool) (a b : list A) : bool :=
  match a, b with
  | [], [] => false
  | [], _ :: _ => true
  | _ :: _, [] => false
  | x :: a', y :: b' => if eqb x y then lex_ltb eqb ltb a' b' else ltb x y
  end.

Definition str_ltb (a b : pystr) : bool := lex_ltb N.eqb N.ltb a b.

Definition parts_ltb (a b : list pystr) : bool := lex_ltb str_eqb str_ltb a b.

(** The components that [os.path.commonpath] compares. *)
Definition path_parts (p : pystr) : list pystr :=
  filter (fun c => truthy c && negb (str_eqb c (py "."))) (split_on 47 p).

(** The loop of [os.path.commonpath]: [s1] up to the first index at which
    [s2] differs; reading [s2] past its end is an error. *)
Fixpoint common_loop (s1 s2 : list pystr) : option (list pystr) :=
  match s1 with
  | [] => Some []
  | c :: s1' =>
      match s2 with
      | [] => None
      | d :: s2' =>
          if str_eqb c d then option_map (cons c) (common_loop s1' s2')
          else Some []
      end
  end.

(** [os.path.commonpath([a, b])] (POSIX) *)
Definition commonpath (a b : pystr) : server_error + pystr :=
  if negb (Bool.eqb (str_eqb (firstn 1 a) os_sep) (str_eqb (firstn 1 b) os_sep))
  then inl MixedPathsError
  else
    let pa := path_parts a in
    let pb := path_parts b in
    let s1 := if parts_ltb pb pa then pb else pa in   (* min *)
    let s2 := if parts_ltb pa pb then pb else pa in   (* max *)
    match common_loop s1 s2 with
    | None => inl IndexError
    | Some common =>
        inr ((if str_eqb (firstn 1 a) os_sep then os_sep else []) ++ join os_sep common)
    end.

(** [safe_book_dir], in a process whose working directory is [cwd]. *)
Definition safe_book_dir (cwd book_id : pystr) : server_error + option pystr :=
  let rel := strip (normpath (decode_book_id book_id)) in
  if negb (truthy rel) || str_eqb rel (py ".") then inr None
  else if isabs rel || startswith rel (py "..") || contains (py "/../") rel
  then inr None
  else
    let root_abs := abspath cwd BOOKS_DIR in
    let full_path := abspath cwd (path_join root_abs rel) in
    match commonpath root_abs full_path with
    | inl e => inl e
    | inr common =>
        if negb (str_eqb common root_abs) then inr None
        else inr (Some full_path)
    end.

(** The class [[a-z0-9_-]]. *)
Definition category_char (c : N) : bool :=
  ascii_lower c || ascii_digit c || N.eqb c 95 || N.eqb c 45.

(** [re.fullmatch(r"[a-z0-9][a-z0-9_-]{0,63}", s)] *)
Definition category_fullmatch (s : pystr) : bool :=
  match s with
  | c :: rest =>
      (ascii_lower c || ascii_digit c)
      && forallb category_char rest && (List.length rest <=? 63)
  | [] => false
  end.

Section Server.
Context {U : Unicode}.

(** [category_from_rel_path]: the key and the label. *)
Definition category_from_rel_path (rel_path : pystr) : pystr * pystr :=
  let parts := split_on 47 rel_path in
  if List.length parts <=? 1 then ([], py "Uncategorized")
  else
    let key := strip (nth 0 parts []) in
    let label := strip (replace (py "-") (py " ") (replace (py "_") (py " ") key)) in
    (key, if truthy label then str_title label else py "Uncategorized").

(** [normalize_category_key] *)
Definition normalize_category_key (category : option pystr) : server_error + pystr :=
  let raw := strip (or_else category []) in
  if negb (truthy raw) then inr []
  else
    let normalized := replace (py " ") (py "-") (str_lower raw) in
    if negb (category_fullmatch normalized)
    then inl (HTTPException 400 (py "Invalid category name"))
    else inr normalized.
End Server.

(** What [read_chapter] hands to the reader template. *)
Record ReaderPage := {
  current_chapter : ChapterContent;
  chapter_index : Z;
  prev_idx : option Z;
  next_idx : option Z
}.

(** [read_chapter], for the book that [load_book_cached] returns for the
    request's book id. *)
Definition read_chapter (book : option Book) (chapter_index : Z)
  : server_error + ReaderPage :=
  match book with
  | None => inl (HTTPException 404 (py "Book not found"))
  | Some book =>
      if (chapter_index <? 0)%Z
         || (Z.of_nat (List.length (book_spine book)) <=? chapter_index)%Z
      then inl (HTTPException 404 (py "Chapter not found"))
      else
        match nth_error (book_spine book) (Z.to_nat chapter_index) with
        | None => inl IndexError
        | Some ch =>
            inr {| current_chapter := ch;
                   chapter_index := chapter_index;
                   prev_idx := if (0 <? chapter_index)%Z
                               then Some (chapter_index - 1)%Z else None;
                   next_idx := if (chapter_index
                                   <? Z.of_nat (List.length (book_spine book)) - 1)%Z
                               then Some (chapter_index + 1)%Z else None |}
        end
  end.

(** A book of three page chapters, as the reader serves it. *)
Definition three_page_book : Book := {|
  book_metadata := {| meta_title := py "Novel"; meta_language := py "en";
                      meta_authors := []; meta_description := None;
                      meta_publisher := None; meta_date := None;
                      meta_identifiers := []; meta_subjects := [] |};
  book_spine := map page_chapter (enumerate [py "One."; py "Two."; py "Three."]);
  book_toc := [];
  book_images := [];
  book_source_file := py "novel.pdf";
  book_processed_at := py "2024-05-01T12:00:00";
  book_version := py "3.0"
|}.

(** A name of a directory entry: not empty, without slash, and neither of
    the two special names. *)
Definition plain_name (n : pystr) : Prop :=
  n <> [] /\ ~ In 47%N n /\ n <> py "." /\ n <> py "..".

(** The longest common prefix of two component lists. *)
Fixpoint shared_prefix (a b : list pystr) : list pystr :=
  match a, b with
  | x :: a', y :: b' => if str_eqb x y then x :: shared_prefix a' b' else []
  | _, _ => []
  end.

(** The directory reached from [root] by descending through [names]. *)
Definition descend (root : pystr) (names : list pystr) : pystr :=
  fold_left path_join names root.

(** What the server sees of its environment during one request. *)
Record ServerWorld := {
  getcwd : pystr;                        (* os.getcwd() *)
  path_exists : pystr -> bool;           (* os.path.exists *)
  path_isdir : pystr -> bool;            (* os.path.isdir *)
  can_makedirs : pystr -> bool;          (* os.makedirs(p, exist_ok=True) succeeds *)
  can_move : pystr -> pystr -> bool      (* shutil.move(src, dst) succeeds *)
}.

(** What a handler changes, in the order of the calls. *)
Inductive server_event :=
| OsMakedirs (path : pystr)
| ShutilMove (src dst : pystr)
| CacheClear.

Inductive response :=
| FileResponse (path : pystr)
| RedirectResponse (url : pystr) (status_code : nat).

(** [serve_image] *)
Definition serve_image (SW : ServerWorld) (book_id image_name : pystr)
  : server_error + response :=
  match safe_book_dir (getcwd SW) book_id with
  | inl e => inl e
  | inr book_dir =>
      if negb (truthy (or_else book_dir []))
      then inl (HTTPException 404 (py "Book not found"))
      else
        let book_dir := or_else book_dir [] in
        let safe_image_name := basename image_name in
        let img_path := path_join (path_join book_dir (py "images")) safe_image_name in
        if negb (path_exists SW img_path)
        then inl (HTTPException 404 (py "Image not found"))
        else inr (FileResponse img_path)
  end.

Section ServerMoves.
Context {U : Unicode}.

(** [move_book_to_category].  The directory that [os.makedirs] creates is
    the parent of the destination, so the test for an existing destination
    reads what was there before. *)
Definition move_book_to_category (SW : ServerWorld) (book_id target : pystr)
  : (server_error + response) * list server_event :=
  match safe_book_dir (getcwd SW) book_id with
  | inl e => (inl e, [])
  | inr src_dir =>
      if negb (truthy (or_else src_dir [])) || negb (path_isdir SW (or_else src_dir []))
      then (inl (HTTPException 404 (py "Book not found")), [])
      else
        let src_dir := or_else src_dir [] in
        if negb (endswith (basename src_dir) (py "_data"))
        then (inl (HTTPException 400 (py "Invalid book folder")), [])
        else
          match normalize_category_key (Some target) with
          | inl e => (inl e, [])
          | inr category_key =>
              let dest_root :=
                if truthy category_key then path_join BOOKS_DIR category_key
                else BOOKS_DIR in
              if truthy category_key && negb (can_makedirs SW dest_root)
              then (inl OSError, [])
              else
                let made := if truthy category_key then [OsMakedirs dest_root] else [] in
                let base_name := basename src_dir in
                let dest_dir := abspath (getcwd SW) (path_join dest_root base_name) in
                if negb (str_eqb (abspath (getcwd SW) src_dir) dest_dir) then
                  if path_exists SW dest_dir
                  then (inl (HTTPException 409
                               (py "Destination already has '" ++ base_name ++ py "'")),
                        made)
                  else if negb (can_move SW src_dir dest_dir)
                  then (inl OSError, made)
                  else (inr (RedirectResponse (py "/") 303),
                        made ++ [ShutilMove src_dir dest_dir; CacheClear])
                else (inr (RedirectResponse (py "/") 303), made)
          end
  end.
End ServerMoves.

(** A server in /srv/books that holds one uncategorized book. *)
Definition sample_server : ServerWorld := {|
  getcwd := py "/srv/books";
  path_exists := fun p => str_eqb p (py "/srv/books/novel_data")
                          || str_eqb p (py "/srv/books/novel_data/images/cover.jpg");
  path_isdir := fun p => str_eqb p (py "/srv/books/novel_data");
  can_makedirs := fun _ => true;
  can_move := fun _ _ => true
|}.

(** Goes through the events of a log that is written out as a
    concatenation. *)
Ltac event_cases H :=
  repeat match type of H with
         | In _ (_ ++ _) => apply in_app_or in H; destruct H as [H | H]
         | In _ (_ :: _) => destruct H as [H | H]
         | In _ [] => destruct H
         | In _ (if ?c then _ else _) => destruct c
         end.

(** The usable destinations at depth [k] of a reader's outline, in
    document order. *)
Definition outline_level (reader : PdfReader) (k : nat) : list LevelEntry :=
  filter (fun e => Nat.eqb (le_level e) k)
         (flat_map (outline_entries_of 0) (outline_of reader)).

(** One entry for each page of a level: the first entry of the level on
    that page, the later ones on the same page being dropped. *)
Fixpoint first_per_page (entries : list LevelEntry) : list LevelEntry :=
  match entries with
  | [] => []
  | e :: rest =>
      e :: filter (fun x => negb (Nat.eqb (le_page x) (le_page e)))
                  (first_per_page rest)
  end.

(** Whether [x] lies on the page of [y]. *)
Definition on_page_of (y : LevelEntry) (x : LevelEntry) : bool :=
  Nat.eqb (le_page x) (le_page y).

(** A PDF whose outline lists two parts on one page, three further
    entries, and two entries one level below. *)
Definition repeated_parts_pdf : PdfReader := {|
  pdf_title := Some (py "Two Parts"); pdf_author := None; pdf_subject := None;
  pdf_producer := None; pdf_creation_date := None;
  pdf_pages := repeat (Some (py "Some text.")) 10;
  pdf_outline := Some
    [ dest "Part I" 0; dest "Part II" 0; dest "Intro" 1; dest "Notes" 2;
      dest "Index" 3;
      OutlineList [dest "Alpha" 5; dest "Beta" 6] ]%Z
|}.

(* ===================================================================== *)
(** * Properties *)
(* ===================================================================== *)

(** ** Strings *)

Lemma str_eqb_eq (a b : pystr) : str_eqb a b = true <-> a = b.
Proof.
  unfold str_eqb. destruct (list_eq_dec N.eq_dec a b); split; congruence.
Qed.

Lemma str_eqb_neq (a b : pystr) : str_eqb a b = false <-> a <> b.
Proof.
  unfold str_eqb. destruct (list_eq_dec N.eq_dec a b); split; congruence.
Qed.

Lemma lstrip_nil (s : pystr) : lstrip s = [] <-> blank s.
Proof.
  unfold blank. induction s as [|c s IH]; simpl.
  - split; auto.
  - destruct (isspace c) eqn:E.
    + rewrite IH. split; intros Hs.
      * constructor; assumption.
      * inversion Hs; assumption.
    + split; intros Hs; [discriminate|].
      apply Forall_inv in Hs. simpl in Hs. congruence.
Qed.

Lemma lstrip_blank_or_head (s : pystr) :
  lstrip s = [] \/ exists c r, lstrip s = c :: r /\ isspace c = false.
Proof.
  induction s as [|c s IH]; simpl; auto.
  destruct (isspace c) eqn:E; auto.
  right. exists c, s. auto.
Qed.

Lemma blank_rev (s : pystr) : blank (rev s) <-> blank s.
Proof.
  unfold blank. rewrite !Forall_forall.
  split; intros Hs x Hx; apply Hs; [apply in_rev in Hx|apply in_rev]; auto.
Qed.

Lemma strip_nil (s : pystr) : strip s = [] <-> blank s.
Proof.
  unfold strip, rstrip. split.
  - intros Hs.
    assert (Hr : lstrip (rev (lstrip s)) = []).
    { destruct (lstrip (rev (lstrip s))) as [|c0 l0]; [reflexivity|].
      simpl in Hs. now destruct (rev l0). }
    apply lstrip_nil in Hr. apply -> blank_rev in Hr.
    destruct (lstrip_blank_or_head s) as [E | (c & r & E & Hc)].
    + now apply lstrip_nil.
    + rewrite E in Hr. apply Forall_inv in Hr. simpl in Hr. congruence.
  - intros Hs. apply lstrip_nil in Hs. now rewrite Hs.
Qed.

Lemma truthy_false (s : pystr) : truthy s = false <-> s = [].
Proof. destruct s; simpl; split; congruence. Qed.

(** ** Paragraph markup *)

Lemma nonblank_spec (line : pystr) : nonblank line = false <-> blank line.
Proof. unfold nonblank. now rewrite truthy_false, strip_nil. Qed.

Lemma text_to_html_eq (text : pystr) :
  text_to_html text =
  match filter nonblank (splitlines text) with
  | [] => py "<p></p>"
  | ls => concat (map paragraph ls)
  end.
Proof.
  unfold text_to_html. fold nonblank.
  destruct (filter nonblank (splitlines text)) as [|l ls]; [reflexivity|].
  cbn [map]. rewrite map_map. reflexivity.
Qed.

Lemma filter_nonblank_nil (ls : list pystr) :
  filter nonblank ls = [] <-> Forall blank ls.
Proof.
  induction ls as [|l ls IH]; simpl.
  - split; auto.
  - destruct (nonblank l) eqn:E.
    + split; [discriminate|]. intros Hs. inversion Hs; subst.
      apply nonblank_spec in H1. congruence.
    + rewrite IH. split; intros Hs.
      * constructor; [now apply nonblank_spec | assumption].
      * now inversion Hs.
Qed.

Lemma text_to_html_nonempty (text : pystr) : text_to_html text <> [].
Proof.
  rewrite text_to_html_eq.
  destruct (filter nonblank (splitlines text)); discriminate.
Qed.

(** ** Loops that append *)

Lemma fold_left_append {A B C} (step : list B * list C -> A -> list B * list C)
      (keep : A -> bool) (f : A -> B) (g : A -> C) (l : list A) :
  (forall st x, In x l ->
     step st x = if keep x then (fst st ++ [f x], snd st ++ [g x]) else st) ->
  forall st,
    fold_left step l st
    = (fst st ++ map f (filter keep l), snd st ++ map g (filter keep l)).
Proof.
  induction l as [|x l IH]; intros Hstep st; simpl.
  - rewrite !app_nil_r. now destruct st.
  - rewrite IH by (intros; apply Hstep; now right).
    rewrite (Hstep st x) by now left.
    destruct (keep x); simpl; [|reflexivity].
    now rewrite <- !app_assoc.
Qed.

Lemma enumerate_nth {A} (l : list A) (i j : nat) (x : A) :
  nth_error (enumerate l) i = Some (j, x) -> j = i /\ nth_error l i = Some x.
Proof.
  unfold enumerate.
  assert (G : forall k, nth_error (combine (seq k (List.length l)) l) i = Some (j, x) ->
                        j = k + i /\ nth_error l i = Some x).
  { revert i. induction l as [|a l IH]; intros i k; simpl.
    - destruct i; discriminate.
    - destruct i; simpl.
      + intros E. inversion E; subst. split; [lia | reflexivity].
      + intros E. apply IH in E. destruct E; split; [lia | assumption]. }
  intros E. apply (G 0) in E. exact E.
Qed.

Lemma enumerate_length {A} (l : list A) : List.length (enumerate l) = List.length l.
Proof.
  unfold enumerate. rewrite length_combine, length_seq. apply Nat.min_id.
Qed.

Lemma enumerate_lookup {A} (l : list A) (i : nat) (x : A) :
  nth_error l i = Some x -> nth_error (enumerate l) i = Some (i, x).
Proof.
  intros E.
  destruct (nth_error (enumerate l) i) as [[j y]|] eqn:N.
  - apply enumerate_nth in N. destruct N as [-> N]. congruence.
  - apply nth_error_None in N. rewrite enumerate_length in N.
    assert (i < List.length l) by (apply nth_error_Some; congruence). lia.
Qed.

Lemma enumerate_in {A} (l : list A) (i : nat) (x : A) :
  In (i, x) (enumerate l) -> nth_error l i = Some x.
Proof.
  intros Hin. apply In_nth_error in Hin. destruct Hin as [n Hn].
  apply enumerate_nth in Hn. destruct Hn as [-> Hn]. exact Hn.
Qed.

(** On a list in which the test, once failed, keeps failing, filtering
    keeps a prefix. *)
Lemma filter_prefix {A} (p : A -> bool) (l : list A) :
  StronglySorted (fun a b => p a = false -> p b = false) l ->
  exists m, filter p l = firstn m l.
Proof.
  induction 1 as [|a l Hs IH Ha]; simpl.
  - now exists 0.
  - destruct (p a) eqn:E.
    + destruct IH as [m IH]. exists (S m). simpl. now rewrite IH.
    + exists 0. simpl.
      assert (F : Forall (fun b => p b = false) l).
      { eapply Forall_impl; [|exact Ha]. simpl. auto. }
      clear -F. induction F as [|b l Hb _ IH]; simpl; [reflexivity|].
      now rewrite Hb.
Qed.

(** ** The PDF path *)

Section PdfProperties.
Context {U : Unicode}.

Lemma process_pdf_inv W path out log book log' :
  process_pdf W path out log = (inr book, log') ->
  exists r,
    endswith (str_lower path) (py ".pdf") = true
    /\ pdf_at W path = Some r
    /\ book_spine book = fst (pdf_segments r)
    /\ book_toc book = snd (pdf_segments r)
    /\ meta_title (book_metadata book)
       = or_else (pdf_title r) (fst (splitext (basename path))).
Proof.
  unfold process_pdf, pdf_segments, page_texts_of.
  destruct (endswith (str_lower path) (py ".pdf")); cbn [negb];
    [|run_monad; discriminate].
  run_monad.
  destruct (pdf_at W path) as [r|];
    [|destruct (pdf_faulty W path) as [[r [ | | | ]]|]; cbn [fst snd];
      try destruct (exists_at W out); discriminate].
  cbn [fst snd].
  intros E. exists r. revert E.
  destruct (exists_at W out);
    destruct (get_pdf_outline_entries r);
    intros E; inversion E; subst; cbn [book_spine book_toc book_metadata meta_title];
    repeat split; reflexivity.
Qed.

Lemma process_pdf_runs W path out log r :
  endswith (str_lower path) (py ".pdf") = true ->
  pdf_at W path = Some r ->
  exists book log', process_pdf W path out log = (inr book, log').
Proof.
  intros Hext Hr. unfold process_pdf. rewrite Hext. cbn [negb].
  run_monad. rewrite Hr. cbn [fst snd].
  destruct (exists_at W out); destruct (get_pdf_outline_entries r); eauto.
Qed.

Lemma page_segments (page_texts : list pystr) :
  fold_left page_step (enumerate page_texts) ([], [])
  = (map page_chapter (enumerate page_texts),
     map (fun ip => toc_of_chapter (page_chapter ip)) (enumerate page_texts)).
Proof.
  rewrite (fold_left_append page_step (fun _ => true) page_chapter
             (fun ip => toc_of_chapter (page_chapter ip))).
  - simpl. f_equal; f_equal; clear; induction (enumerate page_texts) as [|x l IH];
      simpl; congruence.
  - intros [sp tc] [i t] _. reflexivity.
Qed.

Lemma outline_segments (page_texts : list pystr) (starts : list nat)
      (es : list OutlineEntry) :
  fold_left (outline_step page_texts starts) (enumerate es) ([], [])
  = (map (outline_chapter page_texts starts)
         (filter (outline_keep page_texts starts) (enumerate es)),
     map (fun ie => toc_of_chapter (outline_chapter page_texts starts ie))
         (filter (outline_keep page_texts starts) (enumerate es))).
Proof.
  rewrite (fold_left_append (outline_step page_texts starts)
             (outline_keep page_texts starts)
             (outline_chapter page_texts starts)
             (fun ie => toc_of_chapter (outline_chapter page_texts starts ie))).
  - reflexivity.
  - intros [sp tc] [i e] _. unfold outline_step, outline_keep. cbn [fst snd].
    destruct (List.length page_texts <=? nth i starts 0); reflexivity.
Qed.

(** Whatever the branch, the two lists come from one list of loop items:
    the chapters, and the navigation entry of each chapter. *)
Lemma pdf_segments_parallel (r : PdfReader) :
  snd (pdf_segments r) = map toc_of_chapter (fst (pdf_segments r)).
Proof.
  unfold pdf_segments.
  destruct (get_pdf_outline_entries r) as [|e es].
  - rewrite page_segments. cbn [fst snd]. now rewrite map_map.
  - rewrite outline_segments. cbn [fst snd]. now rewrite map_map.
Qed.

Lemma pdf_segments_content (r : PdfReader) :
  Forall (fun c => ch_content c <> []) (fst (pdf_segments r)).
Proof.
  unfold pdf_segments.
  destruct (get_pdf_outline_entries r) as [|e es];
    [rewrite page_segments | rewrite outline_segments];
    cbn [fst]; apply Forall_forall; intros c Hc;
    apply in_map_iff in Hc; destruct Hc as (x & <- & _);
    apply text_to_html_nonempty.
Qed.
End PdfProperties.

(** C10. [text_to_html] is a total function whose result is never empty: a
    text whose lines are all blank gives exactly one empty paragraph, any
    other text gives one paragraph per non-blank line, in order, holding the
    stripped line HTML-escaped; so the content of every chapter of a book
    made from a PDF is non-empty. *)
Theorem text_to_html_paragraphs :
  (forall text : pystr,
      text_to_html text <> []
      /\ (Forall blank (splitlines text) -> text_to_html text = py "<p></p>")
      /\ (~ Forall blank (splitlines text) ->
          text_to_html text
          = concat (map (fun line => py "<p>" ++ escape (strip line) ++ py "</p>")
                        (filter (fun line => negb (forallb isspace line))
                                (splitlines text)))))
  /\ (forall (U : Unicode) W path out log book log',
         process_pdf W path out log = (inr book, log') ->
         forall c, In c (book_spine book) -> ch_content c <> []).
Proof.
  split.
  - intros text. split; [apply text_to_html_nonempty|].
    rewrite text_to_html_eq. split.
    + intros Hb. apply filter_nonblank_nil in Hb. now rewrite Hb.
    + intros Hb.
      assert (E : filter (fun line => negb (forallb isspace line)) (splitlines text)
                  = filter nonblank (splitlines text)).
      { apply filter_ext. intros l.
        destruct (nonblank l) eqn:N.
        - destruct (forallb isspace l) eqn:F; [|reflexivity].
          rewrite forallb_forall in F.
          assert (B : blank l) by (apply Forall_forall; exact F).
          apply nonblank_spec in B. congruence.
        - apply nonblank_spec in N. unfold blank in N.
          rewrite Forall_forall in N. apply forallb_forall in N.
          now rewrite N. }
      rewrite E.
      destruct (filter nonblank (splitlines text)) eqn:F; [|reflexivity].
      apply filter_nonblank_nil in F. contradiction.
  - intros U W path out log book log' Hrun c Hc.
    apply process_pdf_inv in Hrun. destruct Hrun as (r & _ & _ & Hs & _).
    rewrite Hs in Hc.
    pose proof (pdf_segments_content r) as F.
    rewrite Forall_forall in F. now apply F.
Qed.

(** C9. In every book made from a PDF the navigation list runs parallel to
    the spine: equal lengths and, position by position, the same href (also
    as file_href) and title, an empty anchor and no children. *)
Theorem pdf_toc_parallel_to_spine (U : Unicode) W path out log book log' :
  process_pdf W path out log = (inr book, log') ->
  List.length (book_toc book) = List.length (book_spine book)
  /\ forall k t c,
      nth_error (book_toc book) k = Some t ->
      nth_error (book_spine book) k = Some c ->
      toc_href t = ch_href c /\ toc_file_href t = ch_href c
      /\ toc_title t = ch_title c /\ toc_anchor t = [] /\ toc_children t = [].
Proof.
  intros Hrun. apply process_pdf_inv in Hrun.
  destruct Hrun as (r & _ & _ & Hs & Ht & _).
  rewrite Ht, Hs, pdf_segments_parallel. split.
  - apply length_map.
  - intros k t c Hk Hc. rewrite nth_error_map, Hc in Hk.
    inversion Hk; subst. repeat split.
Qed.

Section NoOutline.
Context {U : Unicode}.

Lemma no_outline_entries (r : PdfReader) :
  pdf_outline r = None \/ pdf_outline r = Some [] ->
  get_pdf_outline_entries r = [].
Proof.
  intros [E | E]; unfold get_pdf_outline_entries, entries_by_level;
    rewrite E; reflexivity.
Qed.
End NoOutline.

(** C5. A PDF without an outline and with N pages gives a book with exactly
    N chapters; chapter i (from zero) has title "Page {i+1}", href
    "page-{i+1}" and order i. *)
Theorem pdf_without_outline_pages (U : Unicode) W path out log r :
  endswith (str_lower path) (py ".pdf") = true ->
  pdf_at W path = Some r ->
  pdf_outline r = None \/ pdf_outline r = Some [] ->
  exists book log',
    process_pdf W path out log = (inr book, log')
    /\ List.length (book_spine book) = List.length (pdf_pages r)
    /\ forall i, i < List.length (pdf_pages r) ->
         exists c, nth_error (book_spine book) i = Some c
           /\ ch_title c = py "Page " ++ str_of_nat (i + 1)
           /\ ch_href c = py "page-" ++ str_of_nat (i + 1)
           /\ ch_order c = i.
Proof.
  intros Hext Hr Hno.
  destruct (process_pdf_runs W path out log Hext Hr) as (book & log' & Hrun).
  exists book, log'. split; [exact Hrun|].
  apply process_pdf_inv in Hrun.
  destruct Hrun as (r' & _ & Hr' & Hs & _).
  assert (r' = r) by congruence. subst r'.
  unfold pdf_segments in Hs. rewrite (no_outline_entries r Hno) in Hs.
  rewrite page_segments in Hs. cbn [fst] in Hs. rewrite Hs.
  assert (L : List.length (page_texts_of r) = List.length (pdf_pages r))
    by apply length_map.
  split.
  - now rewrite length_map, enumerate_length.
  - intros i Hi.
    destruct (nth_error (page_texts_of r) i) as [t|] eqn:N.
    + exists (page_chapter (i, t)).
      rewrite nth_error_map, (enumerate_lookup _ _ N).
      repeat split.
    + apply nth_error_None in N. lia.
Qed.

(** ** The selected outline entries are in page order *)

Lemma insert_by_page_Forall (P : LevelEntry -> Prop) e l :
  P e -> Forall P l -> Forall P (insert_by_page e l).
Proof.
  intros He Hl. induction Hl as [|x l Hx Hl IH]; simpl.
  - auto.
  - destruct (le_page e <=? le_page x); auto.
Qed.

Lemma insert_by_page_sorted e l :
  StronglySorted by_page l -> StronglySorted by_page (insert_by_page e l).
Proof.
  induction 1 as [|x l Hs IH Hx]; simpl.
  - repeat constructor.
  - destruct (le_page e <=? le_page x) eqn:E.
    + apply Nat.leb_le in E. constructor.
      * now constructor.
      * constructor; [exact E|].
        eapply Forall_impl; [|exact Hx]. unfold by_page. intros; lia.
    + apply Nat.leb_gt in E. constructor; [exact IH|].
      apply insert_by_page_Forall; [unfold by_page; lia | exact Hx].
Qed.

Lemma sorted_by_page_sorted l : StronglySorted by_page (sorted_by_page l).
Proof.
  induction l as [|e l IH]; simpl; [constructor|].
  now apply insert_by_page_sorted.
Qed.

Lemma unique_by_page_Forall (P : LevelEntry -> Prop) l :
  Forall P l -> forall seen, Forall P (unique_by_page seen l).
Proof.
  induction 1 as [|x l Hx Hl IH]; intros seen; simpl; [constructor|].
  destruct (existsb (Nat.eqb (le_page x)) seen); auto.
Qed.

Lemma unique_by_page_sorted l :
  StronglySorted by_page l ->
  forall seen, StronglySorted by_page (unique_by_page seen l).
Proof.
  induction 1 as [|x l Hs IH Hx]; intros seen; simpl; [constructor|].
  destruct (existsb (Nat.eqb (le_page x)) seen); auto.
  constructor; auto. now apply unique_by_page_Forall.
Qed.

Lemma dedupe_by_page_sorted es : StronglySorted by_page (dedupe_by_page es).
Proof.
  unfold dedupe_by_page. apply unique_by_page_sorted, sorted_by_page_sorted.
Qed.

Lemma without_level_sorted l :
  StronglySorted by_page l -> in_page_order (map without_level l).
Proof.
  unfold in_page_order.
  induction 1 as [|x l Hs IH Hx]; simpl; constructor; auto.
  apply Forall_forall. intros y Hy. apply in_map_iff in Hy.
  destruct Hy as (z & <- & Hz). rewrite Forall_forall in Hx.
  apply (Hx z Hz).
Qed.

Lemma dict_get_normalized (d : levels) (k : nat) :
  dict_get Nat.eqb (map (fun le => (fst le, dedupe_by_page (snd le))) d) k
  = option_map dedupe_by_page (dict_get Nat.eqb d k).
Proof.
  induction d as [|[k' l] d IH]; simpl; [reflexivity|].
  destruct (Nat.eqb k k'); auto.
Qed.

Section OutlineOrder.
Context {U : Unicode}.

Lemma level_entries_sorted (r : PdfReader) (level : nat) :
  in_page_order (level_entries (normalized_by_level r) level).
Proof.
  unfold level_entries, normalized_by_level. rewrite dict_get_normalized.
  destruct (dict_get Nat.eqb (entries_by_level r) level); simpl.
  - apply without_level_sorted, dedupe_by_page_sorted.
  - constructor.
Qed.

Lemma part_dominance_sorted (r : PdfReader) (res : list OutlineEntry) :
  part_dominance (normalized_by_level r) = Some res -> in_page_order res.
Proof.
  unfold part_dominance.
  destruct (dict_get Nat.eqb (normalized_by_level r) 0) as [[|t top]|];
    try discriminate.
  destruct (Nat.max 2 (List.length (t :: top) / 2)
            <=? count_titles part_like_re (t :: top)); [|discriminate].
  pose proof (level_entries_sorted r 1) as S1. unfold level_entries in S1.
  destruct (dict_get Nat.eqb (normalized_by_level r) 1) as [[|e l]|];
    try discriminate.
  intros E. inversion E; subst. exact S1.
Qed.

Lemma outline_entries_sorted (r : PdfReader) :
  in_page_order (get_pdf_outline_entries r).
Proof.
  unfold get_pdf_outline_entries.
  destruct (entries_by_level r) eqn:E; [constructor|]. clear E.
  destruct (part_dominance (normalized_by_level r)) eqn:P.
  - exact (part_dominance_sorted r P).
  - destruct (fold_left best_step (normalized_by_level r) None)
      as [[lvl [c n]]|]; [destruct (3 <=? c)|]; apply level_entries_sorted.
Qed.
End OutlineOrder.

(** ** Positions in an enumerated list *)

Lemma StronglySorted_weaken {A} (R R' : A -> A -> Prop) (l : list A) :
  (forall a b, R a b -> R' a b) -> StronglySorted R l -> StronglySorted R' l.
Proof.
  intros HR. induction 1 as [|a l Hs IH Ha]; constructor; auto.
  eapply Forall_impl; [|exact Ha]. auto.
Qed.

Lemma StronglySorted_filter {A} (R : A -> A -> Prop) (p : A -> bool) (l : list A) :
  StronglySorted R l -> StronglySorted R (filter p l).
Proof.
  induction 1 as [|a l Hs IH Ha]; simpl; [constructor|].
  destruct (p a); auto. constructor; auto.
  apply Forall_forall. intros x Hx. apply filter_In in Hx.
  rewrite Forall_forall in Ha. now apply Ha.
Qed.

Lemma StronglySorted_nth {A} (R : A -> A -> Prop) (l : list A) :
  StronglySorted R l ->
  forall i j a b, i < j -> nth_error l i = Some a -> nth_error l j = Some b -> R a b.
Proof.
  induction 1 as [|x l Hs IH Hx]; intros i j a b Hij Hi Hj.
  - destruct i; discriminate.
  - destruct j as [|j]; [lia|]. simpl in Hj.
    destruct i as [|i]; simpl in Hi.
    + inversion Hi; subst. rewrite Forall_forall in Hx.
      apply Hx. eapply nth_error_In; eauto.
    + apply (IH i j); auto. lia.
Qed.

Lemma combine_seq_sorted {A} (l : list A) (k : nat) :
  StronglySorted (fun a b : nat * A => fst a < fst b)
                 (combine (seq k (List.length l)) l).
Proof.
  revert k. induction l as [|x l IH]; intros k; simpl; constructor; auto.
  apply Forall_forall. intros [j y] Hin. apply in_combine_l in Hin.
  apply in_seq in Hin. simpl. lia.
Qed.

Lemma combine_seq_pages (es : list OutlineEntry) (k : nat) :
  in_page_order es ->
  StronglySorted (fun a b : nat * OutlineEntry => oe_page (snd a) <= oe_page (snd b))
                 (combine (seq k (List.length es)) es).
Proof.
  intros Hs. revert k. induction Hs as [|x l Hs IH Hx]; intros k; simpl;
    constructor; auto.
  apply Forall_forall. intros [j y] Hin. apply in_combine_r in Hin.
  rewrite Forall_forall in Hx. simpl. now apply Hx.
Qed.

(** In a strictly increasing list of numbers that are at least [k], the
    element at position [i] is at least [k + i]. *)
Lemma increasing_lower_bound (l : list nat) :
  StronglySorted lt l ->
  forall k i j, Forall (fun x => k <= x) l -> nth_error l i = Some j -> k + i <= j.
Proof.
  induction 1 as [|a l Hs IH Ha]; intros k i j Hk Hi.
  - destruct i; discriminate.
  - destruct i as [|i]; simpl in Hi.
    + inversion Hi; subst. apply Forall_inv in Hk. lia.
    + assert (S k + i <= j); [|lia].
      apply IH; auto. apply Forall_inv in Hk.
      eapply Forall_impl; [|exact Ha]. simpl. intros; lia.
Qed.

Lemma filter_enumerate_position {A} (keep : nat * A -> bool) (l : list A) i j x :
  nth_error (filter keep (enumerate l)) i = Some (j, x) ->
  i <= j /\ nth_error l j = Some x /\ keep (j, x) = true.
Proof.
  intros E.
  assert (Hin : In (j, x) (filter keep (enumerate l))) by (eapply nth_error_In; eauto).
  apply filter_In in Hin. destruct Hin as [Hin Hk].
  split; [|split; [now apply enumerate_in | exact Hk]].
  assert (S1 : StronglySorted lt (map fst (filter keep (enumerate l)))).
  { assert (S0 : StronglySorted (fun a b : nat * A => fst a < fst b)
                                (filter keep (enumerate l)))
      by apply StronglySorted_filter, combine_seq_sorted.
    clear -S0. induction S0 as [|a l0 Hs IH Ha]; simpl; constructor; auto.
    apply Forall_forall. intros y Hy. apply in_map_iff in Hy.
    destruct Hy as (z & <- & Hz). rewrite Forall_forall in Ha. now apply Ha. }
  apply (@increasing_lower_bound _ S1 0 i j).
  - apply Forall_forall. intros; lia.
  - now rewrite nth_error_map, E.
Qed.

Lemma filter_all {A} (p : A -> bool) (l : list A) :
  Forall (fun x => p x = true) l -> filter p l = l.
Proof.
  induction 1 as [|x l Hx _ IH]; simpl; [reflexivity|].
  now rewrite Hx, IH.
Qed.

Section PdfOrder.
Context {U : Unicode}.

Lemma outline_keep_page (page_texts : list pystr) (es : list OutlineEntry) :
  let starts := map oe_page es ++ [List.length page_texts] in
  filter (outline_keep page_texts starts) (enumerate es)
  = filter (fun ie => oe_page (snd ie) <? List.length page_texts) (enumerate es).
Proof.
  intros starts. apply filter_ext_in. intros [i e] Hin.
  apply enumerate_in in Hin. unfold outline_keep. cbn [fst snd].
  assert (N : nth i starts 0 = oe_page e).
  { apply nth_error_nth. unfold starts.
    rewrite nth_error_app1.
    - now rewrite nth_error_map, Hin.
    - rewrite length_map. apply nth_error_Some. congruence. }
  rewrite N.
  destruct (Nat.ltb_spec (oe_page e) (List.length page_texts));
    destruct (Nat.leb_spec (List.length page_texts) (oe_page e)); simpl; auto; lia.
Qed.

(** Entries in page order lose only a tail to the start-past-the-end test,
    so the chapters that remain are numbered by their position. *)
Lemma outline_orders (page_texts : list pystr) (es : list OutlineEntry) :
  in_page_order es ->
  let starts := map oe_page es ++ [List.length page_texts] in
  forall i c,
    nth_error (map (outline_chapter page_texts starts)
                   (filter (outline_keep page_texts starts) (enumerate es))) i = Some c ->
    ch_order c = i.
Proof.
  intros Hs starts i c. unfold starts. rewrite outline_keep_page.
  set (p := fun ie : nat * OutlineEntry => oe_page (snd ie) <? List.length page_texts).
  destruct (@filter_prefix _ p (enumerate es)) as [m Hm].
  { eapply StronglySorted_weaken; [|apply (combine_seq_pages 0 Hs)].
    intros a b Hab. unfold p. cbv beta in *. rewrite !Nat.ltb_ge. lia. }
  rewrite Hm, nth_error_map.
  destruct (nth_error (firstn m (enumerate es)) i) as [[j e]|] eqn:N;
    [|discriminate].
  rewrite nth_error_firstn in N.
  destruct (i <? m); [|discriminate].
  apply enumerate_nth in N. destruct N as [-> _].
  intros E. inversion E. reflexivity.
Qed.

Lemma pdf_segments_orders (r : PdfReader) i c :
  nth_error (fst (pdf_segments r)) i = Some c -> ch_order c = i.
Proof.
  unfold pdf_segments.
  destruct (get_pdf_outline_entries r) as [|e es] eqn:E.
  - rewrite page_segments. cbn [fst]. rewrite nth_error_map.
    destruct (nth_error (enumerate (page_texts_of r)) i) as [[j t]|] eqn:N;
      [|discriminate].
    apply enumerate_nth in N. destruct N as [-> _].
    intros Hc. inversion Hc. reflexivity.
  - rewrite outline_segments. cbn [fst]. apply outline_orders.
    rewrite <- E. apply outline_entries_sorted.
Qed.
End PdfOrder.

(** ** The EPUB path *)

Lemma fold_left_keep {A B} (step : list B -> A -> list B)
      (keep : A -> bool) (f : A -> B) (l : list A) :
  (forall st x, In x l -> step st x = if keep x then st ++ [f x] else st) ->
  forall st, fold_left step l st = st ++ map f (filter keep l).
Proof.
  induction l as [|x l IH]; intros Hstep st; simpl.
  - now rewrite app_nil_r.
  - rewrite IH by (intros; apply Hstep; now right).
    rewrite (Hstep st x) by now left.
    destruct (keep x); simpl; [|reflexivity].
    now rewrite <- app_assoc.
Qed.

Lemma for_each_invariant {A S} (P : S -> list event -> Prop)
      (xs : list A) (body : S -> A -> M S) :
  (forall st x log st' log',
      In x xs -> P st log -> body st x log = (inr st', log') -> P st' log') ->
  forall st log st' log',
    P st log -> for_each xs body st log = (inr st', log') -> P st' log'.
Proof.
  induction xs as [|x xs IH]; intros Hbody st log st' log' HP; simpl.
  - unfold ret. intros E. inversion E; subst. exact HP.
  - unfold bind. destruct (body st x log) as [[e|st1] log1] eqn:B; [discriminate|].
    apply IH.
    + intros. eapply Hbody; eauto. now right.
    + eapply Hbody; eauto. now left.
Qed.

Section EpubProperties.
Context {U : Unicode} {H : Html}.

Lemma spine_chapters_eq (book : EpubBook) (image_map : list (pystr * pystr)) :
  fold_left (spine_step book image_map) (enumerate (epub_spine book)) []
  = map (spine_chapter book image_map)
        (filter (spine_keep book) (enumerate (epub_spine book))).
Proof.
  rewrite (fold_left_keep (spine_step book image_map) (spine_keep book)
             (spine_chapter book image_map)); [reflexivity|].
  intros st [i [uid linear]] _.
  unfold spine_step, spine_keep, spine_chapter, is_document. cbn [fst snd].
  destruct (get_item_with_id book uid) as [item|]; [|reflexivity].
  destruct (item_type item); reflexivity.
Qed.

Lemma process_epub_inv W path out log book log' :
  process_epub W path out log = (inr book, log') ->
  exists b,
    endswith (str_lower path) (py ".epub") = true
    /\ epub_at W path = Some b
    /\ book_metadata book = extract_metadata_robust b
    /\ book_spine book
       = map (spine_chapter b (book_images book))
             (filter (spine_keep b) (enumerate (epub_spine b)))
    /\ exists log1 log2,
        for_each (epub_items b) (image_step W (path_join out (py "images"))) [] log1
        = (inr (book_images book), log2)
        /\ (forall ev, In ev log1 -> In ev log \/ not_a_write ev)
        /\ (forall ev, In ev log' -> In ev log2 \/ not_a_write ev).
Proof.
  unfold process_epub.
  destruct (endswith (str_lower path) (py ".epub")); cbn [negb];
    [|run_monad; discriminate].
  run_monad.
  destruct (epub_at W path) as [b|];
    [|destruct (epub_faulty W path) as [[b [ | | ]]|]; cbn [fst snd];
      try destruct (exists_at W out); discriminate].
  cbn [fst snd].
  intros E. exists b. revert E.
  set (ld := if exists_at W out then _ else _).
  destruct ld as [[e|[]] l0] eqn:Eld; [discriminate|].
  assert (Hl0 : forall ev, In ev l0 -> In ev log \/ not_a_write ev).
  { subst ld. intros ev Hev.
    destruct (exists_at W out); inversion Eld; subst;
      repeat (apply in_app_or in Hev; destruct Hev as [Hev|Hev]);
      auto; destruct Hev as [<-|[]]; right; exact I. }
  match goal with
  | |- context [for_each ?xs ?body ?st ?l] =>
      destruct (for_each xs body st l) as [[e|image_map] l2] eqn:F
  end; [discriminate|].
  destruct (epub_toc b) as [toc_list|]; [|discriminate].
  destruct (parse_toc_recursive toc_list 0);
    intros E; inversion E; subst;
    cbn [book_metadata book_spine book_images];
    (repeat split; [apply spine_chapters_eq|]);
    eexists; eexists; (split; [exact F|]); split.
  all: intros ev Hev;
    repeat (apply in_app_or in Hev; destruct Hev as [Hev|Hev]); auto;
    try (destruct Hev as [<-|[]]; right; exact I).
  all: try (apply Hl0 in Hev; exact Hev).
Qed.
End EpubProperties.

(** ** Asset file names *)

Lemma lstrip_incl (s : pystr) (c : N) : In c (lstrip s) -> In c s.
Proof.
  induction s as [|d s IH]; simpl; auto.
  destruct (isspace d); auto.
Qed.

Lemma strip_incl (s : pystr) (c : N) : In c (strip s) -> In c s.
Proof.
  unfold strip, rstrip. intros Hc.
  apply in_rev, lstrip_incl in Hc. apply in_rev in Hc.
  now apply lstrip_incl.
Qed.

Lemma split_on_no_sep (c : N) (s : pystr) : ~ In c s -> split_on c s = [s].
Proof.
  induction s as [|d s IH]; simpl; intros Hn; [reflexivity|].
  destruct (N.eqb_spec d c) as [->|Hd]; [exfalso; auto|].
  rewrite IH by auto. reflexivity.
Qed.

Lemma split_on_sep_tail (c : N) (a s : pystr) :
  exists f fs, split_on c (a ++ c :: s) = (f :: fs) ++ split_on c s.
Proof.
  induction a as [|d a IH]; simpl.
  - rewrite N.eqb_refl. now exists [], [].
  - destruct IH as (f & fs & IH). rewrite IH.
    destruct (N.eqb d c).
    + now exists [], (f :: fs).
    + now exists (d :: f), fs.
Qed.

Lemma basename_after_slash (dir name : pystr) :
  ~ In 47%N name -> basename (dir ++ 47%N :: name) = name.
Proof.
  intros Hn. unfold basename.
  destruct (split_on_sep_tail 47 dir name) as (f & fs & E).
  rewrite E, split_on_no_sep by exact Hn. apply last_last.
Qed.

Section Assets.
Context {U : Unicode} {H : Html}.

Lemma safe_char_spec (c : N) : safe_char c = true <-> filename_char c.
Proof.
  unfold safe_char, filename_char, mem. simpl.
  rewrite !orb_true_iff, !N.eqb_eq. intuition discriminate.
Qed.

Lemma sanitize_chars (name : pystr) : Forall filename_char (sanitize name).
Proof.
  apply Forall_forall. intros c Hc. unfold sanitize in Hc.
  apply strip_incl, filter_In in Hc. now apply safe_char_spec.
Qed.

Lemma sanitize_no_slash (name : pystr) : ~ In 47%N (sanitize name).
Proof.
  intros Hc. unfold sanitize in Hc. apply strip_incl, filter_In in Hc.
  destruct Hc as [_ Hc]. discriminate.
Qed.

Lemma images_dir_join (out safe : pystr) :
  ~ In 47%N safe ->
  path_join (path_join out (py "images")) safe
  = path_join out (py "images") ++ 47%N :: safe.
Proof.
  intros Hs. unfold path_join at 1.
  assert (S0 : startswith safe [47%N] = false).
  { destruct safe as [|c safe]; [reflexivity|]. cbn [startswith].
    destruct (N.eqb_spec 47 c) as [<-|]; [|reflexivity].
    exfalso. apply Hs. now left. }
  rewrite S0.
  assert (E : exists x, path_join out (py "images") = x ++ py "images").
  { unfold path_join. simpl startswith. cbv iota.
    destruct (negb (truthy out) || endswith out [47%N]).
    - now exists out.
    - exists (out ++ [47%N]). now rewrite <- app_assoc. }
  destruct E as [x ->].
  assert (T : truthy (x ++ py "images") = true) by (destruct x; reflexivity).
  assert (E : endswith (x ++ py "images") [47%N] = false).
  { unfold endswith. rewrite rev_app_distr. reflexivity. }
  rewrite T, E. reflexivity.
Qed.

Lemma dict_set_in (d : list (pystr * pystr)) k0 v0 k v :
  In (k, v) (dict_set str_eqb d k0 v0) -> In (k, v) d \/ v = v0.
Proof.
  induction d as [|[k' v'] d IH]; simpl.
  - intros [E|[]]. inversion E. auto.
  - destruct (str_eqb k0 k'); simpl.
    + intros [E|Hin]; [inversion E; auto | auto].
    + intros [E|Hin]; [auto|]. apply IH in Hin. tauto.
Qed.

Lemma image_step_assets W out log0 st item log st' log' :
  ((forall k v, In (k, v) st -> asset_value v)
   /\ (forall p d, In (WriteFile p d) log ->
         In (WriteFile p d) log0 \/ asset_path (path_join out (py "images")) p)) ->
  image_step W (path_join out (py "images")) st item log = (inr st', log') ->
  (forall k v, In (k, v) st' -> asset_value v)
  /\ (forall p d, In (WriteFile p d) log' ->
        In (WriteFile p d) log0 \/ asset_path (path_join out (py "images")) p).
Proof.
  intros [Hm Hl]. unfold image_step.
  destruct (item_type item);
    [unfold ret; intros E; inversion E; subst; auto | |
     unfold ret; intros E; inversion E; subst; auto].
  set (safe := sanitize (basename (item_name item))).
  rewrite images_dir_join by apply sanitize_no_slash. fold safe.
  run_monad.
  destruct (writable W _); [|discriminate].
  intros E. inversion E; subst. clear E. split.
  - intros k v Hin.
    apply dict_set_in in Hin. destruct Hin as [Hin| ->];
      [apply dict_set_in in Hin; destruct Hin as [Hin| ->]; [eauto|]|];
      exists safe; (split; [reflexivity|]);
      (split; [apply (basename_after_slash (py "images")), sanitize_no_slash
              | apply sanitize_chars]).
  - intros p d Hin. apply in_app_or in Hin. destruct Hin as [Hin|[E|[]]]; [eauto|].
    inversion E; subst. right. exists safe. split; [reflexivity|].
    split; [apply basename_after_slash, sanitize_no_slash | apply sanitize_chars].
Qed.
End Assets.

(** C7. The sanitized file name of an embedded image holds only letters,
    digits and the characters '.', '_', '-', all taken from the source
    basename; this holds for the name of every file that the asset extractor
    writes and for the file-name component of every value of the asset map. *)
Theorem asset_filenames_sanitized (U : Unicode) (H : Html) :
  (forall name : pystr,
      Forall filename_char (sanitize name)
      /\ forall c, In c (sanitize name) -> In c name)
  /\ forall W path out log book log',
      process_epub W path out log = (inr book, log') ->
      (forall k v, In (k, v) (book_images book) ->
         exists safe, v = py "images/" ++ safe /\ basename v = safe
                      /\ Forall filename_char safe)
      /\ (forall p d, In (WriteFile p d) log' ->
            In (WriteFile p d) log
            \/ exists safe, p = path_join out (py "images") ++ 47%N :: safe
                            /\ basename p = safe /\ Forall filename_char safe).
Proof.
  split.
  - intros name. split; [apply sanitize_chars|].
    intros c Hc. unfold sanitize in Hc. apply strip_incl, filter_In in Hc. tauto.
  - intros W path out log book log' Hrun.
    apply process_epub_inv in Hrun.
    destruct Hrun as (b & _ & _ & _ & _ & log1 & log2 & F & H1 & H2).
    pose proof (for_each_invariant
      (fun st lg =>
         (forall k v, In (k, v) st -> asset_value v)
         /\ (forall p d, In (WriteFile p d) lg ->
               In (WriteFile p d) log1 \/ asset_path (path_join out (py "images")) p))
      (epub_items b) (image_step W (path_join out (py "images")))) as Inv.
    cbv beta in Inv.
    assert (G : (forall k v, In (k, v) (book_images book) -> asset_value v)
                /\ (forall p d, In (WriteFile p d) log2 ->
                      In (WriteFile p d) log1
                      \/ asset_path (path_join out (py "images")) p)).
    { eapply Inv; [| |exact F].
      - intros st x lg st' lg' _ HP Hstep. eapply image_step_assets; eauto.
      - split; [intros k v []|]. auto. }
    destruct G as [Gm Gl]. split; [exact Gm|].
    intros p d Hin.
    destruct (H2 _ Hin) as [Hin2|[]].
    destruct (Gl _ _ Hin2) as [Hin1|Hp]; [|right; exact Hp].
    destruct (H1 _ Hin1) as [Hin0|[]]. now left.
Qed.

(** ** Dispatch on the extension *)

Section Dispatch.
Context {U : Unicode} {H : Html}.

Lemma process_book_epub W path out :
  str_lower (snd (splitext path)) = py ".epub" ->
  process_book W path out = process_epub W path out.
Proof. intros E. unfold process_book. now rewrite E. Qed.

Lemma process_book_pdf W path out :
  str_lower (snd (splitext path)) = py ".pdf" ->
  process_book W path out = process_pdf W path out.
Proof. intros E. unfold process_book. now rewrite E. Qed.
End Dispatch.

(** C8. When the lower-cased extension of the input path is neither ".epub"
    nor ".pdf", [process_book] raises the unsupported-format error and the
    log of effects is what it was: nothing was printed, read, deleted,
    created or written. *)
Theorem unsupported_extension_fails_first (U : Unicode) (H : Html) W path out log :
  str_lower (snd (splitext path)) <> py ".epub" ->
  str_lower (snd (splitext path)) <> py ".pdf" ->
  process_book W path out log
  = (inl (ValueError (py "Unsupported file type: '" ++ path
                      ++ py "'. Supported extensions: .epub, .pdf.")), log).
Proof.
  intros He Hp. unfold process_book.
  apply str_eqb_neq in He. apply str_eqb_neq in Hp.
  rewrite He, Hp. reflexivity.
Qed.

(** C2, as amended. Without a title in the source's metadata, an EPUB gets
    the title "Untitled", and a PDF gets the name of the input file without
    its extension; the PDF run does not fail for it. *)
Theorem missing_title_defaults (U : Unicode) (H : Html) W path out log :
  (forall b book log',
      epub_at W path = Some b ->
      absent (get_one b (py "title")) ->
      meta_title (extract_metadata_robust b) = py "Untitled"
      /\ (process_epub W path out log = (inr book, log') ->
          meta_title (book_metadata book) = py "Untitled"))
  /\ (forall r,
         endswith (str_lower path) (py ".pdf") = true ->
         pdf_at W path = Some r ->
         absent (pdf_title r) ->
         exists book log',
           process_pdf W path out log = (inr book, log')
           /\ meta_title (book_metadata book) = fst (splitext (basename path))).
Proof.
  split.
  - intros b book log' Hb Habs.
    assert (T : meta_title (extract_metadata_robust b) = py "Untitled").
    { unfold extract_metadata_robust. cbn [meta_title].
      destruct Habs as [-> | ->]; reflexivity. }
    split; [exact T|]. intros Hrun.
    apply process_epub_inv in Hrun.
    destruct Hrun as (b' & _ & Hb' & Hm & _).
    assert (b' = b) by congruence. subst b'. now rewrite Hm.
  - intros r Hext Hr Habs.
    destruct (process_pdf_runs W path out log Hext Hr) as (book & log' & Hrun).
    exists book, log'. split; [exact Hrun|].
    apply process_pdf_inv in Hrun.
    destruct Hrun as (r' & _ & Hr' & _ & _ & Ht).
    assert (r' = r) by congruence. subst r'. rewrite Ht.
    destruct Habs as [-> | ->]; reflexivity.
Qed.

(** C1, as amended. In a book made from a PDF every chapter's order is its
    index in the spine.  In a book made from an EPUB a chapter's order is the
    position, in the source's spine list, of the entry it was made from (an
    entry that names a document item): orders are strictly increasing and
    never below the index, and they equal the index when every source entry
    names a document. *)
Theorem spine_order_is_source_position (U : Unicode) (H : Html)
        W path out log book log' :
  process_book W path out log = (inr book, log') ->
  (str_lower (snd (splitext path)) = py ".pdf" ->
   forall i c, nth_error (book_spine book) i = Some c -> ch_order c = i)
  /\ (str_lower (snd (splitext path)) = py ".epub" ->
      exists b,
        epub_at W path = Some b
        /\ (forall i c,
               nth_error (book_spine book) i = Some c ->
               i <= ch_order c
               /\ is_document b (ch_id c) = true
               /\ exists linear,
                   nth_error (epub_spine b) (ch_order c) = Some (ch_id c, linear))
        /\ (forall i j c d,
               i < j ->
               nth_error (book_spine book) i = Some c ->
               nth_error (book_spine book) j = Some d ->
               ch_order c < ch_order d)
        /\ (Forall (fun entry => is_document b (fst entry) = true) (epub_spine b) ->
            forall i c, nth_error (book_spine book) i = Some c -> ch_order c = i)).
Proof.
  intros Hrun. split; intros Hext.
  - rewrite (process_book_pdf _ _ _ Hext) in Hrun.
    apply process_pdf_inv in Hrun. destruct Hrun as (r & _ & _ & Hs & _).
    rewrite Hs. intros i c. apply pdf_segments_orders.
  - rewrite (process_book_epub _ _ _ Hext) in Hrun.
    apply process_epub_inv in Hrun.
    destruct Hrun as (b & _ & Hb & _ & Hs & _).
    exists b. split; [exact Hb|]. rewrite Hs.
    set (im := book_images book).
    assert (Hnth : forall i c,
               nth_error (map (spine_chapter b im)
                              (filter (spine_keep b) (enumerate (epub_spine b)))) i = Some c ->
               exists j uid linear,
                 nth_error (filter (spine_keep b) (enumerate (epub_spine b))) i
                 = Some (j, (uid, linear))
                 /\ ch_order c = j /\ ch_id c = uid).
    { intros i c Hc. rewrite nth_error_map in Hc.
      destruct (nth_error (filter (spine_keep b) (enumerate (epub_spine b))) i)
        as [[j [uid linear]]|]; [|discriminate].
      inversion Hc. exists j, uid, linear. repeat split. }
    split; [|split].
    + intros i c Hc. destruct (Hnth i c Hc) as (j & uid & linear & N & -> & ->).
      apply filter_enumerate_position in N. destruct N as (Hij & Hj & Hk).
      split; [exact Hij|]. split; [exact Hk|]. now exists linear.
    + intros i j c d Hij Hc Hd.
      destruct (Hnth i c Hc) as (jc & uc & lc & Nc & -> & _).
      destruct (Hnth j d Hd) as (jd & ud & ld & Nd & -> & _).
      assert (S0 : StronglySorted (fun a b0 : nat * (pystr * pystr) => fst a < fst b0)
                     (filter (spine_keep b) (enumerate (epub_spine b))))
        by apply StronglySorted_filter, combine_seq_sorted.
      apply (StronglySorted_nth S0 Hij Nc Nd).
    + intros Hall i c Hc.
      destruct (Hnth i c Hc) as (j & uid & linear & N & -> & _).
      rewrite filter_all in N.
      * apply enumerate_nth in N. tauto.
      * apply Forall_forall. intros [k entry] Hin. unfold spine_keep. cbn [fst snd].
        rewrite Forall_forall in Hall. apply Hall.
        apply enumerate_in in Hin. eapply nth_error_In; eauto.
Qed.

(** ** Splitting an href *)

Lemma split_on_head (c : N) (s : pystr) :
  (~ In c s /\ split_on c s = [s])
  \/ exists f r, s = f ++ c :: r /\ ~ In c f /\ split_on c s = f :: split_on c r.
Proof.
  induction s as [|d s IH]; simpl.
  - left. auto.
  - destruct (N.eqb_spec d c) as [->|Hd].
    + right. exists [], s. auto.
    + destruct IH as [[Hn ->] | (f & r & -> & Hf & ->)].
      * left. split; [intros [E|E]; auto | reflexivity].
      * right. exists (d :: f), r. repeat split.
        intros [E|E]; auto.
Qed.

Lemma mem_In (c : N) (s : pystr) : mem c s = true <-> In c s.
Proof.
  unfold mem. rewrite existsb_exists. split.
  - intros (x & Hx & E). apply N.eqb_eq in E. now subst.
  - intros Hc. exists c. split; [exact Hc | apply N.eqb_refl].
Qed.

(** The file part is always what precedes the first '#'; the anchor is the
    whole remainder when that remainder holds no further '#'. *)
Lemma href_split_single_hash (h : pystr) :
  (~ In 35%N h -> href_file h = h /\ href_anchor h = [])
  /\ (forall f r, h = f ++ 35%N :: r -> ~ In 35%N f ->
        href_file h = f /\ (~ In 35%N r -> href_anchor h = r)).
Proof.
  unfold href_file, href_anchor. split.
  - intros Hn. rewrite split_on_no_sep by exact Hn.
    destruct (mem 35 h) eqn:M; [apply mem_In in M; contradiction|]. auto.
  - intros f r -> Hf.
    destruct (split_on_head 35 (f ++ 35%N :: r)) as [[Hn _] | (f' & r' & E & Hf' & ->)].
    + exfalso. apply Hn, in_or_app. right. now left.
    + assert (f' = f /\ r' = r) as [-> ->].
      { clear -E Hf Hf'. revert f' E Hf'.
        induction f as [|a f IH]; intros [|a' f'] E Hf'; simpl in E.
        - inversion E. auto.
        - inversion E; subst. exfalso. apply Hf'. now left.
        - inversion E; subst. exfalso. apply Hf. now left.
        - inversion E; subst.
          destruct (IH (fun X => Hf (or_intror X)) f' H1 (fun X => Hf' (or_intror X)))
            as [-> ->]. auto. }
      split; [reflexivity|]. intros Hr.
      assert (M : mem 35 (f ++ 35%N :: r) = true).
      { apply mem_In, in_or_app. right. now left. }
      rewrite M, split_on_no_sep by exact Hr. reflexivity.
Qed.

(** C3. An href splits into the file part before the first '#' and, as
    anchor, the whole remainder.  The code keeps only the text between the
    first and the second '#': for the href "ch1.xhtml#sec#2" the entry gets
    file_href "ch1.xhtml" and anchor "sec", which do not make up the href. *)
Theorem toc_anchor_stops_at_second_hash :
  parse_toc_recursive
    [TocLink {| link_title := py "Notes"; link_href := py "ch1.xhtml#sec#2" |}] 0
  = [MkTOCEntry (py "Notes") (py "ch1.xhtml#sec#2") (py "ch1.xhtml") (py "sec") []]
  /\ ~ splits_href (py "ch1.xhtml#sec#2") (py "ch1.xhtml") (py "sec")
  /\ href_anchor (py "ch1.xhtml#sec#2") <> py "sec#2".
Proof.
  split; [reflexivity|]. split.
  - intros [[E _] | E]; discriminate.
  - discriminate.
Qed.

(** ** Hyphenation *)

Lemma letter_not_hyphen (c : N) : ascii_letter c = true -> hyphen_like c = false.
Proof.
  unfold ascii_letter, ascii_upper, ascii_lower, in_range, hyphen_like, mem.
  cbn [existsb]. rewrite !orb_false_r.
  intros L.
  destruct (N.eqb_spec c 45); [subst; discriminate|].
  destruct (N.eqb_spec c 8208); [subst; discriminate|].
  destruct (N.eqb_spec c 8209); [subst; discriminate|].
  destruct (N.eqb_spec c 173); [subst; discriminate|].
  reflexivity.
Qed.

Lemma letter_not_space (c : N) : ascii_letter c = true -> isspace c = false.
Proof.
  unfold ascii_letter, ascii_upper, ascii_lower, isspace, in_range.
  rewrite !orb_true_iff, !andb_true_iff, !N.leb_le. intros L.
  repeat (apply orb_false_intro);
    try (apply andb_false_iff; rewrite !N.leb_gt; lia);
    apply N.eqb_neq; lia.
Qed.

Lemma span_ws_run (w rest : pystr) (c : N) :
  Forall (fun x => isspace x = true) w -> isspace c = false ->
  span_ws (w ++ c :: rest) = (w, c :: rest).
Proof.
  intros Hw Hc. induction Hw as [|x w Hx Hw IH]; simpl.
  - now rewrite Hc.
  - now rewrite Hx, IH.
Qed.

Lemma merge_hyphen_skip (n : nat) (s : pystr) :
  merge_hyphen_aux n s = merge_hyphen_aux 0 (skipn n s).
Proof.
  revert n. induction s as [|c s IH]; intros [|n]; try reflexivity.
  simpl skipn. rewrite <- IH. reflexivity.
Qed.

Lemma merge_hyphen_prefix (pre : pystr) (x : N) (s : pystr) :
  Forall (fun c => hyphen_like c = false) pre -> hyphen_like x = false ->
  merge_hyphen_aux 0 (pre ++ x :: s) = pre ++ merge_hyphen_aux 0 (x :: s).
Proof.
  intros Hp Hx. induction Hp as [|c pre Hc Hp IH]; [reflexivity|].
  cbn [app]. change (merge_hyphen_aux 0 (c :: pre ++ x :: s))
    with (match hyphen_break_at (c :: pre ++ x :: s) with
          | Some (l1, l2, n) => l1 :: l2 :: merge_hyphen_aux (n - 1) (pre ++ x :: s)
          | None => c :: merge_hyphen_aux 0 (pre ++ x :: s)
          end).
  assert (E : hyphen_break_at (c :: pre ++ x :: s) = None).
  { unfold hyphen_break_at. destruct pre as [|d pre]; cbn [app].
    - now rewrite Hx, andb_false_r.
    - apply Forall_inv in Hp. now rewrite Hp, andb_false_r. }
  now rewrite E, IH.
Qed.

(** The first break of a text is merged: after a prefix without hyphen-like
    characters, a letter, a hyphen-like character, a white-space run that
    holds a line feed, and a letter become the two letters side by side. *)
Lemma merge_hyphen_first_break (pre w post : pystr) (l1 h l2 : N) :
  Forall (fun c => hyphen_like c = false) pre ->
  ascii_letter l1 = true -> hyphen_like h = true ->
  Forall (fun x => isspace x = true) w -> In LF w ->
  ascii_letter l2 = true ->
  merge_hyphen (pre ++ l1 :: h :: w ++ l2 :: post)
  = pre ++ l1 :: l2 :: merge_hyphen post.
Proof.
  intros Hp H1 Hh Hw Hlf H2. unfold merge_hyphen.
  rewrite merge_hyphen_prefix by (auto using letter_not_hyphen).
  f_equal.
  change (merge_hyphen_aux 0 (l1 :: h :: w ++ l2 :: post))
    with (match hyphen_break_at (l1 :: h :: w ++ l2 :: post) with
          | Some (a, b, n) => a :: b :: merge_hyphen_aux (n - 1) (h :: w ++ l2 :: post)
          | None => l1 :: merge_hyphen_aux 0 (h :: w ++ l2 :: post)
          end).
  assert (E : hyphen_break_at (l1 :: h :: w ++ l2 :: post)
              = Some (l1, l2, 3 + List.length w)).
  { unfold hyphen_break_at. rewrite H1, Hh. cbn [andb].
    rewrite span_ws_run by (auto using letter_not_space).
    apply mem_In in Hlf. now rewrite Hlf, H2. }
  rewrite E. do 2 f_equal.
  rewrite merge_hyphen_skip.
  replace (3 + List.length w - 1) with (S (List.length w + 1)) by lia.
  cbn [skipn]. rewrite skipn_app.
  rewrite skipn_all2 by lia.
  replace (List.length w + 1 - List.length w) with 1 by lia.
  reflexivity.
Qed.

(** C6. A word broken by a hyphen at a line end is joined again, as in
    "The cold cli-\nmate was harsh."; but the letter that closes one match
    cannot open the next, so of two successive breaks around a single letter
    only the first is merged: "anti-\nX-\nray" becomes "antiX- ray", not
    "antiXray". *)
Theorem hyphen_merge_skips_adjacent_break (U : Unicode) :
  normalize_pdf_text (py "The cold cli-" ++ [LF] ++ py "mate was harsh.")
  = py "The cold climate was harsh."
  /\ normalize_pdf_text (py "anti-" ++ [LF] ++ py "X-" ++ [LF] ++ py "ray")
     = py "antiX- ray"
  /\ normalize_pdf_text (py "anti-" ++ [LF] ++ py "X-" ++ [LF] ++ py "ray")
     <> py "antiXray"
  /\ normalize_pdf_text (py "X-" ++ [LF] ++ py "ray") = py "Xray".
Proof. repeat split; try reflexivity. discriminate. Qed.

(** ** Part dominance *)

(** The branch of the part-dominance rule, on the selector's own
    dictionary. *)
Lemma part_rule_on (U : Unicode) (reader : PdfReader)
        (top level1 : list LevelEntry) :
  dict_get Nat.eqb (normalized_by_level reader) 0 = Some top ->
  dict_get Nat.eqb (normalized_by_level reader) 1 = Some level1 ->
  level1 <> [] ->
  Nat.max 2 (List.length top / 2) <= count_titles part_like_re top ->
  get_pdf_outline_entries reader = map without_level level1.
Proof.
  intros H0 H1 Hne Hc.
  unfold get_pdf_outline_entries.
  destruct (entries_by_level reader) eqn:E.
  { unfold normalized_by_level in H0. rewrite E in H0. discriminate. }
  unfold part_dominance. rewrite H0.
  destruct top as [|t top].
  { unfold count_titles in Hc. simpl in Hc. lia. }
  apply Nat.leb_le in Hc. rewrite Hc, H1.
  destruct level1; [contradiction | reflexivity].
Qed.

(** ** Runs on the sample inputs *)


(** C1 as stated fails on the sample EPUB: its first spine entry names no
    item, so the first chapter of the book has order 1, not 0. *)
Lemma spine_order_counterexample :
  exists book log' c,
    process_book (U:=ascii_repertoire) (H:=raw_html)
                 sample_world (py "book.epub") (py "book_data") []
    = (inr book, log')
    /\ nth_error (book_spine book) 0 = Some c
    /\ ch_order c = 1 /\ ch_order c <> 0.
Proof.
  eexists. eexists. eexists. split; [evaluate_run|].
  split; [reflexivity|]. split; [reflexivity | discriminate].
Qed.

(** The amended C1 on the sample EPUB: the orders are 1 and 3. *)
Lemma spine_order_witness :
  exists book log',
    process_book (U:=ascii_repertoire) (H:=raw_html)
                 sample_world (py "book.epub") (py "book_data") []
    = (inr book, log')
    /\ map ch_order (book_spine book) = [1; 3]
    /\ forall i j c d,
        i < j ->
        nth_error (book_spine book) i = Some c ->
        nth_error (book_spine book) j = Some d ->
        ch_order c < ch_order d.
Proof.
  eexists. eexists. split; [evaluate_run|]. split; [reflexivity|].
  match goal with
  | |- forall i j c d, _ -> nth_error (book_spine ?b) _ = _ -> _ =>
      edestruct (@spine_order_is_source_position ascii_repertoire raw_html
                   sample_world (py "book.epub") (py "book_data") [] b)
        as [_ Hepub]
  end.
  - evaluate_run.
  - destruct (Hepub eq_refl) as (b & _ & _ & Hincr & _). exact Hincr.
Defined.

(** C2 as stated fails on the sample PDF: without a title in the document
    information, "novel.pdf" gets the title "novel", not "Untitled". *)
Lemma missing_title_counterexample :
  exists book log',
    process_pdf (U:=ascii_repertoire) sample_world (py "novel.pdf") (py "novel_data") []
    = (inr book, log')
    /\ pdf_at sample_world (py "novel.pdf") = Some ten_pages
    /\ pdf_title ten_pages = None
    /\ meta_title (book_metadata book) = py "novel"
    /\ meta_title (book_metadata book) <> py "Untitled".
Proof.
  eexists. eexists. split; [evaluate_run|].
  repeat split; try reflexivity. discriminate.
Qed.

(** The amended C2 on the sample EPUB and the sample PDF. *)
Lemma missing_title_witness :
  meta_title (extract_metadata_robust sample_epub) = py "Untitled"
  /\ exists book log',
      process_pdf (U:=ascii_repertoire) sample_world (py "novel.pdf") (py "novel_data") []
      = (inr book, log')
      /\ meta_title (book_metadata book) = fst (splitext (basename (py "novel.pdf"))).
Proof.
  pose proof (@missing_title_defaults ascii_repertoire raw_html sample_world) as T.
  split.
  - destruct (T (py "book.epub") (py "book_data") []) as [Te _].
    destruct (Te sample_epub
                {| book_metadata := extract_metadata_robust sample_epub;
                   book_spine := []; book_toc := []; book_images := [];
                   book_source_file := []; book_processed_at := [];
                   book_version := [] |} [] eq_refl (or_introl eq_refl))
      as [Tt _].
    exact Tt.
  - destruct (T (py "novel.pdf") (py "novel_data") []) as [_ Tp].
    exact (Tp ten_pages eq_refl eq_refl (or_introl eq_refl)).
Defined.

(** C5 on the sample PDF of ten pages. *)
Lemma pdf_without_outline_witness :
  exists book log',
    process_pdf (U:=ascii_repertoire) sample_world (py "novel.pdf") (py "novel_data") []
    = (inr book, log')
    /\ List.length (book_spine book) = 10
    /\ forall i, i < 10 ->
         exists c, nth_error (book_spine book) i = Some c
           /\ ch_title c = py "Page " ++ str_of_nat (i + 1)
           /\ ch_href c = py "page-" ++ str_of_nat (i + 1)
           /\ ch_order c = i.
Proof.
  apply (@pdf_without_outline_pages ascii_repertoire sample_world
           (py "novel.pdf") (py "novel_data") [] ten_pages).
  - reflexivity.
  - reflexivity.
  - left. reflexivity.
Defined.

(** The ten pages of the sample: "Page 1" to "Page 10", "page-1" to
    "page-10". *)
Example ten_pages_chapters :
  exists book log',
    process_pdf (U:=ascii_repertoire) sample_world (py "novel.pdf") (py "novel_data") []
    = (inr book, log')
    /\ map ch_title (book_spine book)
       = map py ["Page 1"; "Page 2"; "Page 3"; "Page 4"; "Page 5"; "Page 6";
                 "Page 7"; "Page 8"; "Page 9"; "Page 10"]%string
    /\ map ch_href (book_spine book)
       = map py ["page-1"; "page-2"; "page-3"; "page-4"; "page-5"; "page-6";
                 "page-7"; "page-8"; "page-9"; "page-10"]%string.
Proof.
  eexists. eexists. split; [evaluate_run|]. split; reflexivity.
Qed.

(** C7 on the sample EPUB: "cover art(1).JPG" is stored as
    "coverart1.JPG". *)
Lemma asset_filenames_witness :
  exists book log',
    process_epub (U:=ascii_repertoire) (H:=raw_html)
                 sample_world (py "book.epub") (py "book_data") []
    = (inr book, log')
    /\ book_images book
       = [(py "Images/cover art(1).JPG", py "images/coverart1.JPG");
          (py "cover art(1).JPG", py "images/coverart1.JPG")]
    /\ forall k v, In (k, v) (book_images book) ->
         exists safe, v = py "images/" ++ safe /\ basename v = safe
                      /\ Forall (filename_char (U:=ascii_repertoire)) safe.
Proof.
  eexists. eexists. split; [evaluate_run|]. split; [reflexivity|].
  match goal with
  | |- forall k v, In _ (book_images ?b) -> _ =>
      destruct (@asset_filenames_sanitized ascii_repertoire raw_html) as [_ A];
      edestruct (A sample_world (py "book.epub") (py "book_data") [] b) as [Am _]
  end.
  - evaluate_run.
  - exact Am.
Defined.

(** C8 on a text file: the error, and an empty log. *)
Lemma unsupported_extension_witness :
  str_lower (U:=ascii_repertoire) (snd (splitext (py "notes.TXT"))) = py ".txt"
  /\ process_book (U:=ascii_repertoire) (H:=raw_html)
                  sample_world (py "notes.TXT") (py "notes_data") []
     = (inl (ValueError (py "Unsupported file type: 'notes.TXT'. Supported extensions: .epub, .pdf.")),
        []).
Proof.
  split; [reflexivity|].
  apply (@unsupported_extension_fails_first ascii_repertoire raw_html
           sample_world (py "notes.TXT") (py "notes_data") []).
  - vm_compute. discriminate.
  - vm_compute. discriminate.
Defined.

(** C9 on the sample PDF with an outline. *)
Lemma pdf_toc_parallel_witness :
  exists book log',
    process_pdf (U:=ascii_repertoire) sample_world (py "works.pdf") (py "works_data") []
    = (inr book, log')
    /\ List.length (book_spine book) = 12
    /\ List.length (book_toc book) = List.length (book_spine book)
    /\ forall k t c,
        nth_error (book_toc book) k = Some t ->
        nth_error (book_spine book) k = Some c ->
        toc_href t = ch_href c /\ toc_file_href t = ch_href c
        /\ toc_title t = ch_title c /\ toc_anchor t = [] /\ toc_children t = [].
Proof.
  eexists. eexists. split; [evaluate_run|]. split; [reflexivity|].
  match goal with
  | |- List.length (book_toc ?b) = _ /\ _ =>
      eapply (@pdf_toc_parallel_to_spine ascii_repertoire sample_world
                (py "works.pdf") (py "works_data") [] b)
  end.
  evaluate_run.
Defined.

(** C10 on a blank text, on a text of two paragraphs, and on the sample
    PDF. *)
Lemma text_to_html_witness :
  text_to_html ([32; 9; LF; LF; 32]%N) = py "<p></p>"
  /\ text_to_html (py " a<b " ++ [LF; LF] ++ py "c & d")
     = py "<p>a&lt;b</p><p>c &amp; d</p>"
  /\ exists book log',
      process_pdf (U:=ascii_repertoire) sample_world (py "novel.pdf") (py "novel_data") []
      = (inr book, log')
      /\ forall c, In c (book_spine book) -> ch_content c <> [].
Proof.
  destruct text_to_html_paragraphs as [T P].
  split; [|split].
  - apply (T [32; 9; LF; LF; 32]%N). vm_compute. repeat constructor.
  - destruct (T (py " a<b " ++ [LF; LF] ++ py "c & d")) as (_ & _ & Tn).
    rewrite Tn; [reflexivity|].
    intros B.
    assert (E : splitlines (py " a<b " ++ [LF; LF] ++ py "c & d")
                = [py " a<b "; []; py "c & d"]) by reflexivity.
    rewrite E in B. apply Forall_inv in B. unfold blank in B.
    rewrite Forall_forall in B.
    assert (X : isspace 97 = true) by (apply B; right; left; reflexivity).
    discriminate X.
  - eexists. eexists. split; [evaluate_run|].
    match goal with
    | |- forall c, In c (book_spine ?b) -> _ =>
        eapply (P ascii_repertoire sample_world (py "novel.pdf") (py "novel_data") [] b)
    end.
    evaluate_run.
Defined.

(* ===================================================================== *)
(** * Further properties of the code *)
(* ===================================================================== *)

(** ** Deduplication of one outline level *)

Lemma existsb_eqb_In (p : nat) (seen : list nat) :
  existsb (Nat.eqb p) seen = true <-> In p seen.
Proof.
  rewrite existsb_exists. split.
  - intros (x & Hx & E). apply Nat.eqb_eq in E. now subst.
  - intros Hp. exists p. split; [exact Hp | apply Nat.eqb_refl].
Qed.

Lemma unique_by_page_in (l : list LevelEntry) :
  forall seen y, In y (unique_by_page seen l) -> In y l /\ ~ In (le_page y) seen.
Proof.
  induction l as [|x l IH]; intros seen y; simpl; [tauto|].
  destruct (existsb (Nat.eqb (le_page x)) seen) eqn:E.
  - intros Hy. apply IH in Hy. tauto.
  - intros [<- | Hy].
    + split; [now left|]. intros Hin. apply existsb_eqb_In in Hin. congruence.
    + apply IH in Hy. destruct Hy as [Hy Hn]. split; [now right|].
      intros Hin. apply Hn. now right.
Qed.

Lemma unique_by_page_strict (l : list LevelEntry) :
  StronglySorted by_page l ->
  forall seen,
    StronglySorted (fun a b => le_page a < le_page b) (unique_by_page seen l).
Proof.
  induction 1 as [|x l Hs IH Hx]; intros seen; simpl; [constructor|].
  destruct (existsb (Nat.eqb (le_page x)) seen); auto.
  constructor; auto.
  apply Forall_forall. intros y Hy. apply unique_by_page_in in Hy.
  destruct Hy as [Hy Hn]. rewrite Forall_forall in Hx.
  specialize (Hx y Hy). unfold by_page in Hx.
  assert (le_page y <> le_page x) by (intros E; apply Hn; left; congruence).
  lia.
Qed.

(** Every page that is not yet seen stays represented. *)
Lemma unique_by_page_covers (l : list LevelEntry) :
  forall seen x, In x l ->
    In (le_page x) seen
    \/ exists y, In y (unique_by_page seen l) /\ le_page y = le_page x.
Proof.
  induction l as [|a l IH]; intros seen x; simpl; [tauto|].
  destruct (existsb (Nat.eqb (le_page a)) seen) eqn:E.
  - intros [<- | Hx].
    + left. now apply existsb_eqb_In.
    + apply IH. exact Hx.
  - intros [<- | Hx].
    + right. exists a. split; [now left | reflexivity].
    + destruct (IH (le_page a :: seen) x Hx) as [[Ea | Hin] | (y & Hy & Ey)].
      * right. exists a. split; [now left | exact Ea].
      * now left.
      * right. exists y. split; [now right | exact Ey].
Qed.

Lemma insert_by_page_in (e : LevelEntry) (l : list LevelEntry) (x : LevelEntry) :
  In x (insert_by_page e l) <-> x = e \/ In x l.
Proof.
  induction l as [|a l IH]; simpl.
  - split; intros [E | []]; auto.
  - destruct (le_page e <=? le_page a); simpl.
    + split; intros [E | Hin]; auto.
    + rewrite IH. split; intros Hx; intuition auto.
Qed.

Lemma sorted_by_page_in (l : list LevelEntry) (x : LevelEntry) :
  In x (sorted_by_page l) <-> In x l.
Proof.
  induction l as [|a l IH]; simpl; [tauto|].
  rewrite insert_by_page_in, IH. split; intros [E | Hin]; auto.
Qed.

Lemma entry_key_eqb_eq (a b : pystr * nat) : entry_key_eqb a b = true <-> a = b.
Proof.
  unfold entry_key_eqb. rewrite andb_true_iff, str_eqb_eq, Nat.eqb_eq.
  destruct a, b; simpl. split; [intros [-> ->]; reflexivity | intros E; inversion E; auto].
Qed.

Lemma dedup_set_values (d : list ((pystr * nat) * LevelEntry)) (a v : LevelEntry) :
  In v (map snd (dict_set entry_key_eqb d (le_title a, le_page a) a)) ->
  In v (map snd d) \/ v = a.
Proof.
  induction d as [|[k w] d IHd]; simpl.
  - intros [E | []]; auto.
  - destruct (entry_key_eqb (le_title a, le_page a) k); simpl.
    + intros [E | Hv]; auto.
    + intros [E | Hv]; auto. apply IHd in Hv. tauto.
Qed.

Lemma dedup_set_keyed (d : list ((pystr * nat) * LevelEntry)) (a : LevelEntry) :
  Forall (fun kv => fst kv = (le_title (snd kv), le_page (snd kv))) d ->
  Forall (fun kv => fst kv = (le_title (snd kv), le_page (snd kv)))
         (dict_set entry_key_eqb d (le_title a, le_page a) a).
Proof.
  induction 1 as [|[k w] d Hk Hd IH]; simpl.
  - repeat constructor.
  - destruct (entry_key_eqb (le_title a, le_page a) k) eqn:K.
    + apply entry_key_eqb_eq in K. constructor; [simpl; congruence | exact Hd].
    + constructor; assumption.
Qed.

Lemma dedup_set_covers (d : list ((pystr * nat) * LevelEntry)) (a e : LevelEntry) :
  Forall (fun kv => fst kv = (le_title (snd kv), le_page (snd kv))) d ->
  e = a \/ In e (map snd d) ->
  exists v, In v (map snd (dict_set entry_key_eqb d (le_title a, le_page a) a))
            /\ le_page v = le_page e.
Proof.
  induction 1 as [|[k w] d Hk Hd IH]; simpl.
  - intros [-> | []]. exists a. auto.
  - destruct (entry_key_eqb (le_title a, le_page a) k) eqn:K; simpl.
    + apply entry_key_eqb_eq in K. simpl in Hk.
      intros [-> | [<- | He]].
      * exists a. auto.
      * exists a. split; [now left|]. rewrite Hk in K. now inversion K.
      * exists e. auto.
    + intros [-> | [<- | He]].
      * destruct (IH (or_introl eq_refl)) as (v & Hv & Ev). exists v. auto.
      * exists w. auto.
      * destruct (IH (or_intror He)) as (v & Hv & Ev). exists v. auto.
Qed.

(** The values of the dictionary keyed by (title, page) are entries that
    were put in, and every page put in is still there. *)
Lemma dedup_dict_values (entries : list LevelEntry) :
  forall d,
    Forall (fun kv => fst kv = (le_title (snd kv), le_page (snd kv))) d ->
    let d' := fold_left (fun d e => dict_set entry_key_eqb d (le_title e, le_page e) e)
                        entries d in
    (forall v, In v (map snd d') -> In v (map snd d) \/ In v entries)
    /\ (forall e, In e entries \/ In e (map snd d) ->
          exists v, In v (map snd d') /\ le_page v = le_page e).
Proof.
  induction entries as [|a entries IH]; intros d Hd; simpl.
  - split; [auto|]. intros e [[] | He]. now exists e.
  - specialize (IH _ (@dedup_set_keyed d a Hd)).
    simpl in IH. destruct IH as [IH1 IH2]. split.
    + intros v Hv. apply IH1 in Hv. destruct Hv as [Hv | Hv]; [|auto].
      apply dedup_set_values in Hv. destruct Hv as [Hv | ->]; auto.
    + intros e He.
      assert (He' : In e entries \/ e = a \/ In e (map snd d))
        by (destruct He as [[<- | He] | He]; auto).
      destruct He' as [He' | He'].
      * apply IH2. now left.
      * destruct (@dedup_set_covers d a e Hd He') as (v & Hv & Ev).
        destruct (IH2 v (or_intror Hv)) as (v' & Hv' & Ev').
        exists v'. split; [exact Hv' | congruence].
Qed.

Lemma dedupe_by_page_facts (entries : list LevelEntry) :
  StronglySorted (fun a b => le_page a < le_page b) (dedupe_by_page entries)
  /\ (forall y, In y (dedupe_by_page entries) -> In y entries)
  /\ (forall x, In x entries ->
        exists y, In y (dedupe_by_page entries) /\ le_page y = le_page x).
Proof.
  unfold dedupe_by_page.
  destruct (@dedup_dict_values entries [] (Forall_nil _)) as [D1 D2].
  simpl in D1, D2.
  split; [apply unique_by_page_strict, sorted_by_page_sorted|]. split.
  - intros y Hy. apply unique_by_page_in in Hy. destruct Hy as [Hy _].
    rewrite sorted_by_page_in in Hy. apply D1 in Hy. tauto.
  - intros x Hx. destruct (D2 x (or_introl Hx)) as (v & Hv & Ev).
    rewrite <- sorted_by_page_in in Hv.
    destruct (@unique_by_page_covers _ [] v Hv) as [[] | (y & Hy & Ey)].
    exists y. split; [exact Hy | congruence].
Qed.

(** X1. [dedupe_by_page] returns entries of its input, in strictly
    increasing page order (so no page twice), and every page of the input is
    the page of one returned entry. *)
Theorem dedupe_by_page_pages (entries : list LevelEntry) :
  StronglySorted (fun a b => le_page a < le_page b) (dedupe_by_page entries)
  /\ (forall y, In y (dedupe_by_page entries) -> In y entries)
  /\ (forall x, In x entries ->
        exists y, In y (dedupe_by_page entries) /\ le_page y = le_page x).
Proof. exact (dedupe_by_page_facts entries). Qed.

(** ** Walking the outline *)

Lemma as_entry_level (t : option pystr) (p : option Z) (level : nat) :
  as_entry t p level = None <-> as_entry t p 0 = None.
Proof.
  unfold as_entry. destruct t as [t|]; [|tauto].
  destruct (negb (truthy t)); [tauto|].
  destruct p as [pn|]; [|tauto].
  destruct (pn <? 0)%Z; [tauto|]. split; discriminate.
Qed.

Lemma level_append_nonempty (d : levels) (level : nat) (e : LevelEntry) :
  level_append d level e <> [].
Proof. destruct d as [|[k l] d]; simpl; [|destruct (Nat.eqb level k)]; discriminate. Qed.

Lemma level_append_keys (d : levels) (level : nat) (e : LevelEntry) (k : nat) :
  In k (map fst (level_append d level e)) <-> k = level \/ In k (map fst d).
Proof.
  induction d as [|[k' l] d IH]; simpl.
  - split; [intros [E | []]; auto | intros [E | []]; auto].
  - destruct (Nat.eqb_spec level k') as [->|Hne]; simpl.
    + split; [intros [E | Hin]; auto | intros [E | [E | Hin]]; auto].
    + rewrite IH. split; intros Hk; intuition auto.
Qed.

(** What a level dictionary keeps: each level once, and no empty list. *)
Lemma level_append_well_formed (d : levels) (level : nat) (e : LevelEntry) :
  NoDup (map fst d) /\ Forall (fun le => snd le <> []) d ->
  NoDup (map fst (level_append d level e))
  /\ Forall (fun le => snd le <> []) (level_append d level e).
Proof.
  induction d as [|[k l] d IH]; simpl; intros [Hn Hf].
  - split; repeat constructor; simpl; auto; discriminate.
  - inversion Hn as [|? ? Hk Hn']; subst. inversion Hf as [|? ? Hl Hf']; subst.
    destruct (Nat.eqb_spec level k) as [->|Hne]; simpl.
    + split; [constructor; assumption|]. constructor; [|assumption].
      simpl. destruct l; discriminate.
    + destruct (IH (conj Hn' Hf')) as [IHn IHf]. split.
      * constructor; [|exact IHn]. rewrite level_append_keys. intros [E | Hin]; auto.
      * constructor; assumption.
Qed.

Lemma walk_item_facts (item : outline_item) :
  forall level acc,
    (has_usable item = false -> walk_item level item acc = acc)
    /\ (has_usable item = true -> walk_item level item acc <> [])
    /\ (acc <> [] -> walk_item level item acc <> [])
    /\ (NoDup (map fst acc) /\ Forall (fun le => snd le <> []) acc ->
        NoDup (map fst (walk_item level item acc))
        /\ Forall (fun le => snd le <> []) (walk_item level item acc)).
Proof.
  induction item as [t p | items IH] using outline_item_induction; intros level acc.
  - simpl. pose proof (as_entry_level t p level) as L.
    destruct (as_entry t p level) as [e|]; destruct (as_entry t p 0) as [e0|].
    + repeat split; try discriminate; try (intros; apply level_append_nonempty).
      * apply level_append_well_formed; assumption.
      * apply level_append_well_formed; assumption.
    + exfalso. destruct L as [_ L]. specialize (L eq_refl). discriminate.
    + exfalso. destruct L as [L _]. specialize (L eq_refl). discriminate.
    + repeat split; try discriminate; tauto.
  - cbn [walk_item has_usable].
    revert acc. induction IH as [|x items Hx _ IHitems]; intros acc.
    + simpl. repeat split; try discriminate; tauto.
    + cbn [existsb].
      destruct (Hx (S level) acc) as (X1 & X2 & X3 & X4).
      destruct (IHitems (walk_item (S level) x acc)) as (I1 & I2 & I3 & I4).
      repeat split.
      * intros Hu. apply orb_false_iff in Hu. destruct Hu as [Hu1 Hu2].
        rewrite I1 by exact Hu2. now apply X1.
      * intros Hu. destruct (has_usable x) eqn:Ux.
        -- apply I3. now apply X2.
        -- simpl in Hu. now apply I2.
      * intros Ha. apply I3. now apply X3.
      * apply I4. now apply X4.
      * apply I4. now apply X4.
Qed.

Lemma walk_facts (items : list outline_item) :
  forall level acc,
    (existsb has_usable items = false -> walk items level acc = acc)
    /\ (existsb has_usable items = true -> walk items level acc <> [])
    /\ (acc <> [] -> walk items level acc <> [])
    /\ (NoDup (map fst acc) /\ Forall (fun le => snd le <> []) acc ->
        NoDup (map fst (walk items level acc))
        /\ Forall (fun le => snd le <> []) (walk items level acc)).
Proof.
  unfold walk. induction items as [|x items IH]; intros level acc; simpl.
  - repeat split; try discriminate; tauto.
  - destruct (walk_item_facts x level acc) as (X1 & X2 & X3 & X4).
    destruct (IH level (walk_item level x acc)) as (I1 & I2 & I3 & I4).
    repeat split.
    + intros Hu. apply orb_false_iff in Hu. destruct Hu as [Hu1 Hu2].
      rewrite I1 by exact Hu2. now apply X1.
    + intros Hu. destruct (has_usable x) eqn:Ux.
      * apply I3. now apply X2.
      * simpl in Hu. now apply I2.
    + intros Ha. apply I3. now apply X3.
    + apply I4. now apply X4.
    + apply I4. now apply X4.
Qed.

Lemma level_append_lookup (d : levels) (level : nat) (e : LevelEntry) (k : nat) :
  lookup_level (level_append d level e) k
  = lookup_level d k ++ (if Nat.eqb k level then [e] else []).
Proof.
  unfold lookup_level. induction d as [|[k' l] d IH]; simpl.
  - destruct (Nat.eqb k level); reflexivity.
  - destruct (Nat.eqb level k') eqn:E1; simpl.
    + apply Nat.eqb_eq in E1. subst k'.
      destruct (Nat.eqb k level) eqn:E2; [reflexivity|].
      now rewrite app_nil_r.
    + destruct (Nat.eqb k k') eqn:E2; [|exact IH].
      apply Nat.eqb_eq in E2. subst k'.
      rewrite Nat.eqb_sym, E1. now rewrite app_nil_r.
Qed.

Lemma as_entry_le_level t p level e : as_entry t p level = Some e -> le_level e = level.
Proof.
  unfold as_entry. destruct t as [t|]; [|discriminate].
  destruct (negb (truthy t)); [discriminate|].
  destruct p as [pn|]; [|discriminate].
  destruct (pn <? 0)%Z; [discriminate|]. intros E. inversion E. reflexivity.
Qed.

Lemma walk_item_lookup (item : outline_item) :
  forall level acc k,
    lookup_level (walk_item level item acc) k
    = lookup_level acc k
      ++ filter (fun e => Nat.eqb (le_level e) k) (outline_entries_of level item).
Proof.
  induction item as [t p | items IH] using outline_item_induction; intros level acc k.
  - simpl. destruct (as_entry t p level) as [e|] eqn:E; simpl.
    + rewrite level_append_lookup. apply as_entry_le_level in E. rewrite E.
      rewrite (Nat.eqb_sym level k). reflexivity.
    + now rewrite app_nil_r.
  - cbn [walk_item outline_entries_of].
    revert acc. induction IH as [|x items Hx _ IHitems]; intros acc.
    + simpl. now rewrite app_nil_r.
    + cbn [flat_map]. rewrite IHitems, Hx, filter_app, app_assoc. reflexivity.
Qed.

Lemma entries_by_level_lookup (reader : PdfReader) (k : nat) :
  lookup_level (entries_by_level reader) k
  = filter (fun e => Nat.eqb (le_level e) k)
           (flat_map (outline_entries_of 0) (outline_of reader)).
Proof.
  unfold entries_by_level, outline_of, walk.
  generalize (match pdf_outline reader with Some o => o | None => [] end).
  intros items.
  assert (G : forall acc,
             lookup_level (fold_left (fun acc it => walk_item 0 it acc) items acc) k
             = lookup_level acc k
               ++ filter (fun e => Nat.eqb (le_level e) k)
                         (flat_map (outline_entries_of 0) items)).
  { induction items as [|x items IH]; intros acc; simpl.
    - now rewrite app_nil_r.
    - rewrite IH, walk_item_lookup, filter_app, app_assoc. reflexivity. }
  rewrite G. reflexivity.
Qed.

(** X2. [walk] files every usable destination of the outline under its depth
    and keeps the document order: what the dictionary holds for a level are
    the usable destinations of that depth, in the order of the outline. *)
Theorem walk_groups_by_depth (reader : PdfReader) (k : nat) :
  lookup_level (entries_by_level reader) k
  = filter (fun e => Nat.eqb (le_level e) k)
           (flat_map (outline_entries_of 0) (outline_of reader)).
Proof. exact (entries_by_level_lookup reader k). Qed.

(** ** The selected outline level *)

Lemma dict_get_in (d : levels) (k : nat) (v : list LevelEntry) :
  dict_get Nat.eqb d k = Some v -> In (k, v) d.
Proof.
  induction d as [|[k' l] d IH]; simpl; [discriminate|].
  destruct (Nat.eqb_spec k k') as [->|Hne].
  - intros E. inversion E. now left.
  - intros E. right. now apply IH.
Qed.

Lemma dict_get_key (d : levels) (k : nat) :
  In k (map fst d) -> exists v, dict_get Nat.eqb d k = Some v.
Proof.
  induction d as [|[k' l] d IH]; simpl; [tauto|].
  destruct (Nat.eqb_spec k k') as [->|Hne]; [eauto|].
  intros [E | Hin]; [congruence | auto].
Qed.

Lemma dict_get_unique (d : levels) (k : nat) (v : list LevelEntry) :
  NoDup (map fst d) -> In (k, v) d -> dict_get Nat.eqb d k = Some v.
Proof.
  induction d as [|[k' l] d IH]; simpl; [tauto|].
  intros Hn. inversion Hn as [|? ? Hk Hn']; subst.
  destruct (Nat.eqb_spec k k') as [->|Hne].
  - intros [E | Hin]; [now inversion E|].
    exfalso. apply Hk. change k' with (fst (k', v)). now apply in_map.
  - intros [E | Hin]; [inversion E; congruence | auto].
Qed.

Lemma dedupe_by_page_nonempty (es : list LevelEntry) :
  es <> [] -> dedupe_by_page es <> [].
Proof.
  destruct es as [|x es]; [congruence|]. intros _ E.
  destruct (dedupe_by_page_facts (x :: es)) as (_ & _ & C).
  destruct (C x (or_introl eq_refl)) as (y & Hy & _).
  rewrite E in Hy. exact Hy.
Qed.

Lemma fallback_level_key (d : levels) :
  d <> [] -> In (fallback_level d) (map fst d).
Proof.
  unfold fallback_level. intros Hd.
  destruct (existsb (fun le => Nat.eqb (fst le) 0) d) eqn:E.
  - apply existsb_exists in E. destruct E as ([k l] & Hin & Hk).
    apply Nat.eqb_eq in Hk. simpl in Hk. subst k.
    change 0 with (fst (0, l)). now apply in_map.
  - destruct d as [|[k l] d]; [congruence|]. clear. simpl hd. simpl fst at 1.
    assert (G : forall ks k0, In (fold_right Nat.min k0 ks) (k0 :: ks)).
    { induction ks as [|a ks IH]; intros k0; simpl; [auto|].
      destruct (Nat.min_spec a (fold_right Nat.min k0 ks)) as [[_ ->] | [_ ->]].
      - auto.
      - destruct (IH k0) as [E | Hin]; auto. }
    destruct (G (map fst ((k, l) :: d)) k) as [E | Hin]; [|exact Hin].
    rewrite <- E. now left.
Qed.

Section Selection.
Context {U : Unicode}.

Lemma entries_by_level_well_formed (r : PdfReader) :
  NoDup (map fst (entries_by_level r))
  /\ Forall (fun le => snd le <> []) (entries_by_level r).
Proof.
  unfold entries_by_level.
  apply walk_facts. split; constructor.
Qed.

Lemma normalized_keys (r : PdfReader) :
  map fst (normalized_by_level r) = map fst (entries_by_level r).
Proof. unfold normalized_by_level. rewrite map_map. reflexivity. Qed.

Lemma normalized_values (r : PdfReader) (k : nat) (l : list LevelEntry) :
  In (k, l) (normalized_by_level r) ->
  exists es, In (k, es) (entries_by_level r) /\ es <> [] /\ l = dedupe_by_page es.
Proof.
  unfold normalized_by_level. intros Hin. apply in_map_iff in Hin.
  destruct Hin as ([k' es] & E & Hin). inversion E; subst.
  exists es. split; [exact Hin|]. split; [|reflexivity].
  destruct (entries_by_level_well_formed r) as [_ F].
  rewrite Forall_forall in F. exact (F _ Hin).
Qed.

Lemma level_entries_of_key (r : PdfReader) (k : nat) :
  In k (map fst (normalized_by_level r)) ->
  exists es, In (k, es) (entries_by_level r) /\ es <> []
             /\ level_entries (normalized_by_level r) k
                = map without_level (dedupe_by_page es).
Proof.
  intros Hk. destruct (dict_get_key _ _ Hk) as [l Hl].
  unfold level_entries. rewrite Hl.
  apply dict_get_in, normalized_values in Hl.
  destruct Hl as (es & Hin & Hne & ->). eauto.
Qed.

Lemma best_step_small best k (es : list LevelEntry) :
  List.length es < 3 -> best_step best (k, es) = best.
Proof. intros Hl. unfold best_step. apply Nat.ltb_lt in Hl. now rewrite Hl. Qed.

Lemma best_step_first k (es : list LevelEntry) :
  3 <= List.length es ->
  best_step None (k, es)
  = Some (k, (count_titles chapter_like_re es, List.length es)).
Proof. intros Hl. unfold best_step. apply Nat.ltb_ge in Hl. now rewrite Hl. Qed.

Lemma best_step_next lvl bs k (es : list LevelEntry) :
  3 <= List.length es ->
  best_step (Some (lvl, bs)) (k, es)
  = if score_gt (count_titles chapter_like_re es, List.length es) bs
    then Some (k, (count_titles chapter_like_re es, List.length es))
    else Some (lvl, bs).
Proof. intros Hl. unfold best_step. apply Nat.ltb_ge in Hl. now rewrite Hl. Qed.

Lemma score_gt_count (a b : score) : score_gt a b = true -> fst b <= fst a.
Proof.
  destruct a as [c1 n1], b as [c2 n2]. unfold score_gt. simpl.
  intros G. apply orb_true_iff in G. destruct G as [G | G].
  - apply Nat.ltb_lt in G. lia.
  - apply andb_true_iff in G. destruct G as [G _]. apply Nat.eqb_eq in G. lia.
Qed.

Lemma score_not_gt_count (a b : score) : score_gt a b = false -> fst a <= fst b.
Proof.
  destruct a as [c1 n1], b as [c2 n2]. unfold score_gt. simpl.
  intros G. apply orb_false_iff in G. destruct G as [G _].
  apply Nat.ltb_ge in G. exact G.
Qed.

(** What the scoring loop has found after a part of the levels: nothing if
    no level had three entries, else a level with at least three entries
    whose count of chapter-like titles no other such level exceeds. *)
Lemma best_step_fold (ls : list (nat * list LevelEntry)) :
  forall seen (best : option (nat * score)),
    match best with
    | None => forall k es, In (k, es) seen -> List.length es < 3
    | Some (lvl, (c, n)) =>
        exists es, In (lvl, es) seen /\ c = count_titles chapter_like_re es
                   /\ n = List.length es /\ 3 <= n
                   /\ forall k es', In (k, es') seen -> 3 <= List.length es' ->
                                    count_titles chapter_like_re es' <= c
    end ->
    match fold_left best_step ls best with
    | None => forall k es, In (k, es) (seen ++ ls) -> List.length es < 3
    | Some (lvl, (c, n)) =>
        exists es, In (lvl, es) (seen ++ ls) /\ c = count_titles chapter_like_re es
                   /\ n = List.length es /\ 3 <= n
                   /\ forall k es', In (k, es') (seen ++ ls) -> 3 <= List.length es' ->
                                    count_titles chapter_like_re es' <= c
    end.
Proof.
  induction ls as [|[k es] ls IH]; intros seen best Hb.
  - simpl. rewrite app_nil_r. exact Hb.
  - cbn [fold_left].
    replace (seen ++ (k, es) :: ls) with ((seen ++ [(k, es)]) ++ ls)
      by (rewrite <- app_assoc; reflexivity).
    apply IH.
    destruct (Nat.lt_ge_cases (List.length es) 3) as [Hlt | Hge].
    + rewrite best_step_small by exact Hlt.
      destruct best as [[lvl [c n]]|].
      * destruct Hb as (es0 & Hin & Hc & Hn & H3 & Hmax).
        exists es0. repeat split; auto.
        -- apply in_or_app. now left.
        -- intros k' es' Hin' Hlen. apply in_app_or in Hin'.
           destruct Hin' as [Hin' | [E | []]]; [eauto|]. inversion E; subst. lia.
      * intros k' es' Hin'. apply in_app_or in Hin'.
        destruct Hin' as [Hin' | [E | []]]; [eauto|]. inversion E; subst. exact Hlt.
    + destruct best as [[lvl [c n]]|].
      * destruct Hb as (es0 & Hin & Hc & Hn & H3 & Hmax).
        rewrite best_step_next by exact Hge.
        destruct (score_gt (count_titles chapter_like_re es, List.length es) (c, n)) eqn:G.
        -- apply score_gt_count in G. simpl in G.
           exists es. repeat split; auto.
           ++ apply in_or_app. right. now left.
           ++ intros k' es' Hin' Hlen. apply in_app_or in Hin'.
              destruct Hin' as [Hin' | [E | []]]; [|inversion E; subst; lia].
              specialize (Hmax _ _ Hin' Hlen). lia.
        -- apply score_not_gt_count in G. simpl in G.
           exists es0. repeat split; auto.
           ++ apply in_or_app. now left.
           ++ intros k' es' Hin' Hlen. apply in_app_or in Hin'.
              destruct Hin' as [Hin' | [E | []]]; [eauto|]. inversion E; subst.
              exact G.
      * rewrite best_step_first by exact Hge.
        exists es. repeat split; auto.
        -- apply in_or_app. right. now left.
        -- intros k' es' Hin' Hlen. apply in_app_or in Hin'.
           destruct Hin' as [Hin' | [E | []]]; [|inversion E; subst; lia].
           specialize (Hb _ _ Hin'). lia.
Qed.
End Selection.

Lemma count_titles_length (f : pystr -> bool) (l : list LevelEntry) :
  count_titles f l <= List.length l.
Proof.
  unfold count_titles. induction l as [|e l IH]; simpl; [lia|].
  destruct (f (le_title e)); simpl; lia.
Qed.

Section SelectionRules.
Context {U : Unicode}.

Lemma selected_level (r : PdfReader) :
  entries_by_level r <> [] ->
  exists lvl,
    In lvl (map fst (normalized_by_level r))
    /\ get_pdf_outline_entries r = level_entries (normalized_by_level r) lvl.
Proof.
  intros Hne. unfold get_pdf_outline_entries.
  destruct (entries_by_level r) as [|p l] eqn:E; [congruence|]. clear Hne.
  assert (Hnn : normalized_by_level r <> []).
  { unfold normalized_by_level. rewrite E. discriminate. }
  destruct (part_dominance (normalized_by_level r)) as [res|] eqn:P.
  - exists 1. unfold part_dominance in P.
    destruct (dict_get Nat.eqb (normalized_by_level r) 0) as [[|t top]|];
      try discriminate.
    destruct (Nat.max 2 (List.length (t :: top) / 2)
              <=? count_titles part_like_re (t :: top)); [|discriminate].
    destruct (dict_get Nat.eqb (normalized_by_level r) 1) as [[|e1 l1]|] eqn:G;
      try discriminate.
    inversion P; subst. split.
    + apply dict_get_in in G. change 1 with (fst (1, e1 :: l1)). now apply in_map.
    + unfold level_entries. now rewrite G.
  - pose proof (@best_step_fold _ (normalized_by_level r) [] (@None (nat * score))
                  (fun _ _ F => match F with end)) as B.
    cbn [app] in B.
    revert B.
    destruct (fold_left best_step (normalized_by_level r) None) as [[lvl [c n]]|];
      intros B.
    + destruct (3 <=? c).
      * exists lvl. split; [|reflexivity].
        destruct B as (es & Hin & _). change lvl with (fst (lvl, es)).
        now apply in_map.
      * exists (fallback_level (normalized_by_level r)).
        split; [now apply fallback_level_key | reflexivity].
    + exists (fallback_level (normalized_by_level r)).
      split; [now apply fallback_level_key | reflexivity].
Qed.

Lemma selected_level_entries (r : PdfReader) :
  entries_by_level r <> [] ->
  exists lvl es,
    lookup_level (entries_by_level r) lvl = es /\ es <> []
    /\ get_pdf_outline_entries r = map without_level (dedupe_by_page es).
Proof.
  intros Hne. destruct (selected_level r Hne) as (lvl & Hk & ->).
  destruct (level_entries_of_key r lvl Hk) as (es & Hin & Hes & ->).
  exists lvl, es. split; [|auto].
  unfold lookup_level.
  rewrite (dict_get_unique _ _ _ (proj1 (entries_by_level_well_formed r)) Hin).
  reflexivity.
Qed.

Lemma no_usable_no_entries (r : PdfReader) :
  existsb has_usable (outline_of r) = false <-> entries_by_level r = [].
Proof.
  unfold entries_by_level. fold (outline_of r).
  destruct (walk_facts (outline_of r) 0 []) as (W1 & W2 & _).
  split.
  - exact W1.
  - intros E. destruct (existsb has_usable (outline_of r)); [|reflexivity].
    exfalso. now apply W2.
Qed.

Lemma part_rule_off (r : PdfReader) :
  (forall top,
      dict_get Nat.eqb (normalized_by_level r) 0 = Some top ->
      count_titles part_like_re top < Nat.max 2 (List.length top / 2)
      \/ dict_get Nat.eqb (normalized_by_level r) 1 = None) ->
  part_dominance (normalized_by_level r) = None.
Proof.
  intros Hoff. unfold part_dominance.
  destruct (dict_get Nat.eqb (normalized_by_level r) 0) as [[|t top]|]; try reflexivity.
  destruct (Hoff _ eq_refl) as [Hc | H1].
  - apply Nat.leb_gt in Hc. now rewrite Hc.
  - rewrite H1. now destruct (_ <=? _).
Qed.
End SelectionRules.

(** X3. The entries that [get_pdf_outline_entries] returns are in strictly
    increasing page order, and unless there are none they are the
    deduplicated usable destinations of one single depth of the outline. *)
Theorem outline_entries_one_level_ascending (U : Unicode) (r : PdfReader) :
  StronglySorted (fun a b => oe_page a < oe_page b) (get_pdf_outline_entries r)
  /\ (get_pdf_outline_entries r = []
      \/ exists level,
          lookup_level (entries_by_level r) level <> []
          /\ get_pdf_outline_entries r
             = map without_level
                   (dedupe_by_page (lookup_level (entries_by_level r) level))).
Proof.
  destruct (entries_by_level r) as [|p l] eqn:E.
  - assert (G : get_pdf_outline_entries r = []).
    { unfold get_pdf_outline_entries. now rewrite E. }
    rewrite G. split; [constructor | now left].
  - assert (Hne : entries_by_level r <> []) by (rewrite E; discriminate).
    rewrite <- E.
    destruct (selected_level_entries r Hne) as (lvl & es & <- & Hes & ->).
    split.
    + destruct (dedupe_by_page_facts (lookup_level (entries_by_level r) lvl))
        as (S & _).
      clear -S. induction S as [|x l0 Hs IH Hx]; simpl; constructor; auto.
      apply Forall_forall. intros y Hy. apply in_map_iff in Hy.
      destruct Hy as (z & <- & Hz). rewrite Forall_forall in Hx.
      exact (Hx z Hz).
    + right. exists lvl. auto.
Qed.

(** X4. [get_pdf_outline_entries] returns no entry exactly when the outline
    (absent, empty or not) has no usable destination: none with a non-empty
    title and a page that resolves and is not negative. *)
Theorem outline_entries_empty_iff (U : Unicode) (r : PdfReader) :
  get_pdf_outline_entries r = [] <-> existsb has_usable (outline_of r) = false.
Proof.
  rewrite no_usable_no_entries. split.
  - intros G. destruct (entries_by_level r) as [|p l] eqn:E; [reflexivity|].
    assert (Hne : entries_by_level r <> []) by (rewrite E; discriminate).
    destruct (selected_level_entries r Hne) as (lvl & es & _ & Hes & G').
    rewrite G in G'. symmetry in G'. apply map_eq_nil in G'.
    now apply dedupe_by_page_nonempty in G'.
  - intros E. unfold get_pdf_outline_entries. now rewrite E.
Qed.

(** X5. When the part-dominance rule does not apply and no level has three
    chapter-like titles, the selector falls back to the deduplicated
    level 0, if the outline has one. *)
Theorem outline_falls_back_to_top_level (U : Unicode) (r : PdfReader)
        (top : list LevelEntry) :
  dict_get Nat.eqb (normalized_by_level r) 0 = Some top ->
  (count_titles part_like_re top < Nat.max 2 (List.length top / 2)
   \/ dict_get Nat.eqb (normalized_by_level r) 1 = None) ->
  (forall k es, In (k, es) (normalized_by_level r) ->
                count_titles chapter_like_re es < 3) ->
  get_pdf_outline_entries r = map without_level top.
Proof.
  intros H0 Hoff Hch. unfold get_pdf_outline_entries.
  destruct (entries_by_level r) as [|p l] eqn:E.
  { unfold normalized_by_level in H0. rewrite E in H0. discriminate. }
  rewrite part_rule_off
    by (intros top' H0'; assert (top' = top) by congruence; subst; exact Hoff).
  assert (F : fallback_level (normalized_by_level r) = 0).
  { unfold fallback_level.
    assert (X : existsb (fun le => Nat.eqb (fst le) 0) (normalized_by_level r) = true).
    { apply existsb_exists. exists (0, top). split; [now apply dict_get_in | reflexivity]. }
    now rewrite X. }
  assert (L : level_entries (normalized_by_level r) 0 = map without_level top).
  { unfold level_entries. now rewrite H0. }
  pose proof (@best_step_fold _ (normalized_by_level r) [] (@None (nat * score))
                (fun _ _ F => match F with end)) as B.
  cbn [app] in B.
  revert B.
  destruct (fold_left best_step (normalized_by_level r) None) as [[lvl [c n]]|];
    intros B.
  - destruct B as (es & Hin & -> & _). specialize (Hch _ _ Hin).
    apply Nat.leb_gt in Hch. rewrite Hch, F. exact L.
  - rewrite F. exact L.
Qed.

(** X6. When the part-dominance rule does not apply and some level has at
    least three chapter-like titles, the selector returns a deduplicated
    level with at least three such titles, and no level of three or more
    entries has more of them. *)
Theorem outline_prefers_most_chapters (U : Unicode) (r : PdfReader) :
  (forall top,
      dict_get Nat.eqb (normalized_by_level r) 0 = Some top ->
      count_titles part_like_re top < Nat.max 2 (List.length top / 2)
      \/ dict_get Nat.eqb (normalized_by_level r) 1 = None) ->
  (exists k es, In (k, es) (normalized_by_level r)
                /\ 3 <= count_titles chapter_like_re es) ->
  exists level chosen,
    dict_get Nat.eqb (normalized_by_level r) level = Some chosen
    /\ get_pdf_outline_entries r = map without_level chosen
    /\ 3 <= count_titles chapter_like_re chosen
    /\ forall k es, In (k, es) (normalized_by_level r) ->
                    3 <= List.length es ->
                    count_titles chapter_like_re es
                    <= count_titles chapter_like_re chosen.
Proof.
  intros Hoff (k0 & es0 & Hin0 & Hc0). unfold get_pdf_outline_entries.
  destruct (entries_by_level r) as [|p l] eqn:E.
  { unfold normalized_by_level in Hin0. rewrite E in Hin0. destruct Hin0. }
  rewrite part_rule_off by exact Hoff.
  pose proof (@best_step_fold _ (normalized_by_level r) [] (@None (nat * score))
                (fun _ _ F => match F with end)) as B.
  cbn [app] in B.
  pose proof (count_titles_length chapter_like_re es0) as Hl0.
  revert B.
  destruct (fold_left best_step (normalized_by_level r) None) as [[lvl [c n]]|];
    intros B.
  - destruct B as (es & Hin & -> & -> & H3 & Hmax).
    assert (Hc : 3 <= count_titles chapter_like_re es).
    { specialize (Hmax _ _ Hin0). lia. }
    apply Nat.leb_le in Hc. rewrite Hc. apply Nat.leb_le in Hc.
    assert (G : dict_get Nat.eqb (normalized_by_level r) lvl = Some es).
    { apply dict_get_unique; [|exact Hin].
      rewrite normalized_keys. apply entries_by_level_well_formed. }
    exists lvl, es. repeat split; auto.
    unfold level_entries. now rewrite G.
  - specialize (B _ _ Hin0). lia.
Qed.

(** X5 on the flat sample outline: four entries, two of them chapters, and
    the selector returns all four. *)
Lemma outline_falls_back_witness :
  exists top,
    dict_get Nat.eqb (normalized_by_level flat_outline_pdf) 0 = Some top
    /\ List.length top = 4
    /\ count_titles (chapter_like_re (U:=ascii_repertoire)) top = 2
    /\ get_pdf_outline_entries (U:=ascii_repertoire) flat_outline_pdf
       = map without_level top.
Proof.
  eexists. split; [evaluate_run|]. split; [reflexivity|]. split; [reflexivity|].
  apply (@outline_falls_back_to_top_level ascii_repertoire flat_outline_pdf).
  - reflexivity.
  - right. reflexivity.
  - intros k es Hin. vm_compute in Hin. destruct Hin as [E | []].
    inversion E; subst. vm_compute. lia.
Defined.

(** X6 on the nested sample outline: the three chapters of level 1 win over
    the three plain entries of level 0. *)
Lemma outline_prefers_chapters_witness :
  exists level chosen,
    dict_get Nat.eqb (normalized_by_level nested_outline_pdf) level = Some chosen
    /\ get_pdf_outline_entries (U:=ascii_repertoire) nested_outline_pdf
       = map without_level chosen
    /\ 3 <= count_titles (chapter_like_re (U:=ascii_repertoire)) chosen
    /\ forall k es, In (k, es) (normalized_by_level nested_outline_pdf) ->
                    3 <= List.length es ->
                    count_titles (chapter_like_re (U:=ascii_repertoire)) es
                    <= count_titles (chapter_like_re (U:=ascii_repertoire)) chosen.
Proof.
  apply (@outline_prefers_most_chapters ascii_repertoire nested_outline_pdf).
  - intros top Htop. left. vm_compute in Htop. inversion Htop; subst.
    vm_compute. lia.
  - exists 1. eexists. split; [right; left; reflexivity|]. vm_compute. lia.
Defined.

(** ** Page ranges of the chapters of a PDF *)

(** ** Part dominance *)

Lemma find_app_first {A} (f : A -> bool) (l1 l2 : list A) :
  find f (l1 ++ l2)
  = match find f l1 with Some x => Some x | None => find f l2 end.
Proof.
  induction l1 as [|x l1 IH]; cbn [app find]; [reflexivity|].
  destruct (f x); [reflexivity | exact IH].
Qed.

Lemma find_on_page_in (y v : LevelEntry) (l : list LevelEntry) :
  find (on_page_of y) l = Some v -> In v l /\ le_page v = le_page y.
Proof.
  intros E. apply find_some in E. destruct E as [Hin E].
  split; [exact Hin | now apply Nat.eqb_eq].
Qed.

(** [first_per_page] keeps exactly the entries that come first on their
    page. *)
Lemma first_per_page_in (l : list LevelEntry) (y : LevelEntry) :
  In y (first_per_page l) <-> find (on_page_of y) l = Some y.
Proof.
  induction l as [|e l IH]; cbn [first_per_page find In].
  - split; [intros [] | discriminate].
  - unfold on_page_of at 1. rewrite filter_In, IH.
    destruct (Nat.eqb_spec (le_page e) (le_page y)) as [Ep | Ep].
    + split.
      * intros [-> | [_ Hf]]; [reflexivity|].
        apply negb_true_iff, Nat.eqb_neq in Hf. congruence.
      * intros E. left. congruence.
    + split.
      * intros [-> | [Hf _]]; [congruence | exact Hf].
      * intros Hf. right. split; [exact Hf|].
        apply negb_true_iff, Nat.eqb_neq. congruence.
Qed.

Lemma first_per_page_pages (l : list LevelEntry) :
  NoDup (map le_page (first_per_page l)).
Proof.
  induction l as [|e l IH]; cbn [first_per_page map]; constructor.
  - intros Hin. apply in_map_iff in Hin. destruct Hin as (x & Ex & Hx).
    apply filter_In in Hx. destruct Hx as [_ Hx].
    apply negb_true_iff, Nat.eqb_neq in Hx. congruence.
  - clear -IH. induction (first_per_page l) as [|x r IHr]; cbn [filter map].
    + constructor.
    + inversion IH as [|? ? Hx Hr]; subst.
      destruct (negb (le_page x =? le_page e)); cbn [map]; [|now apply IHr].
      constructor; [|now apply IHr].
      intros Hin. apply Hx. apply in_map_iff in Hin.
      destruct Hin as (z & Ez & Hz). apply filter_In in Hz.
      apply in_map_iff. exists z. tauto.
Qed.

Lemma NoDup_map_inv_list {A B} (f : A -> B) (l : list A) :
  NoDup (map f l) -> NoDup l.
Proof.
  induction l as [|x l IH]; cbn [map]; intros Hn; constructor;
    inversion Hn; subst.
  - intros Hin. apply H1. now apply in_map.
  - now apply IH.
Qed.

(** The code's three steps keep the same entries.  First, the dictionary
    of (title, page) keys: among entries of one level, an entry that comes
    first on its page stays so. *)
Lemma dedup_dict_first (k : nat) (entries : list LevelEntry) :
  Forall (fun e => le_level e = k) entries ->
  forall d,
    Forall (fun kv => fst kv = (le_title (snd kv), le_page (snd kv))) d ->
    Forall (fun kv => le_level (snd kv) = k) d ->
    forall y,
      find (on_page_of y)
           (map snd (fold_left (fun d e => dict_set entry_key_eqb d (le_title e, le_page e) e)
                               entries d))
      = match find (on_page_of y) (map snd d) with
        | Some x => Some x
        | None => find (on_page_of y) entries
        end.
Proof.
  induction 1 as [|e entries He _ IH]; intros d Hk Hl y; cbn [fold_left find].
  - destruct (find (on_page_of y) (map snd d)); reflexivity.
  - assert (Hset : map snd (dict_set entry_key_eqb d (le_title e, le_page e) e)
                   = map snd d
                     \/ (map snd (dict_set entry_key_eqb d (le_title e, le_page e) e)
                         = map snd d ++ [e]
                         /\ forall v, In v (map snd d) ->
                                      le_page v = le_page e -> le_title v <> le_title e)).
    { clear IH. induction d as [|[[t p] v] d IHd]; cbn [dict_set map].
      - right. split; [reflexivity | intros v []].
      - inversion Hk as [|? ? Hkv Hk']; subst. inversion Hl as [|? ? Hlv Hl']; subst.
        cbn [fst snd] in Hkv, Hlv. injection Hkv as -> ->.
        destruct (entry_key_eqb (le_title e, le_page e) (le_title v, le_page v)) eqn:K;
          cbn [map snd].
        + left. apply entry_key_eqb_eq in K. injection K as Et Ep.
          f_equal. destruct e, v. cbn in *. congruence.
        + destruct (IHd Hk' Hl') as [E | [E Hn]].
          * left. now rewrite E.
          * right. split; [now rewrite E|].
            intros w [<- | Hw] Hp Ht; [|now apply (Hn w)].
            assert (K' : entry_key_eqb (le_title e, le_page e) (le_title v, le_page v) = true)
              by (apply entry_key_eqb_eq; congruence).
            congruence. }
    assert (Hk2 := dedup_set_keyed e Hk).
    assert (Hl2 : Forall (fun kv => le_level (snd kv) = k)
                         (dict_set entry_key_eqb d (le_title e, le_page e) e)).
    { apply Forall_forall. intros kv Hkv.
      assert (Hv : In (snd kv) (map snd (dict_set entry_key_eqb d (le_title e, le_page e) e)))
        by now apply in_map.
      apply dedup_set_values in Hv. destruct Hv as [Hv | ->]; [|exact He].
      apply in_map_iff in Hv. destruct Hv as (kv' & E & Hin).
      rewrite Forall_forall in Hl. rewrite <- E. now apply Hl. }
    rewrite (IH _ Hk2 Hl2 y).
    destruct Hset as [E | [E Hnew]]; rewrite E.
    + destruct (find (on_page_of y) (map snd d)) as [x|] eqn:F; [reflexivity|].
      unfold on_page_of at 2.
      destruct (Nat.eqb_spec (le_page e) (le_page y)) as [Ep|]; [|reflexivity].
      exfalso.
      assert (Hin : In e (map snd d)).
      { assert (Hv : In e (map snd (dict_set entry_key_eqb d (le_title e, le_page e) e))).
        { clear. induction d as [|[kk vv] d IHd]; cbn [dict_set map]; [now left|].
          destruct (entry_key_eqb (le_title e, le_page e) kk); cbn [map snd In]; auto. }
        now rewrite E in Hv. }
      apply (find_none _ _ F) in Hin. unfold on_page_of in Hin.
      apply Nat.eqb_neq in Hin. congruence.
    + rewrite find_app_first. cbn [find].
      destruct (find (on_page_of y) (map snd d)); [reflexivity|].
      destruct (on_page_of y e); reflexivity.
Qed.

(** Second, the stable sort. *)
Lemma insert_by_page_first (y e : LevelEntry) (l : list LevelEntry) :
  find (on_page_of y) (insert_by_page e l)
  = if on_page_of y e then Some e else find (on_page_of y) l.
Proof.
  induction l as [|x l IH]; cbn [insert_by_page find]; [reflexivity|].
  destruct (Nat.leb_spec (le_page e) (le_page x)) as [Hle | Hlt]; cbn [find].
  - reflexivity.
  - rewrite IH. unfold on_page_of.
    destruct (Nat.eqb_spec (le_page x) (le_page y)) as [Ex|]; [|reflexivity].
    destruct (Nat.eqb_spec (le_page e) (le_page y)); [lia | reflexivity].
Qed.

Lemma sorted_by_page_first (y : LevelEntry) (l : list LevelEntry) :
  find (on_page_of y) (sorted_by_page l) = find (on_page_of y) l.
Proof.
  unfold sorted_by_page. induction l as [|x l IH]; cbn [fold_right find];
    [reflexivity|].
  now rewrite insert_by_page_first, IH.
Qed.

(** Third, the pass that drops the pages already seen. *)
Lemma unique_by_page_first (l : list LevelEntry) :
  forall seen y,
    In y (unique_by_page seen l)
    <-> ~ In (le_page y) seen /\ find (on_page_of y) l = Some y.
Proof.
  induction l as [|e l IH]; intros seen y; cbn [unique_by_page find].
  - split; [intros [] | intros [_ E]; discriminate].
  - unfold on_page_of at 1.
    destruct (existsb (Nat.eqb (le_page e)) seen) eqn:S.
    + rewrite IH. apply existsb_eqb_In in S.
      destruct (Nat.eqb_spec (le_page e) (le_page y)) as [Ep|]; [|tauto].
      split; [intros [Hn _] | intros [Hn _]]; exfalso; apply Hn; congruence.
    + assert (Hs : ~ In (le_page e) seen).
      { intros Hin. apply existsb_eqb_In in Hin. congruence. }
      cbn [In]. rewrite IH. cbn [In].
      destruct (Nat.eqb_spec (le_page e) (le_page y)) as [Ep | Ep].
      * split.
        -- intros [-> | [Hn _]]; [tauto | tauto].
        -- intros [_ E]. left. congruence.
      * split.
        -- intros [-> | [Hn Hf]]; [congruence | tauto].
        -- intros [Hn Hf]. right. tauto.
Qed.

(** The deduplication of a level keeps, for each page, the first entry of
    the level on that page. *)
Lemma dedupe_by_page_first (k : nat) (entries : list LevelEntry) (y : LevelEntry) :
  Forall (fun e => le_level e = k) entries ->
  In y (dedupe_by_page entries) <-> In y (first_per_page entries).
Proof.
  intros Hl. unfold dedupe_by_page.
  rewrite unique_by_page_first, sorted_by_page_first, first_per_page_in.
  rewrite (dedup_dict_first Hl (d:=[])); [|constructor|constructor].
  cbn [map find In]. tauto.
Qed.

Lemma dedupe_by_page_perm (k : nat) (entries : list LevelEntry) :
  Forall (fun e => le_level e = k) entries ->
  Permutation (dedupe_by_page entries) (first_per_page entries).
Proof.
  intros Hl. apply NoDup_Permutation.
  - apply (NoDup_map_inv_list le_page).
    destruct (dedupe_by_page_facts entries) as [Hs _].
    induction Hs as [|x l _ IH Hx]; cbn [map]; constructor; [|exact IH].
    intros Hin. apply in_map_iff in Hin. destruct Hin as (z & Ez & Hz).
    rewrite Forall_forall in Hx. specialize (Hx z Hz). lia.
  - apply (NoDup_map_inv_list le_page), first_per_page_pages.
  - intros y. now apply dedupe_by_page_first with (k := k).
Qed.

Lemma insert_by_page_perm (e : LevelEntry) (l : list LevelEntry) :
  Permutation (insert_by_page e l) (e :: l).
Proof.
  induction l as [|x l IH]; cbn [insert_by_page]; [reflexivity|].
  destruct (le_page e <=? le_page x); [reflexivity|].
  rewrite IH. apply perm_swap.
Qed.

Lemma sorted_by_page_perm (l : list LevelEntry) :
  Permutation (sorted_by_page l) l.
Proof.
  unfold sorted_by_page. induction l as [|x l IH]; cbn [fold_right];
    [reflexivity|].
  now rewrite insert_by_page_perm, IH.
Qed.

(** Two lists in page order with the same entries, one per page, are the
    same list. *)
Lemma page_order_unique (l1 : list LevelEntry) :
  forall l2,
    StronglySorted by_page l1 -> StronglySorted by_page l2 ->
    NoDup (map le_page l1) -> NoDup (map le_page l2) ->
    (forall y, In y l1 <-> In y l2) ->
    l1 = l2.
Proof.
  induction l1 as [|x l1 IH]; intros [|y l2] S1 S2 N1 N2 Hin.
  - reflexivity.
  - destruct (proj2 (Hin y) (or_introl eq_refl)).
  - destruct (proj1 (Hin x) (or_introl eq_refl)).
  - inversion S1 as [|? ? S1' F1]; subst. inversion S2 as [|? ? S2' F2]; subst.
    cbn [map] in N1, N2.
    inversion N1 as [|? ? Nx N1']; subst. inversion N2 as [|? ? Ny N2']; subst.
    rewrite Forall_forall in F1, F2. unfold by_page in F1, F2.
    assert (E : x = y).
    { destruct (proj1 (Hin x) (or_introl eq_refl)) as [E | Hx]; [now symmetry|].
      destruct (proj2 (Hin y) (or_introl eq_refl)) as [E | Hy]; [exact E|].
      exfalso. apply Ny. apply in_map_iff. exists x. split; [|exact Hx].
      specialize (F1 y Hy). specialize (F2 x Hx). lia. }
    subst y. f_equal. apply IH; try assumption.
    intros z. split; intros Hz.
    + destruct (proj1 (Hin z) (or_intror Hz)) as [E | Hz']; [|exact Hz'].
      exfalso. apply Nx. subst z. now apply in_map.
    + destruct (proj2 (Hin z) (or_intror Hz)) as [E | Hz']; [|exact Hz'].
      exfalso. apply Ny. subst z. now apply in_map.
Qed.

(** The deduplication of a level is the level with one entry per page, in
    page order. *)
Lemma dedupe_by_page_eq (k : nat) (entries : list LevelEntry) :
  Forall (fun e => le_level e = k) entries ->
  dedupe_by_page entries = sorted_by_page (first_per_page entries).
Proof.
  intros Hl.
  pose proof (dedupe_by_page_perm Hl) as P.
  pose proof (sorted_by_page_perm (first_per_page entries)) as Q.
  apply page_order_unique.
  - apply dedupe_by_page_sorted.
  - apply sorted_by_page_sorted.
  - apply (Permutation_NoDup (l := map le_page (first_per_page entries))).
    + apply Permutation_map. now symmetry.
    + apply first_per_page_pages.
  - apply (Permutation_NoDup (l := map le_page (first_per_page entries))).
    + apply Permutation_map. now symmetry.
    + apply first_per_page_pages.
  - intros y. split; intros Hy.
    + apply (Permutation_in y (Permutation_sym Q)).
      now apply (Permutation_in y P).
    + apply (Permutation_in y (Permutation_sym P)).
      now apply (Permutation_in y Q).
Qed.

Lemma count_titles_perm (f : pystr -> bool) (a b : list LevelEntry) :
  Permutation a b -> count_titles f a = count_titles f b.
Proof.
  unfold count_titles.
  induction 1 as [|x a b _ IH|x y a|a b c _ IH1 _ IH2]; cbn [filter].
  - reflexivity.
  - destruct (f (le_title x)); cbn [List.length]; now rewrite IH.
  - destruct (f (le_title x)), (f (le_title y)); reflexivity.
  - now rewrite IH1.
Qed.

Section PartDominance.
Context {U : Unicode}.

Lemma outline_level_uniform (r : PdfReader) (k : nat) :
  Forall (fun e => le_level e = k) (outline_level r k).
Proof.
  apply Forall_forall. intros e He. unfold outline_level in He.
  apply filter_In in He. destruct He as [_ He]. now apply Nat.eqb_eq.
Qed.

(** What the selector's dictionary holds for a level of the outline that is
    not empty. *)
Lemma normalized_level (r : PdfReader) (k : nat) :
  outline_level r k <> [] ->
  dict_get Nat.eqb (normalized_by_level r) k
  = Some (dedupe_by_page (outline_level r k)).
Proof.
  intros Hne. unfold normalized_by_level. rewrite dict_get_normalized.
  pose proof (entries_by_level_lookup r k) as E. unfold lookup_level in E.
  fold (outline_level r k) in E.
  destruct (dict_get Nat.eqb (entries_by_level r) k) as [l|]; cbn [option_map].
  - now rewrite E.
  - congruence.
Qed.
End PartDominance.

(** C4. Keep, at each depth of the outline, one entry per page: the first
    usable destination of that depth on the page.  When n entries are kept at
    depth 0, at least max(2, n div 2) of them carry a part-like title, and
    depth 1 has a usable destination, the selector returns exactly the
    entries kept at depth 1, sorted by page: a rearrangement of them, in page
    order (for instance with five part-titled entries at depth 0 over twelve
    chapter-titled entries at depth 1). *)
Theorem part_dominance_selects_level_1 (U : Unicode) (reader : PdfReader) :
  outline_level reader 1 <> [] ->
  Nat.max 2 (List.length (first_per_page (outline_level reader 0)) / 2)
  <= count_titles part_like_re (first_per_page (outline_level reader 0)) ->
  get_pdf_outline_entries reader
  = map without_level (sorted_by_page (first_per_page (outline_level reader 1)))
  /\ Permutation (get_pdf_outline_entries reader)
                 (map without_level (first_per_page (outline_level reader 1)))
  /\ in_page_order (get_pdf_outline_entries reader).
Proof.
  intros H1 Hc.
  pose proof (dedupe_by_page_perm (outline_level_uniform reader 0)) as P0.
  pose proof (dedupe_by_page_perm (outline_level_uniform reader 1)) as P1.
  assert (H0 : outline_level reader 0 <> []).
  { intros E. rewrite E in Hc. cbn in Hc. lia. }
  assert (E : get_pdf_outline_entries reader
              = map without_level (dedupe_by_page (outline_level reader 1))).
  { apply (@part_rule_on U reader (dedupe_by_page (outline_level reader 0))
                         (dedupe_by_page (outline_level reader 1))).
    - now apply normalized_level.
    - now apply normalized_level.
    - now apply dedupe_by_page_nonempty.
    - rewrite (Permutation_length P0), (count_titles_perm _ P0). exact Hc. }
  split; [|split].
  - rewrite E. f_equal. apply (dedupe_by_page_eq (outline_level_uniform reader 1)).
  - rewrite E. now apply Permutation_map.
  - apply outline_entries_sorted.
Qed.

(** C4 on the sample outline: five part-titled entries at depth 0, twelve
    chapter-titled entries at depth 1, and the selector returns the twelve. *)
Lemma part_dominance_witness :
  List.length (first_per_page (outline_level parts_pdf 0)) = 5
  /\ count_titles (part_like_re (U:=ascii_repertoire))
                  (first_per_page (outline_level parts_pdf 0)) = 5
  /\ List.length (first_per_page (outline_level parts_pdf 1)) = 12
  /\ count_titles (chapter_like_re (U:=ascii_repertoire))
                  (first_per_page (outline_level parts_pdf 1)) = 12
  /\ get_pdf_outline_entries (U:=ascii_repertoire) parts_pdf
     = map without_level (sorted_by_page (first_per_page (outline_level parts_pdf 1)))
  /\ Permutation (get_pdf_outline_entries (U:=ascii_repertoire) parts_pdf)
                 (map without_level (first_per_page (outline_level parts_pdf 1)))
  /\ in_page_order (get_pdf_outline_entries (U:=ascii_repertoire) parts_pdf).
Proof.
  do 4 (split; [reflexivity|]).
  apply (@part_dominance_selects_level_1 ascii_repertoire parts_pdf).
  - discriminate.
  - vm_compute. lia.
Defined.

(** C4 as stated, with the counts taken over all level-0 entries of the
    outline, fails: of the five usable destinations at depth 0 two carry a
    part-like title, and depth 1 has entries, but two of the five share a
    page, so that of the four entries kept at depth 0 one carries a
    part-like title, and the selector returns those four. *)
Lemma part_dominance_counterexample :
  List.length (outline_level repeated_parts_pdf 0) = 5
  /\ count_titles (part_like_re (U:=ascii_repertoire))
                  (outline_level repeated_parts_pdf 0) = 2
  /\ Nat.max 2 (5 / 2) <= 2
  /\ List.length (first_per_page (outline_level repeated_parts_pdf 0)) = 4
  /\ count_titles (part_like_re (U:=ascii_repertoire))
                  (first_per_page (outline_level repeated_parts_pdf 0)) = 1
  /\ dedupe_by_page (outline_level repeated_parts_pdf 1)
     = [ {| le_title := py "Alpha"; le_page := 5; le_level := 1 |};
         {| le_title := py "Beta"; le_page := 6; le_level := 1 |} ]
  /\ get_pdf_outline_entries (U:=ascii_repertoire) repeated_parts_pdf
     = [ {| oe_title := py "Part I"; oe_page := 0 |};
         {| oe_title := py "Intro"; oe_page := 1 |};
         {| oe_title := py "Notes"; oe_page := 2 |};
         {| oe_title := py "Index"; oe_page := 3 |} ]
  /\ get_pdf_outline_entries (U:=ascii_repertoire) repeated_parts_pdf
     <> map without_level (dedupe_by_page (outline_level repeated_parts_pdf 1)).
Proof.
  split; [reflexivity|]. split; [reflexivity|]. split; [cbn; lia|].
  do 4 (split; [reflexivity|]). discriminate.
Qed.

Lemma slice_to_end {A} (l : list A) (a : nat) :
  slice l a (List.length l) = skipn a l.
Proof.
  unfold slice. apply firstn_all2. rewrite length_skipn. lia.
Qed.

Lemma slice_then_rest {A} (l : list A) (a b : nat) :
  a <= b -> slice l a b ++ skipn b l = skipn a l.
Proof.
  intros Hab. unfold slice.
  replace (skipn b l) with (skipn (b - a) (skipn a l)).
  - apply firstn_skipn.
  - rewrite skipn_skipn. f_equal. lia.
Qed.

(** The tiles of entries in strictly increasing page order cover the pages
    from the first entry's page on, each page once. *)
Lemma page_tiles_cover {A} (l : list A) (es : list OutlineEntry) :
  StronglySorted (fun a b => oe_page a < oe_page b) es ->
  forall e rest, es = e :: rest ->
    concat (map (fun rg => slice l (fst rg) (snd rg)) (page_tiles (List.length l) es))
    = skipn (oe_page e) l.
Proof.
  induction 1 as [|x es Hs IH Hx]; intros e rest E; [discriminate|].
  inversion E; subst. clear E. cbn [page_tiles].
  destruct (Nat.ltb_spec (oe_page e) (List.length l)) as [Hlt | Hge].
  - cbn [map concat fst snd].
    destruct rest as [|e' rest'].
    + simpl. rewrite Nat.min_id, app_nil_r. apply slice_to_end.
    + rewrite (IH e' rest' eq_refl). apply Forall_inv in Hx.
      destruct (Nat.le_gt_cases (List.length l) (oe_page e')) as [Hbig | Hsmall].
      * rewrite Nat.min_r by exact Hbig.
        rewrite (skipn_all2 l Hbig), app_nil_r. apply slice_to_end.
      * rewrite Nat.min_l by lia. apply slice_then_rest. lia.
  - simpl. symmetry. now apply skipn_all2.
Qed.

Lemma page_tiles_proper (total : nat) (es : list OutlineEntry) :
  StronglySorted (fun a b => oe_page a < oe_page b) es ->
  Forall (fun rg => fst rg < snd rg /\ snd rg <= total) (page_tiles total es).
Proof.
  induction 1 as [|x es Hs IH Hx]; simpl; [constructor|].
  destruct (Nat.ltb_spec (oe_page x) total) as [Hlt | Hge]; [|constructor].
  constructor; [|exact IH]. simpl.
  destruct es as [|e' es']; [lia|]. apply Forall_inv in Hx. lia.
Qed.

(** The ranges that the loop computes for the iterations that it does not
    skip are these tiles. *)
Lemma chapter_ranges_are_tiles (page_texts : list pystr) (es : list OutlineEntry) :
  StronglySorted (fun a b => oe_page a < oe_page b) es ->
  forall pre,
    map (fun ie => chapter_range page_texts
                     (pre ++ map oe_page es ++ [List.length page_texts]) (fst ie))
        (filter (fun ie => oe_page (snd ie) <? List.length page_texts)
                (combine (seq (List.length pre) (List.length es)) es))
    = page_tiles (List.length page_texts) es.
Proof.
  induction 1 as [|x es Hs IH Hx]; intros pre; [reflexivity|].
  cbn [List.length seq combine filter snd page_tiles].
  destruct (Nat.ltb_spec (oe_page x) (List.length page_texts)) as [Hlt | Hge].
  - cbn [map fst]. f_equal.
    + unfold chapter_range.
      assert (N0 : nth (List.length pre)
                       (pre ++ (oe_page x :: map oe_page es) ++ [List.length page_texts]) 0
                   = oe_page x).
      { rewrite app_nth2 by lia. now rewrite Nat.sub_diag. }
      assert (N1 : nth (List.length pre + 1)
                       (pre ++ (oe_page x :: map oe_page es) ++ [List.length page_texts]) 0
                   = match es with e' :: _ => oe_page e' | [] => List.length page_texts end).
      { rewrite app_nth2 by lia.
        replace (List.length pre + 1 - List.length pre) with 1 by lia.
        destruct es; reflexivity. }
      rewrite N0, N1. f_equal.
      destruct es as [|e' es']; [lia|]. apply Forall_inv in Hx. lia.
    + specialize (IH (pre ++ [oe_page x])).
      rewrite length_app in IH. simpl in IH.
      replace (List.length pre + 1) with (S (List.length pre)) in IH by lia.
      rewrite <- app_assoc in IH. exact IH.
  - (* past the end: so are all the later entries *)
    assert (F : filter (fun ie : nat * OutlineEntry =>
                          oe_page (snd ie) <? List.length page_texts)
                       (combine (seq (S (List.length pre)) (List.length es)) es) = []).
    { clear -Hx Hge. revert Hx. generalize (S (List.length pre)).
      induction es as [|e' es' IHes]; intros k Hx; [reflexivity|].
      simpl. inversion Hx as [|? ? He' Hx']; subst.
      destruct (Nat.ltb_spec (oe_page e') (List.length page_texts)); [lia|].
      now apply IHes. }
    rewrite F. reflexivity.
Qed.

Lemma Forall2_map_same {A B C} (P : B -> C -> Prop) (f : A -> B) (g : A -> C)
      (l : list A) :
  (forall x, P (f x) (g x)) -> Forall2 P (map f l) (map g l).
Proof. intros H. induction l; simpl; constructor; auto. Qed.

Section PdfRanges.
Context {U : Unicode}.

Lemma outline_entries_strict (r : PdfReader) :
  StronglySorted (fun a b => oe_page a < oe_page b) (get_pdf_outline_entries r).
Proof.
  destruct (entries_by_level r) as [|p l] eqn:E.
  - unfold get_pdf_outline_entries. rewrite E. constructor.
  - assert (Hne : entries_by_level r <> []) by (rewrite E; discriminate).
    destruct (selected_level_entries r Hne) as (lvl & es & _ & _ & ->).
    destruct (dedupe_by_page_facts es) as (S & _).
    clear -S. induction S as [|x l0 Hs IH Hx]; simpl; constructor; auto.
    apply Forall_forall. intros y Hy. apply in_map_iff in Hy.
    destruct Hy as (z & <- & Hz). rewrite Forall_forall in Hx.
    exact (Hx z Hz).
Qed.

Lemma outline_spine_ranges (r : PdfReader) (e : OutlineEntry) (rest : list OutlineEntry) :
  get_pdf_outline_entries r = e :: rest ->
  Forall2 (fun rg c =>
             ch_content c = text_to_html (range_text (page_texts_of r) rg)
             /\ ch_text c = join [32%N] (split_ws (range_text (page_texts_of r) rg)))
          (page_tiles (List.length (page_texts_of r)) (e :: rest))
          (fst (pdf_segments r)).
Proof.
  intros E. unfold pdf_segments. rewrite E, outline_segments. cbn [fst].
  rewrite outline_keep_page.
  pose proof (outline_entries_strict r) as S. rewrite E in S.
  rewrite <- (chapter_ranges_are_tiles (page_texts_of r) S []).
  unfold enumerate. apply Forall2_map_same. intros ie. split; reflexivity.
Qed.
End PdfRanges.

(** X7. With an outline, the chapters of a PDF are cut from consecutive page
    ranges: each range holds at least one page, and together the ranges hold
    every page from the first entry's page to the end of the document, each
    once and in order (the pages before the first entry go to no chapter). *)
Theorem pdf_chapters_tile_pages (U : Unicode) W path out log book log' r e rest :
  process_pdf W path out log = (inr book, log') ->
  pdf_at W path = Some r ->
  get_pdf_outline_entries r = e :: rest ->
  exists ranges : list (nat * nat),
    Forall2 (fun rg c =>
               ch_content c = text_to_html (range_text (page_texts_of r) rg)
               /\ ch_text c = join [32%N] (split_ws (range_text (page_texts_of r) rg)))
            ranges (book_spine book)
    /\ Forall (fun rg => fst rg < snd rg /\ snd rg <= List.length (pdf_pages r)) ranges
    /\ concat (map (fun rg => slice (page_texts_of r) (fst rg) (snd rg)) ranges)
       = skipn (oe_page e) (page_texts_of r).
Proof.
  intros Hrun Hr E. apply process_pdf_inv in Hrun.
  destruct Hrun as (r' & _ & Hr' & Hs & _).
  assert (r' = r) by congruence. subst r'.
  exists (page_tiles (List.length (page_texts_of r)) (e :: rest)).
  pose proof (outline_entries_strict r) as S. rewrite E in S.
  split; [|split].
  - rewrite Hs. now apply outline_spine_ranges.
  - replace (List.length (pdf_pages r)) with (List.length (page_texts_of r))
      by apply length_map.
    now apply page_tiles_proper.
  - exact (page_tiles_cover (page_texts_of r) S eq_refl).
Qed.

(** X7 on the sample PDF with an outline: twelve chapters, from page 1 on. *)
Lemma pdf_chapters_tile_witness :
  exists book log' ranges,
    process_pdf (U:=ascii_repertoire) sample_world (py "works.pdf") (py "works_data") []
    = (inr book, log')
    /\ List.length ranges = 12
    /\ Forall2 (fun rg c =>
                  ch_content c
                  = text_to_html (range_text (page_texts_of (U:=ascii_repertoire) parts_pdf) rg)
                  /\ ch_text c
                     = join [32%N]
                         (split_ws (range_text (page_texts_of (U:=ascii_repertoire) parts_pdf) rg)))
               ranges (book_spine book)
    /\ concat (map (fun rg => slice (page_texts_of (U:=ascii_repertoire) parts_pdf)
                                    (fst rg) (snd rg)) ranges)
       = skipn 1 (page_texts_of (U:=ascii_repertoire) parts_pdf).
Proof.
  eexists. eexists.
  match goal with
  | |- exists ranges, ?run = (inr ?b, ?l) /\ _ =>
      edestruct (@pdf_chapters_tile_pages ascii_repertoire sample_world
                   (py "works.pdf") (py "works_data") [] b l parts_pdf
                   {| oe_title := py "Chapter 1"; oe_page := 1 |})
        as (ranges & F2 & _ & C)
  end.
  - evaluate_run.
  - reflexivity.
  - evaluate_run.
  - exists ranges. split; [reflexivity|]. split; [|split; [exact F2 | exact C]].
    apply Forall2_length in F2. rewrite F2. reflexivity.
Defined.

(** ** Chapter keys of a PDF *)

Lemma digits_of_uint_inj (d d' : Decimal.uint) :
  digits_of_uint d = digits_of_uint d' -> d = d'.
Proof.
  revert d'. induction d; intros d'; destruct d'; simpl; intros E;
    try discriminate; try reflexivity;
    inversion E; f_equal; auto.
Qed.

Lemma str_of_nat_inj (n m : nat) : str_of_nat n = str_of_nat m -> n = m.
Proof.
  unfold str_of_nat. intros E.
  apply digits_of_uint_inj in E. now apply Unsigned.to_uint_inj.
Qed.

Lemma truthy_true_nonempty (s : pystr) : truthy s = true -> s <> [].
Proof. destruct s; simpl; congruence. Qed.

Lemma numbered_ids_distinct {A} (pre : pystr) (f : nat * A -> ChapterContent)
      (l : list (nat * A)) :
  (forall x, ch_id (f x) = pre ++ str_of_nat (fst x + 1)) ->
  StronglySorted (fun a b : nat * A => fst a < fst b) l ->
  NoDup (map ch_id (map f l)).
Proof.
  intros Hid. induction 1 as [|x l Hs IH Hx]; simpl; constructor; auto.
  intros Hin. rewrite map_map in Hin. apply in_map_iff in Hin.
  destruct Hin as (y & Ey & Hy). rewrite !Hid in Ey.
  apply app_inv_head, str_of_nat_inj in Ey.
  rewrite Forall_forall in Hx. specialize (Hx y Hy). lia.
Qed.

Section PdfKeys.
Context {U : Unicode}.

Lemma pdf_segments_keys (r : PdfReader) :
  NoDup (map ch_id (fst (pdf_segments r)))
  /\ Forall (fun c => ch_href c = ch_id c /\ ch_title c <> [])
            (fst (pdf_segments r)).
Proof.
  unfold pdf_segments.
  destruct (get_pdf_outline_entries r) as [|e es].
  - rewrite page_segments. cbn [fst]. split.
    + apply (numbered_ids_distinct (py "page-")); [reflexivity|].
      apply combine_seq_sorted.
    + apply Forall_forall. intros c Hc. apply in_map_iff in Hc.
      destruct Hc as (x & <- & _). split; [reflexivity | discriminate].
  - rewrite outline_segments. cbn [fst]. split.
    + apply (numbered_ids_distinct (py "chapter-")); [reflexivity|].
      apply StronglySorted_filter, combine_seq_sorted.
    + apply Forall_forall. intros c Hc. apply in_map_iff in Hc.
      destruct Hc as ([i x] & <- & _). split; [reflexivity|].
      unfold outline_chapter. cbn [ch_title snd fst or_else].
      destruct (truthy (oe_title x)) eqn:T.
      * now apply truthy_true_nonempty.
      * discriminate.
Qed.
End PdfKeys.

(** X8. In a book made from a PDF the chapter ids are pairwise distinct,
    every chapter's href is its id, and no chapter title is empty. *)
Theorem pdf_chapter_keys_distinct (U : Unicode) W path out log book log' :
  process_pdf W path out log = (inr book, log') ->
  NoDup (map ch_id (book_spine book))
  /\ Forall (fun c => ch_href c = ch_id c /\ ch_title c <> []) (book_spine book).
Proof.
  intros Hrun. apply process_pdf_inv in Hrun.
  destruct Hrun as (r & _ & _ & Hs & _). rewrite Hs.
  apply pdf_segments_keys.
Qed.

(** X8 on the sample PDF with an outline. *)
Lemma pdf_chapter_keys_witness :
  exists book log',
    process_pdf (U:=ascii_repertoire) sample_world (py "works.pdf") (py "works_data") []
    = (inr book, log')
    /\ NoDup (map ch_id (book_spine book))
    /\ Forall (fun c => ch_href c = ch_id c /\ ch_title c <> []) (book_spine book).
Proof.
  eexists. eexists. split; [evaluate_run|].
  eapply (@pdf_chapter_keys_distinct ascii_repertoire sample_world
            (py "works.pdf") (py "works_data") []).
  evaluate_run.
Defined.

(** ** Normalized PDF text *)

Lemma lstrip_suffix (s : pystr) : exists w, s = w ++ lstrip s.
Proof.
  induction s as [|c s [w IH]]; simpl.
  - now exists [].
  - destruct (isspace c).
    + exists (c :: w). simpl. now f_equal.
    + now exists [].
Qed.

Lemma rstrip_prefix (s : pystr) : exists w, s = rstrip s ++ w.
Proof.
  unfold rstrip. destruct (lstrip_suffix (rev s)) as [w E].
  exists (rev w). rewrite <- rev_app_distr, <- E. now rewrite rev_involutive.
Qed.

Lemma strip_infix (s : pystr) : exists a b, s = a ++ strip s ++ b.
Proof.
  unfold strip. destruct (lstrip_suffix s) as [a Ea].
  destruct (rstrip_prefix (lstrip s)) as [b Eb].
  exists a, b. now rewrite <- Eb.
Qed.

Lemma strip_trimmed (s : pystr) : trimmed (strip s).
Proof.
  unfold strip. split.
  - intros c r E.
    destruct (lstrip_blank_or_head s) as [E0 | (c0 & r0 & E0 & Hc0)].
    + rewrite E0 in E. discriminate.
    + destruct (rstrip_prefix (lstrip s)) as [w Ew].
      rewrite E, E0 in Ew. inversion Ew; subst. exact Hc0.
  - intros c r E. unfold rstrip in E.
    assert (E' : lstrip (rev (lstrip s)) = c :: rev r).
    { rewrite <- (rev_involutive (lstrip (rev (lstrip s)))), E.
      rewrite rev_app_distr. reflexivity. }
    destruct (lstrip_blank_or_head (rev (lstrip s))) as [E0 | (c0 & r0 & E0 & Hc0)].
    + rewrite E0 in E'. discriminate.
    + rewrite E0 in E'. inversion E'; subst. exact Hc0.
Qed.

Lemma replace_aux_chars (old new : pystr) (s : pystr) :
  forall k c, In c (replace_aux old new k s) -> In c s \/ In c new.
Proof.
  induction s as [|d s IH]; intros k c; [simpl; tauto|].
  cbn [replace_aux]. destruct k as [|k].
  - destruct (startswith (d :: s) old).
    + intros Hc. apply in_app_or in Hc. destruct Hc as [Hc | Hc]; [auto|].
      apply IH in Hc. destruct Hc; [left; now right | now right].
    + intros [<- | Hc]; [left; now left|].
      apply IH in Hc. destruct Hc; [left; now right | now right].
  - intros Hc. apply IH in Hc. destruct Hc; [left; now right | now right].
Qed.

Lemma startswith_nil (s : pystr) : startswith s [] = true.
Proof. destruct s; reflexivity. Qed.

Lemma replace_cr_gone (s : pystr) : ~ In CR (replace [CR] [LF] s).
Proof.
  unfold replace. induction s as [|d s IH]; [simpl; tauto|].
  cbn [replace_aux startswith List.length Nat.sub].
  rewrite startswith_nil, andb_true_r.
  destruct (N.eqb_spec CR d) as [<- | Hd].
  - intros Hc. destruct Hc as [E | Hc]; [discriminate | auto].
  - intros Hc. destruct Hc as [E | Hc]; [congruence | auto].
Qed.

Lemma span_ws_app (s : pystr) : forall w r, span_ws s = (w, r) -> s = w ++ r.
Proof.
  induction s as [|c s IH]; simpl; intros w r E.
  - inversion E. reflexivity.
  - destruct (isspace c).
    + destruct (span_ws s) as [w' r'] eqn:S. inversion E; subst.
      simpl. f_equal. now apply IH.
    + inversion E. reflexivity.
Qed.

Lemma hyphen_break_at_chars (s : pystr) l1 l2 n :
  hyphen_break_at s = Some (l1, l2, n) -> In l1 s /\ In l2 s.
Proof.
  unfold hyphen_break_at. destruct s as [|a [|h rest]]; try discriminate.
  destruct (ascii_letter a && hyphen_like h); [|discriminate].
  destruct (span_ws rest) as [w r] eqn:S.
  destruct r as [|b r']; [discriminate|].
  destruct (mem LF w && ascii_letter b); [|discriminate].
  intros E. inversion E; subst. split; [now left|].
  right. right. rewrite (span_ws_app _ S). apply in_or_app. right. now left.
Qed.

Lemma merge_hyphen_chars (s : pystr) :
  forall k c, In c (merge_hyphen_aux k s) -> In c s.
Proof.
  induction s as [|d s IH]; intros k c; [simpl; tauto|].
  cbn [merge_hyphen_aux]. destruct k as [|k].
  - destruct (hyphen_break_at (d :: s)) as [[[l1 l2] n]|] eqn:B.
    + apply hyphen_break_at_chars in B. destruct B as [B1 B2].
      intros [<- | [<- | Hc]]; auto. right. eapply IH; eauto.
    + intros [<- | Hc]; [now left|]. right. eapply IH; eauto.
  - intros Hc. right. eapply IH; eauto.
Qed.

Lemma split_on_fields (c : N) (s : pystr) :
  forall f x, In f (split_on c s) -> In x f -> In x s /\ x <> c.
Proof.
  induction s as [|d s IH]; intros f x; simpl.
  - intros [<- | []] [].
  - destruct (N.eqb_spec d c) as [-> | Hd].
    + intros [<- | Hf]; [intros []|]. intros Hx.
      destruct (IH _ _ Hf Hx). auto.
    + destruct (split_on c s) as [|g gs] eqn:S.
      * intros [<- | []] [<- | []]. auto.
      * intros [<- | Hf].
        -- intros [<- | Hx]; [auto|].
           destruct (IH g x (or_introl eq_refl) Hx). auto.
        -- intros Hx. destruct (IH f x (or_intror Hf) Hx). auto.
Qed.

Lemma split_on_nonempty (c : N) (s : pystr) : split_on c s <> [].
Proof.
  destruct s as [|d s]; simpl; [discriminate|].
  destruct (N.eqb d c); [discriminate|]. destruct (split_on c s); discriminate.
Qed.

Lemma rebuilt_last_in (ls : list pystr) (x : pystr) :
  rebuilt_last ls = Some x -> In x ls.
Proof.
  unfold rebuilt_last. destruct (rev ls) as [|y r] eqn:E; [discriminate|].
  intros H. inversion H; subst. apply in_rev. rewrite E. now left.
Qed.

Lemma rebuilt_last_app (ls : list pystr) (x : pystr) :
  rebuilt_last (ls ++ [x]) = Some x.
Proof. unfold rebuilt_last. now rewrite rev_app_distr. Qed.

Lemma removelast_incl {A} (l : list A) (x : A) : In x (removelast l) -> In x l.
Proof.
  induction l as [|a l IH]; simpl; [tauto|].
  destruct l as [|b l]; [intros []|].
  intros [<- | Hx]; [now left | right; now apply IH].
Qed.

Section NormalizerProperties.
Context {U : Unicode}.

Lemma rebuild_step_chars (Q : N -> Prop) (rebuilt : list pystr) (line : pystr) :
  Q 32%N ->
  Forall (Forall Q) rebuilt -> Forall Q line ->
  Forall (Forall Q) (rebuild_step rebuilt line).
Proof.
  intros Q32 Hr Hl.
  assert (Hs : Forall Q (strip line)).
  { apply Forall_forall. intros c Hc. apply strip_incl in Hc.
    rewrite Forall_forall in Hl. auto. }
  assert (Happ : forall x, Forall Q x -> Forall (Forall Q) (rebuilt ++ [x])).
  { intros x Hx. apply Forall_app. split; [exact Hr | repeat constructor; exact Hx]. }
  unfold rebuild_step.
  destruct (negb (truthy (strip line))); [apply Happ; constructor|].
  destruct (rebuilt_last rebuilt) as [prev|] eqn:L; [|now apply Happ].
  destruct (negb (truthy prev)); [now apply Happ|].
  destruct (list_like (strip line)); [now apply Happ|].
  destruct (negb (ends_terminal prev)); [|now apply Happ].
  apply Forall_app. split.
  - apply Forall_forall. intros x Hx. apply removelast_incl in Hx.
    rewrite Forall_forall in Hr. auto.
  - repeat constructor. apply Forall_app. split.
    + apply rebuilt_last_in in L. rewrite Forall_forall in Hr. auto.
    + constructor; assumption.
Qed.

Lemma rebuilt_chars (Q : N -> Prop) (lines : list pystr) :
  Q 32%N -> Forall (Forall Q) lines ->
  forall acc, Forall (Forall Q) acc ->
              Forall (Forall Q) (fold_left rebuild_step lines acc).
Proof.
  intros Q32. induction 1 as [|l lines Hl _ IH]; intros acc Ha; simpl; [exact Ha|].
  apply IH. now apply rebuild_step_chars.
Qed.

Lemma compact_step_facts (Q : N -> Prop) (compact : list pystr) (line : pystr) :
  Forall (Forall Q) compact /\ no_blank_pair compact ->
  Forall Q line ->
  Forall (Forall Q) (compact_step compact line)
  /\ no_blank_pair (compact_step compact line).
Proof.
  intros [Hc Hn] Hl.
  assert (Happ : Forall (Forall Q) (compact ++ [line])).
  { apply Forall_app. split; [exact Hc | repeat constructor; exact Hl]. }
  assert (Hpair : (rebuilt_last compact = Some [] -> line <> []) ->
                  no_blank_pair (compact ++ [line])).
  { clear -Hn. intros Hlast.
    induction compact as [|x compact IH]; [exact I|].
    destruct compact as [|y compact].
    - simpl. split; [|exact I]. intros [-> ->].
      now apply Hlast.
    - destruct Hn as [Hxy Hn]. cbn [app]. cbn [no_blank_pair]. split; [exact Hxy|].
      apply IH; [exact Hn|].
      intros L. apply Hlast. unfold rebuilt_last in *. cbn [rev] in *.
      destruct (rev compact ++ [y]) as [|z zs] eqn:R.
      + destruct (rev compact); discriminate.
      + simpl. exact L. }
  unfold compact_step.
  destruct line as [|c line].
  - destruct (rebuilt_last compact) as [[|d prev]|] eqn:L.
    + auto.
    + split; [exact Happ|]. apply Hpair. discriminate.
    + split; [exact Happ|]. apply Hpair. discriminate.
  - split; [exact Happ|]. apply Hpair. discriminate.
Qed.

Lemma compact_facts (Q : N -> Prop) (rebuilt : list pystr) :
  Forall (Forall Q) rebuilt ->
  forall acc,
    Forall (Forall Q) acc /\ no_blank_pair acc ->
    Forall (Forall Q) (fold_left compact_step rebuilt acc)
    /\ no_blank_pair (fold_left compact_step rebuilt acc).
Proof.
  induction 1 as [|l rebuilt Hl _ IH]; intros acc Ha; simpl; [exact Ha|].
  apply IH. now apply compact_step_facts.
Qed.

(** The lines that go into the final join hold neither carriage returns nor
    line feeds, and no two neighbours among them are both empty. *)
Lemma normalized_lines (text : pystr) :
  let normalized := merge_hyphen (replace [CR] [LF] (replace [CR; LF] [LF] text)) in
  let compact :=
    fold_left compact_step
              (fold_left rebuild_step (split_on LF normalized) []) [] in
  Forall (Forall (fun c => c <> CR /\ c <> LF)) compact /\ no_blank_pair compact.
Proof.
  intros normalized compact. unfold compact.
  apply compact_facts; [|split; [constructor | exact I]].
  apply rebuilt_chars; [split; discriminate | | constructor].
  apply Forall_forall. intros f Hf. apply Forall_forall. intros x Hx.
  destruct (split_on_fields _ _ _ _ Hf Hx) as [Hin Hlf]. split; [|exact Hlf].
  intros ->. unfold normalized in Hin. apply merge_hyphen_chars in Hin.
  now apply replace_cr_gone in Hin.
Qed.
End NormalizerProperties.

Lemma join_chars (sep : pystr) (ls : list pystr) (c : N) :
  In c (join sep ls) -> In c sep \/ exists l, In l ls /\ In c l.
Proof.
  induction ls as [|x ls IH]; [simpl; tauto|].
  destruct ls as [|y ls].
  - simpl. intros Hc. right. exists x. auto.
  - change (join sep (x :: y :: ls)) with (x ++ sep ++ join sep (y :: ls)).
    intros Hc. apply in_app_or in Hc. destruct Hc as [Hc | Hc].
    + right. exists x. split; [now left | exact Hc].
    + apply in_app_or in Hc. destruct Hc as [Hc | Hc]; [now left|].
      destruct (IH Hc) as [Hs | (l & Hl & Hcl)]; [now left|].
      right. exists l. split; [now right | exact Hcl].
Qed.

Lemma lf_runs_mono (s : pystr) :
  forall n m, m <= n -> lf_runs_within n s = true -> lf_runs_within m s = true.
Proof.
  induction s as [|c s IH]; intros n m Hmn; simpl; [auto|].
  destruct (N.eqb c LF); [|auto].
  rewrite !andb_true_iff, !Nat.ltb_lt. intros [Hn Hs]. split; [lia|].
  apply (IH (S n)); [lia | exact Hs].
Qed.

Lemma lf_runs_suffix (a b : pystr) :
  forall n, lf_runs_within n (a ++ b) = true -> lf_runs_within 0 b = true.
Proof.
  induction a as [|c a IH]; intros n; simpl.
  - apply lf_runs_mono. lia.
  - destruct (N.eqb c LF); [|apply IH].
    rewrite andb_true_iff. intros [_ Hs]. eapply IH; eauto.
Qed.

Lemma lf_runs_block (x s : pystr) :
  Forall (fun c => c <> CR /\ c <> LF) x -> x <> [] ->
  forall n, lf_runs_within n (x ++ s) = lf_runs_within 0 s.
Proof.
  intros Hx Hne n. destruct Hx as [|c x [_ Hc] Hx]; [congruence|]. clear Hne.
  simpl. apply N.eqb_neq in Hc. rewrite Hc. clear c Hc n.
  induction Hx as [|d x [_ Hd] _ IH]; simpl; [reflexivity|].
  apply N.eqb_neq in Hd. now rewrite Hd.
Qed.

(** Joined by line feeds, lines without line feeds of which no two
    neighbours are empty never put three line feeds in a row. *)
Lemma join_lf_runs (ls : list pystr) :
  Forall (Forall (fun c => c <> CR /\ c <> LF)) ls -> no_blank_pair ls ->
  lf_runs_within 1 (join [LF] ls) = true
  /\ (forall x rest, ls = x :: rest -> x <> [] ->
        forall n, lf_runs_within n (join [LF] ls) = true).
Proof.
  induction 1 as [|x ls Hx Hls IH]; intros Hn.
  - split; [reflexivity | intros; discriminate].
  - destruct ls as [|y ls].
    + simpl. split.
      * destruct x as [|c x]; [reflexivity|].
        rewrite <- (app_nil_r (c :: x)), lf_runs_block by (auto; discriminate).
        reflexivity.
      * intros x0 rest E Hne n. inversion E; subst.
        rewrite <- (app_nil_r x0), lf_runs_block by auto. reflexivity.
    + destruct Hn as [Hxy Hn]. destruct (IH Hn) as [IH1 IH2].
      change (join [LF] (x :: y :: ls)) with (x ++ LF :: join [LF] (y :: ls)).
      assert (Hblock : x <> [] ->
                forall n, lf_runs_within n (x ++ LF :: join [LF] (y :: ls)) = true).
      { intros Hne n. rewrite lf_runs_block by auto.
        simpl. exact IH1. }
      split.
      * destruct x as [|c x]; [|apply Hblock; discriminate].
        simpl. apply (IH2 y ls eq_refl).
        intros ->. now apply Hxy.
      * intros x0 rest E Hne n. inversion E; subst. now apply Hblock.
Qed.

(** X9. The result of [normalize_pdf_text] holds no carriage return, and it
    neither starts nor ends with white space. *)
Theorem normalize_unifies_line_ends (U : Unicode) (text : pystr) :
  ~ In CR (normalize_pdf_text text) /\ trimmed (normalize_pdf_text text).
Proof.
  unfold normalize_pdf_text.
  destruct (negb (truthy text)).
  - split; [intros [] | split; intros c r E; [discriminate|]].
    destruct r; discriminate.
  - split; [|apply strip_trimmed].
    intros Hc. apply strip_incl, join_chars in Hc.
    destruct Hc as [[E | []] | (l & Hl & Hcl)]; [discriminate|].
    destruct (normalized_lines text) as [F _]. cbv zeta in F.
    rewrite Forall_forall in F. specialize (F l Hl).
    rewrite Forall_forall in F. destruct (F _ Hcl) as [Hcr _]. congruence.
Qed.

(** X10. The result of [normalize_pdf_text] never holds three line feeds in
    a row: no two blank lines follow each other. *)
Theorem normalize_collapses_blank_lines (U : Unicode) (text : pystr) :
  forall a b, normalize_pdf_text text <> a ++ [LF; LF; LF] ++ b.
Proof.
  intros a b E. unfold normalize_pdf_text in E.
  destruct (negb (truthy text)).
  - destruct a; discriminate.
  - destruct (normalized_lines text) as [F N]. cbv zeta in F, N.
    destruct (join_lf_runs F N) as [J _].
    apply lf_runs_mono with (m := 0) in J; [|lia].
    match type of E with strip ?s = _ =>
      destruct (strip_infix s) as (p & q & S); rewrite E in S; rewrite S in J
    end.
    apply lf_runs_suffix in J. rewrite <- app_assoc in J.
    apply lf_runs_suffix in J. discriminate J.
Qed.

Section BlankText.
Context {U : Unicode}.

Lemma rebuild_blank_lines (lines : list pystr) :
  Forall blank lines ->
  forall acc, fold_left rebuild_step lines acc = acc ++ repeat [] (List.length lines).
Proof.
  induction 1 as [|l lines Hl _ IH]; intros acc; simpl.
  - now rewrite app_nil_r.
  - rewrite IH. unfold rebuild_step.
    apply strip_nil in Hl. rewrite Hl. simpl.
    now rewrite <- app_assoc.
Qed.

Lemma compact_blank_lines (n : nat) :
  fold_left compact_step (repeat [] (S n)) [] = [[]].
Proof.
  simpl. change (compact_step [] []) with [@nil N].
  induction n as [|n IH]; [reflexivity|]. simpl. exact IH.
Qed.
End BlankText.

(** X11. A text of white space only normalizes to the empty string, which
    [text_to_html] renders as one empty paragraph. *)
Theorem blank_text_normalizes_to_empty (U : Unicode) (text : pystr) :
  Forall (fun c => isspace c = true) text ->
  normalize_pdf_text text = []
  /\ text_to_html (normalize_pdf_text text) = py "<p></p>".
Proof.
  intros Hb.
  assert (E : normalize_pdf_text text = []); [|rewrite E; split; reflexivity].
  unfold normalize_pdf_text. destruct (negb (truthy text)); [reflexivity|].
  set (normalized := merge_hyphen (replace [CR] [LF] (replace [CR; LF] [LF] text))).
  assert (Hn : Forall (fun c => isspace c = true) normalized).
  { apply Forall_forall. intros c Hc. unfold normalized in Hc.
    apply merge_hyphen_chars in Hc.
    apply replace_aux_chars in Hc. destruct Hc as [Hc | [<- | []]]; [|reflexivity].
    apply replace_aux_chars in Hc. destruct Hc as [Hc | [<- | []]]; [|reflexivity].
    rewrite Forall_forall in Hb. auto. }
  assert (Hl : Forall blank (split_on LF normalized)).
  { apply Forall_forall. intros f Hf. apply Forall_forall. intros x Hx.
    destruct (split_on_fields _ _ _ _ Hf Hx) as [Hin _].
    rewrite Forall_forall in Hn. auto. }
  rewrite (rebuild_blank_lines Hl). cbn [app].
  destruct (List.length (split_on LF normalized)) as [|n] eqn:L.
  - apply length_zero_iff_nil in L. now apply split_on_nonempty in L.
  - rewrite compact_blank_lines. reflexivity.
Qed.

(** X11 on a page of blanks, tabs and line ends. *)
Lemma blank_text_witness :
  normalize_pdf_text (U:=ascii_repertoire) [32; 9; CR; LF; LF; 32; 12]%N = []
  /\ text_to_html (normalize_pdf_text (U:=ascii_repertoire) [32; 9; CR; LF; LF; 32; 12]%N)
     = py "<p></p>".
Proof.
  apply (@blank_text_normalizes_to_empty ascii_repertoire).
  repeat constructor.
Defined.

(** ** Escaping *)

Lemma escape_char_plain (c : N) : Forall (fun x => ~ markup_char x) (escape_char c).
Proof.
  unfold escape_char, markup_char.
  destruct (N.eqb_spec c 38); [vm_compute; repeat constructor; intuition discriminate|].
  destruct (N.eqb_spec c 60); [vm_compute; repeat constructor; intuition discriminate|].
  destruct (N.eqb_spec c 62); [vm_compute; repeat constructor; intuition discriminate|].
  destruct (N.eqb_spec c 34); [vm_compute; repeat constructor; intuition discriminate|].
  destruct (N.eqb_spec c 39); [vm_compute; repeat constructor; intuition discriminate|].
  repeat constructor. simpl. intuition congruence.
Qed.

Lemma escape_plain (s : pystr) : Forall (fun x => ~ markup_char x) (escape s).
Proof.
  unfold escape. induction s as [|c s IH]; simpl; [constructor|].
  apply Forall_app. split; [apply escape_char_plain | exact IH].
Qed.

(** X12. The markup that [text_to_html] returns is a non-empty sequence of
    paragraph elements whose bodies hold no '<', '>' or quote character:
    nothing of the text can act as markup. *)
Theorem text_to_html_bodies_escaped (text : pystr) :
  exists bodies,
    bodies <> []
    /\ text_to_html text = concat (map (fun b => py "<p>" ++ b ++ py "</p>") bodies)
    /\ Forall (Forall (fun c => ~ markup_char c)) bodies.
Proof.
  rewrite text_to_html_eq.
  destruct (filter nonblank (splitlines text)) as [|l ls].
  - exists [[]]. split; [discriminate|]. split; [reflexivity|]. repeat constructor.
  - exists (map (fun line => escape (strip line)) (l :: ls)).
    split; [discriminate|]. split.
    + rewrite map_map. reflexivity.
    + apply Forall_forall. intros b Hb. apply in_map_iff in Hb.
      destruct Hb as (x & <- & _). apply escape_plain.
Qed.

(** ** Runs of the EPUB conversion *)

Section EpubRuns.
Context {U : Unicode} {H : Html}.

Lemma process_epub_loaded W path out log b :
  endswith (str_lower path) (py ".epub") = true ->
  epub_at W path = Some b ->
  process_epub W path out log
  = match for_each (epub_items b) (image_step W (path_join out (py "images"))) []
                   (epub_log_before_images W path out log) with
    | (inl e, log2) => (inl e, log2)
    | (inr image_map, log2) =>
        match epub_toc b with
        | TocBareLink _ =>
            (inl TypeError, log2 ++ [Print (py "Parsing Table of Contents...")])
        | TocItems toc_list =>
            (inr (epub_book W path b toc_list image_map),
             log2 ++ [Print (py "Parsing Table of Contents...")]
                  ++ (match parse_toc_recursive toc_list 0 with
                      | [] => [Print (py "Warning: Empty TOC, building fallback from Spine...")]
                      | _ => []
                      end)
                  ++ [Print (py "Processing chapters...")])
        end
    end.
Proof.
  intros Hext Hb. unfold process_epub, epub_log_before_images, epub_book.
  rewrite Hext. cbn [negb]. run_monad. rewrite Hb. cbn [fst snd].
  destruct (exists_at W out).
  - rewrite <- !app_assoc. cbn [app].
    match goal with
    | |- context [for_each ?xs ?body ?st ?l] =>
        destruct (for_each xs body st l) as [[e|image_map] l2]
    end; [reflexivity|].
    destruct (epub_toc b) as [toc_list|]; [|reflexivity].
    destruct (parse_toc_recursive toc_list 0);
      rewrite <- ?app_assoc; reflexivity.
  - rewrite <- !app_assoc. cbn [app].
    match goal with
    | |- context [for_each ?xs ?body ?st ?l] =>
        destruct (for_each xs body st l) as [[e|image_map] l2]
    end; [reflexivity|].
    destruct (epub_toc b) as [toc_list|]; [|reflexivity].
    destruct (parse_toc_recursive toc_list 0);
      rewrite <- ?app_assoc; reflexivity.
Qed.

Lemma process_epub_not_loaded W path out log :
  (endswith (str_lower path) (py ".epub") = false ->
   exists msg, process_epub W path out log = (inl (ValueError msg), log))
  /\ (endswith (str_lower path) (py ".epub") = true ->
      epub_at W path = None -> epub_faulty W path = None ->
      process_epub W path out log
      = (inl (ReadError path),
         log ++ [Print (py "Loading " ++ path ++ py "..."); ReadFile path])).
Proof.
  unfold process_epub. split.
  - intros Hext. rewrite Hext. cbn [negb]. eexists. reflexivity.
  - intros Hext Hb Hf. rewrite Hext. cbn [negb]. run_monad. rewrite Hb, Hf.
    rewrite <- app_assoc. reflexivity.
Qed.

(** A run on an EPUB that opens and on which a later call raises. *)
Lemma process_epub_faulty W path out log b fault :
  endswith (str_lower path) (py ".epub") = true ->
  epub_at W path = None -> epub_faulty W path = Some (b, fault) ->
  process_epub W path out log
  = match fault with
    | EpubMetadataRaises =>
        (inl (SourceError path),
         log ++ [Print (py "Loading " ++ path ++ py "..."); ReadFile path])
    | EpubRmtreeRaises =>
        (inl (DirectoryError out),
         log ++ [Print (py "Loading " ++ path ++ py "..."); ReadFile path; Rmtree out])
    | EpubMakedirsRaises =>
        (inl (DirectoryError (path_join out (py "images"))),
         log ++ [Print (py "Loading " ++ path ++ py "..."); ReadFile path]
             ++ (if exists_at W out then [Rmtree out] else [])
             ++ [Makedirs (path_join out (py "images"))])
    end.
Proof.
  intros Hext Hb Hf. unfold process_epub. rewrite Hext. cbn [negb].
  run_monad. rewrite Hb, Hf. cbn [fst snd].
  destruct fault.
  - rewrite <- app_assoc. reflexivity.
  - rewrite <- !app_assoc. reflexivity.
  - destruct (exists_at W out); rewrite <- !app_assoc; reflexivity.
Qed.

Lemma process_pdf_not_loaded W path out log :
  (endswith (str_lower path) (py ".pdf") = false ->
   exists msg, process_pdf W path out log = (inl (ValueError msg), log))
  /\ (endswith (str_lower path) (py ".pdf") = true ->
      pdf_at W path = None -> pdf_faulty W path = None ->
      process_pdf W path out log
      = (inl (ReadError path),
         log ++ [Print (py "Loading " ++ path ++ py "..."); ReadFile path])).
Proof.
  unfold process_pdf. split.
  - intros Hext. rewrite Hext. cbn [negb]. eexists. reflexivity.
  - intros Hext Hb Hf. rewrite Hext. cbn [negb]. run_monad. rewrite Hb, Hf.
    rewrite <- app_assoc. reflexivity.
Qed.

(** A run on a PDF that opens and on which a later call raises. *)
Lemma process_pdf_faulty W path out log r fault :
  endswith (str_lower path) (py ".pdf") = true ->
  pdf_at W path = None -> pdf_faulty W path = Some (r, fault) ->
  process_pdf W path out log
  = match fault with
    | PdfRmtreeRaises =>
        (inl (DirectoryError out),
         log ++ [Print (py "Loading " ++ path ++ py "..."); ReadFile path; Rmtree out])
    | PdfMakedirsRaises =>
        (inl (DirectoryError out),
         log ++ [Print (py "Loading " ++ path ++ py "..."); ReadFile path]
             ++ (if exists_at W out then [Rmtree out] else [])
             ++ [Makedirs out])
    | PdfMetadataRaises =>
        (inl (SourceError path),
         log ++ [Print (py "Loading " ++ path ++ py "..."); ReadFile path]
             ++ (if exists_at W out then [Rmtree out] else [])
             ++ [Makedirs out])
    | PdfPagesRaise =>
        (inl (SourceError path),
         log ++ [Print (py "Loading " ++ path ++ py "..."); ReadFile path]
             ++ (if exists_at W out then [Rmtree out] else [])
             ++ [Makedirs out; Print (py "Extracting PDF text...")])
    end.
Proof.
  intros Hext Hb Hf. unfold process_pdf. rewrite Hext. cbn [negb].
  run_monad. rewrite Hb, Hf. cbn [fst snd].
  destruct fault.
  - rewrite <- !app_assoc. reflexivity.
  - destruct (exists_at W out); rewrite <- !app_assoc; reflexivity.
  - destruct (exists_at W out); rewrite <- !app_assoc; reflexivity.
  - destruct (exists_at W out); rewrite <- !app_assoc; reflexivity.
Qed.

End EpubRuns.

Section FailingRuns.
Context {U : Unicode} {H : Html}.



End FailingRuns.



Section AssetWrites.
Context {U : Unicode} {H : Html}.

Lemma image_loop_stops W out (pre : list EpubItem) (it : EpubItem) (post : list EpubItem) :
  item_type it = ITEM_IMAGE ->
  writable W (asset_target out it) = false ->
  Forall (fun x => item_type x = ITEM_IMAGE -> writable W (asset_target out x) = true) pre ->
  forall st log,
  exists log',
    for_each (pre ++ it :: post) (image_step W (path_join out (py "images"))) st log
    = (inl (WriteError (asset_target out it)), log')
    /\ (forall ev, In ev log -> In ev log')
    /\ (forall x, In x pre -> item_type x = ITEM_IMAGE ->
                  In (WriteFile (asset_target out x) (item_content x)) log').
Proof.
  intros Hit Hw. induction 1 as [|x pre Hx _ IH]; intros st log.
  - exists log. cbn [app for_each]. unfold bind, image_step. rewrite Hit.
    fold (asset_target out it). rewrite Hw. run_monad.
    split; [reflexivity|]. split; [auto | intros x []].
  - cbn [app for_each]. unfold bind at 1.
    destruct (item_type x) eqn:T.
    + unfold image_step at 1. rewrite T. unfold ret at 1.
      destruct (IH st log) as (log' & E & Hl & Hwr). exists log'.
      split; [exact E|]. split; [exact Hl|].
      intros y [<- | Hy] Ty; [congruence | auto].
    + unfold image_step at 1. rewrite T. fold (asset_target out x).
      rewrite (Hx eq_refl). run_monad.
      match goal with
      | |- context [for_each _ _ ?st1 ?log1] =>
          destruct (IH st1 log1) as (log' & E & Hl & Hwr)
      end.
      exists log'. split; [exact E|]. split.
      * intros ev Hev. apply Hl. apply in_or_app. now left.
      * intros y [<- | Hy] Ty; [|auto].
        apply Hl. apply in_or_app. right. now left.
    + unfold image_step at 1. rewrite T. unfold ret at 1.
      destruct (IH st log) as (log' & E & Hl & Hwr). exists log'.
      split; [exact E|]. split; [exact Hl|].
      intros y [<- | Hy] Ty; [congruence | auto].
Qed.
End AssetWrites.

(** X14. When an image asset cannot be written, [process_epub] fails with
    the write error of the first such asset and returns no book; by then it
    has removed an existing output directory, created the image directory
    and written the assets before the failing one. *)
Theorem asset_write_failure_is_fatal (U : Unicode) (H : Html)
        W path out log b pre it post :
  endswith (str_lower path) (py ".epub") = true ->
  epub_at W path = Some b ->
  epub_items b = pre ++ it :: post ->
  item_type it = ITEM_IMAGE ->
  writable W (asset_target out it) = false ->
  Forall (fun x => item_type x = ITEM_IMAGE -> writable W (asset_target out x) = true) pre ->
  exists log',
    process_epub W path out log = (inl (WriteError (asset_target out it)), log')
    /\ In (Makedirs (path_join out (py "images"))) log'
    /\ (exists_at W out = true -> In (Rmtree out) log')
    /\ forall x, In x pre -> item_type x = ITEM_IMAGE ->
                 In (WriteFile (asset_target out x) (item_content x)) log'.
Proof.
  intros Hext Hb Hitems Hit Hw Hpre.
  rewrite (process_epub_loaded W path out log Hext Hb), Hitems.
  destruct (@image_loop_stops U W out pre it post Hit Hw Hpre [] (epub_log_before_images W path out log))
    as (log' & E & Hl & Hwr).
  exists log'. rewrite E. split; [reflexivity|]. split; [|split; [|exact Hwr]].
  - apply Hl. unfold epub_log_before_images.
    apply in_or_app. right. apply in_or_app. right. apply in_or_app. right. now left.
  - intros Hex. apply Hl. unfold epub_log_before_images. rewrite Hex.
    apply in_or_app. right. apply in_or_app. right. now left.
Qed.

(** X14 on the sample EPUB in a world where the cover cannot be written. *)
Lemma asset_write_failure_witness :
  exists log',
    process_epub (U:=ascii_repertoire) (H:=raw_html)
                 locked_world (py "book.epub") (py "book_data") []
    = (inl (WriteError (py "book_data/images/coverart1.JPG")), log')
    /\ In (Makedirs (py "book_data/images")) log'
    /\ In (Rmtree (py "book_data")) log'.
Proof.
  destruct (@asset_write_failure_is_fatal ascii_repertoire raw_html locked_world
              (py "book.epub") (py "book_data") [] sample_epub []
              {| item_id := py "cover-img"; item_name := py "Images/cover art(1).JPG";
                 item_type := ITEM_IMAGE; item_content := [255; 216; 255]%N |}
              (tl (epub_items sample_epub)))
    as (log' & E & Hm & Hr & _); try reflexivity.
  - constructor.
  - exists log'. split; [exact E|]. split; [exact Hm | exact (Hr eq_refl)].
Defined.

(** ** The image map *)

Lemma dict_get_set (d : list (pystr * pystr)) (k v key : pystr) :
  dict_get str_eqb (dict_set str_eqb d k v) key
  = if str_eqb key k then Some v else dict_get str_eqb d key.
Proof.
  induction d as [|[k' v'] d IH]; cbn [dict_set dict_get].
  - reflexivity.
  - destruct (str_eqb k k') eqn:Ek; cbn [dict_get].
    + apply str_eqb_eq in Ek. subst k'.
      destruct (str_eqb key k); reflexivity.
    + destruct (str_eqb key k') eqn:Ekey.
      * apply str_eqb_eq in Ekey. subst k'.
        destruct (str_eqb key k) eqn:E2; [|reflexivity].
        apply str_eqb_eq in E2. subst k.
        apply str_eqb_neq in Ek. now contradiction Ek.
      * exact IH.
Qed.

Lemma find_snoc {A} (f : A -> bool) (l : list A) (x : A) :
  find f (l ++ [x])
  = match find f l with
    | Some y => Some y
    | None => if f x then Some x else None
    end.
Proof.
  induction l as [|y l IH]; cbn [app find].
  - reflexivity.
  - destruct (f y); [reflexivity | exact IH].
Qed.

Section ImageMap.
Context {U : Unicode} {H : Html}.

Lemma image_loop_lookup W dir (items : list EpubItem) :
  forall st log st' log',
    for_each items (image_step W dir) st log = (inr st', log') ->
    forall key,
      dict_get str_eqb st' key
      = match find (registers key) (rev items) with
        | Some it => Some (asset_rel_path it)
        | None => dict_get str_eqb st key
        end.
Proof.
  induction items as [|it items IH]; intros st log st' log'; cbn [for_each].
  - unfold ret. intros E key. inversion E; subst. reflexivity.
  - unfold bind at 1.
    destruct (image_step W dir st it log) as [[e|st1] log1] eqn:B; [discriminate|].
    intros F key. rewrite (IH _ _ _ _ F key). cbn [rev]. rewrite find_snoc.
    destruct (find (registers key) (rev items)); [reflexivity|].
    unfold image_step in B. unfold registers.
    destruct (item_type it).
    + unfold ret in B. inversion B; subst. reflexivity.
    + destruct (writable W _); run_monad; [|discriminate].
      inversion B; subst. rewrite !dict_get_set. unfold asset_rel_path.
      destruct (str_eqb key (item_name it)),
               (str_eqb key (basename (item_name it))); reflexivity.
    + unfold ret in B. inversion B; subst. reflexivity.
Qed.
End ImageMap.

(** X15. In the book of a successful EPUB run, the image map answers a key
    with the relative path of the last image item of the container that
    has the key as its name or as the base name of its name, and with
    nothing when no image item has. *)
Theorem image_map_lookup (U : Unicode) (H : Html) W path out log book log' b :
  process_epub W path out log = (inr book, log') ->
  epub_at W path = Some b ->
  forall key,
    dict_get str_eqb (book_images book) key
    = option_map asset_rel_path (find (registers key) (rev (epub_items b))).
Proof.
  intros Hrun Hb key.
  destruct (endswith (str_lower path) (py ".epub")) eqn:Hext.
  - rewrite (process_epub_loaded W path out log Hext Hb) in Hrun.
    destruct (for_each _ _ _ _) as [[e|im] l2] eqn:F; [discriminate|].
    destruct (epub_toc b) as [toc_list|]; [|discriminate].
    inversion Hrun; subst. cbn [epub_book book_images].
    rewrite (image_loop_lookup _ _ _ _ _ F key).
    destruct (find (registers key) (rev (epub_items b))); reflexivity.
  - destruct (proj1 (process_epub_not_loaded W path out log) Hext) as [msg E].
    rewrite E in Hrun. discriminate.
Qed.

(** X15 on the sample EPUB: the cover is found under its base name, a
    chapter file is not. *)
Lemma image_map_lookup_witness :
  exists book log',
    process_epub (U:=ascii_repertoire) (H:=raw_html)
                 sample_world (py "book.epub") (py "book_data") []
    = (inr book, log')
    /\ dict_get str_eqb (book_images book) (py "cover art(1).JPG")
       = Some (py "images/coverart1.JPG")
    /\ dict_get str_eqb (book_images book) (py "text/ch1.xhtml") = None.
Proof.
  eexists. eexists. split; [evaluate_run|].
  split.
  - erewrite (@image_map_lookup ascii_repertoire raw_html sample_world
                (py "book.epub") (py "book_data") [] _ _ sample_epub);
      [reflexivity | evaluate_run | reflexivity].
  - reflexivity.
Defined.

(** ** The fallback table of contents *)

Lemma parse_toc_empty (toc : list toc_node) (depth : nat) :
  parse_toc_recursive toc depth = [] <-> existsb yields_entry toc = false.
Proof.
  unfold parse_toc_recursive. induction toc as [|n toc IH]; cbn [flat_map existsb].
  - tauto.
  - destruct n; cbn [parse_toc_item yields_entry app orb].
    + split; discriminate.
    + split; discriminate.
    + split; discriminate.
    + exact IH.
Qed.

Section FallbackToc.
Context {U : Unicode} {H : Html}.

Lemma fallback_has_document (b : EpubBook) (item : EpubItem) :
  In item (epub_items b) -> item_type item = ITEM_DOCUMENT ->
  exists e, In e (get_fallback_toc b)
            /\ toc_href e = item_name item /\ toc_file_href e = item_name item
            /\ toc_anchor e = [] /\ toc_children e = [].
Proof.
  intros Hin Ht. unfold get_fallback_toc.
  eexists. split.
  - apply in_flat_map. exists item. split; [exact Hin|].
    rewrite Ht. left. reflexivity.
  - cbn. repeat split.
Qed.

Lemma fallback_entries_flat (b : EpubBook) (e : TOCEntry) :
  In e (get_fallback_toc b) ->
  toc_file_href e = toc_href e /\ toc_anchor e = [] /\ toc_children e = []
  /\ exists item, In item (epub_items b) /\ item_type item = ITEM_DOCUMENT
                  /\ toc_href e = item_name item.
Proof.
  unfold get_fallback_toc. intros He. apply in_flat_map in He.
  destruct He as (item & Hin & He).
  destruct (item_type item) eqn:Ht; try contradiction.
  destruct He as [<- | []]. cbn. repeat split.
  exists item. repeat split; assumption.
Qed.

Lemma chapter_is_document (b : EpubBook) (im : list (pystr * pystr)) (c : ChapterContent) :
  In c (fold_left (spine_step b im) (enumerate (epub_spine b)) []) ->
  exists item, In item (epub_items b) /\ item_type item = ITEM_DOCUMENT
               /\ item_id item = ch_id c /\ item_name item = ch_href c.
Proof.
  rewrite spine_chapters_eq. intros Hc. apply in_map_iff in Hc.
  destruct Hc as ([i [uid lin]] & <- & Hk). apply filter_In in Hk.
  destruct Hk as [_ Hk]. unfold spine_keep, is_document in Hk. cbn [fst snd] in Hk.
  unfold spine_chapter. cbn [fst snd ch_id ch_href].
  destruct (get_item_with_id b uid) as [item|] eqn:G; [|discriminate].
  unfold get_item_with_id in G. apply find_some in G. destruct G as [Hin Hid].
  apply str_eqb_eq in Hid.
  exists item. destruct (item_type item); try discriminate. repeat split; assumption.
Qed.

Lemma image_loop_runs W out (items : list EpubItem) :
  Forall (fun x => item_type x = ITEM_IMAGE -> writable W (asset_target out x) = true)
         items ->
  forall st log,
  exists st' log',
    for_each items (image_step W (path_join out (py "images"))) st log = (inr st', log')
    /\ (forall ev, In ev log -> In ev log')
    /\ (forall x, In x items -> item_type x = ITEM_IMAGE ->
                  In (WriteFile (asset_target out x) (item_content x)) log')
    /\ (forall msg, In (Print msg) log' -> In (Print msg) log).
Proof.
  induction 1 as [|x items Hx _ IH]; intros st log; cbn [for_each].
  - exists st, log. unfold ret. split; [reflexivity|].
    split; [auto|]. split; [intros x []|auto].
  - unfold bind at 1. unfold image_step at 1.
    destruct (item_type x) eqn:T.
    + unfold ret at 1. destruct (IH st log) as (st' & log' & E & Hl & Hw & Hp).
      exists st', log'. split; [exact E|]. split; [exact Hl|]. split; [|exact Hp].
      intros y [<- | Hy] Ty; [congruence | auto].
    + fold (asset_target out x). rewrite (Hx eq_refl). run_monad.
      match goal with
      | |- context [for_each _ _ ?st1 ?log1] =>
          destruct (IH st1 log1) as (st' & log' & E & Hl & Hw & Hp)
      end.
      exists st', log'. split; [exact E|]. split; [|split].
      * intros ev Hev. apply Hl, in_or_app. now left.
      * intros y [<- | Hy] Ty; [|auto].
        apply Hl, in_or_app. right. now left.
      * intros msg Hm. apply Hp in Hm. apply in_app_or in Hm.
        destruct Hm as [Hm | [Hm | []]]; [exact Hm | discriminate].
    + unfold ret at 1. destruct (IH st log) as (st' & log' & E & Hl & Hw & Hp).
      exists st', log'. split; [exact E|]. split; [exact Hl|]. split; [|exact Hp].
      intros y [<- | Hy] Ty; [congruence | auto].
Qed.

Lemma fallback_toc_run W path out log book log' b toc_list :
  process_epub W path out log = (inr book, log') ->
  epub_at W path = Some b ->
  epub_toc b = TocItems toc_list ->
  existsb yields_entry toc_list = false ->
  book_toc book = get_fallback_toc b
  /\ In (Print (py "Warning: Empty TOC, building fallback from Spine...")) log'
  /\ (forall c, In c (book_spine book) ->
        exists e, In e (book_toc book)
                  /\ toc_href e = ch_href c /\ toc_file_href e = ch_href c).
Proof.
  intros Hrun Hb Htoc Hempty.
  apply (parse_toc_empty toc_list 0) in Hempty.
  destruct (endswith (str_lower path) (py ".epub")) eqn:Hext.
  - rewrite (process_epub_loaded W path out log Hext Hb), Htoc in Hrun.
    destruct (for_each _ _ _ _) as [[e|im] l2] eqn:F; [discriminate|].
    rewrite Hempty in Hrun. inversion Hrun; subst.
    unfold epub_book. cbn [book_toc book_spine]. rewrite Hempty.
    split; [reflexivity|]. split.
    + apply in_or_app. right. right. now left.
    + intros c Hc. apply chapter_is_document in Hc.
      destruct Hc as (item & Hin & Ht & _ & Hn).
      destruct (fallback_has_document b item Hin Ht) as (e & He & E1 & E2 & _).
      exists e. rewrite <- Hn. auto.
  - destruct (proj1 (process_epub_not_loaded W path out log) Hext) as [msg E].
    rewrite E in Hrun. discriminate.
Qed.

Lemma bare_link_toc_run W path out log b lnk :
  endswith (str_lower path) (py ".epub") = true ->
  epub_at W path = Some b ->
  epub_toc b = TocBareLink lnk ->
  Forall (fun x => item_type x = ITEM_IMAGE -> writable W (asset_target out x) = true)
         (epub_items b) ->
  exists log',
    process_epub W path out log = (inl TypeError, log')
    /\ In (Makedirs (path_join out (py "images"))) log'
    /\ (forall x, In x (epub_items b) -> item_type x = ITEM_IMAGE ->
                  In (WriteFile (asset_target out x) (item_content x)) log')
    /\ (In (Print (py "Warning: Empty TOC, building fallback from Spine...")) log' ->
        In (Print (py "Warning: Empty TOC, building fallback from Spine...")) log).
Proof.
  intros Hext Hb Htoc Hw.
  rewrite (process_epub_loaded W path out log Hext Hb), Htoc.
  destruct (image_loop_runs W out Hw [] (epub_log_before_images W path out log))
    as (im & l2 & E & Hl & Hwr & Hp).
  rewrite E. eexists. split; [reflexivity|]. split; [|split].
  - apply in_or_app. left. apply Hl. unfold epub_log_before_images.
    rewrite !in_app_iff. cbn [In]. auto 10.
  - intros x Hx Tx. apply in_or_app. left. now apply Hwr.
  - intros Hin. apply in_app_or in Hin. destruct Hin as [Hin | [Hin | []]];
      [|discriminate].
    apply Hp in Hin. unfold epub_log_before_images in Hin.
    rewrite !in_app_iff in Hin. cbn [In] in Hin.
    destruct Hin as [Hin | [[Hin | [Hin | []]] | [Hin | [Hin | [Hin | []]]]]];
      try discriminate; try exact Hin.
    destruct (exists_at W out); [destruct Hin as [Hin | []]; discriminate | destruct Hin].
Qed.
End FallbackToc.

(** X16. When [book.toc] is a list that yields no entry (it is empty, or
    holds no link, section or tuple at its top level), the book's table of
    contents is the fallback: flat entries without anchor, each for a
    document of the container, and every chapter of the spine has one that
    points to its file.  When [book.toc] is no list but a single link, as
    for a navigation map without navigation points, there is no fallback:
    the run raises in [parse_toc_recursive], after the image directory was
    created and the images were written, and returns no book. *)
Theorem empty_toc_falls_back (U : Unicode) (H : Html) W path out log b :
  endswith (str_lower path) (py ".epub") = true ->
  epub_at W path = Some b ->
  (forall toc_list book log',
      epub_toc b = TocItems toc_list ->
      existsb yields_entry toc_list = false ->
      process_epub W path out log = (inr book, log') ->
      book_toc book = get_fallback_toc b
      /\ In (Print (py "Warning: Empty TOC, building fallback from Spine...")) log'
      /\ (forall e, In e (book_toc book) ->
            toc_file_href e = toc_href e /\ toc_anchor e = [] /\ toc_children e = []
            /\ exists item, In item (epub_items b) /\ item_type item = ITEM_DOCUMENT
                            /\ toc_href e = item_name item)
      /\ (forall c, In c (book_spine book) ->
            exists e, In e (book_toc book)
                      /\ toc_href e = ch_href c /\ toc_file_href e = ch_href c))
  /\ (forall lnk,
         epub_toc b = TocBareLink lnk ->
         Forall (fun x => item_type x = ITEM_IMAGE ->
                          writable W (asset_target out x) = true) (epub_items b) ->
         exists log',
           process_epub W path out log = (inl TypeError, log')
           /\ In (Makedirs (path_join out (py "images"))) log'
           /\ (forall x, In x (epub_items b) -> item_type x = ITEM_IMAGE ->
                         In (WriteFile (asset_target out x) (item_content x)) log')
           /\ (In (Print (py "Warning: Empty TOC, building fallback from Spine...")) log' ->
               In (Print (py "Warning: Empty TOC, building fallback from Spine...")) log)).
Proof.
  intros Hext Hb. split.
  - intros toc_list book log' Htoc Hempty Hrun.
    destruct (@fallback_toc_run U H W path out log book log' b toc_list Hrun Hb Htoc Hempty)
      as (Et & Hp & Hc).
    split; [exact Et|]. split; [exact Hp|]. split; [|exact Hc].
    intros e He. rewrite Et in He. now apply fallback_entries_flat.
  - intros lnk Htoc Hw.
    exact (@bare_link_toc_run U H W path out log b lnk Hext Hb Htoc Hw).
Qed.

(** X16 on the sample EPUB with an empty table of contents, and on the one
    whose navigation map has no navigation point. *)
Lemma empty_toc_witness :
  (exists book log',
      process_epub (U:=ascii_repertoire) (H:=raw_html)
                   bare_world (py "bare.epub") (py "bare_data") []
      = (inr book, log')
      /\ map toc_href (book_toc book) = [py "text/ch1.xhtml"; py "text/ch2.xhtml"]
      /\ map toc_title (book_toc book) = [py "Text/Ch1"; py "Text/Ch2"]
      /\ forall c, In c (book_spine book) ->
           exists e, In e (book_toc book)
                     /\ toc_href e = ch_href c /\ toc_file_href e = ch_href c)
  /\ exists log',
      process_epub (U:=ascii_repertoire) (H:=raw_html)
                   bare_world (py "pointless.epub") (py "pointless_data") []
      = (inl TypeError, log')
      /\ In (Makedirs (py "pointless_data/images")) log'
      /\ In (WriteFile (py "pointless_data/images/coverart1.JPG") [255; 216; 255]%N) log'.
Proof.
  split.
  - eexists. eexists. split; [evaluate_run|].
    split; [reflexivity|]. split; [reflexivity|].
    match goal with
    | |- forall c, In c (book_spine ?bk) -> _ =>
        refine (proj2 (proj2 (proj2
                  (proj1 (@empty_toc_falls_back ascii_repertoire raw_html bare_world
                            (py "bare.epub") (py "bare_data") [] bare_epub
                            eq_refl eq_refl)
                         [] bk _ eq_refl eq_refl _))))
    end.
    evaluate_run.
  - destruct (proj2 (@empty_toc_falls_back ascii_repertoire raw_html bare_world
                       (py "pointless.epub") (py "pointless_data") [] pointless_epub
                       eq_refl eq_refl)
                    {| link_title := []; link_href := [] |} eq_refl)
      as (log' & E & Hm & Hw & _).
    + repeat constructor.
    + exists log'. split; [exact E|]. split; [exact Hm|].
      apply (Hw {| item_id := py "cover-img"; item_name := py "Images/cover art(1).JPG";
                   item_type := ITEM_IMAGE; item_content := [255; 216; 255]%N |});
        [now left | reflexivity].
Defined.

(** ** The parsed table of contents *)

Lemma parse_list_flat_map (depth : nat) (children : list toc_node) :
  (fix parse_list (l : list toc_node) : list TOCEntry :=
     match l with
     | [] => []
     | x :: l' => parse_toc_item (S depth) x ++ parse_list l'
     end) children
  = parse_toc_recursive children (S depth).
Proof.
  unfold parse_toc_recursive.
  induction children as [|x l IH]; cbn [flat_map]; [reflexivity|].
  now rewrite IH.
Qed.

Lemma parse_toc_item_tuple (depth : nat) (s : Link) (children : list toc_node) :
  parse_toc_item depth (TocTuple s children)
  = [MkTOCEntry (link_title s) (link_href s)
                (href_file (link_href s)) (href_anchor (link_href s))
                (parse_toc_recursive children (S depth))].
Proof. cbn [parse_toc_item]. now rewrite parse_list_flat_map. Qed.

Lemma link_eta (l : Link) :
  {| link_title := link_title l; link_href := link_href l |} = l.
Proof. now destruct l. Qed.

Lemma parse_toc_item_links (n : toc_node) :
  forall depth,
    map entry_link (flat_map toc_flatten (parse_toc_item depth n)) = toc_links n.
Proof.
  induction n as [s children IH | i | i |] using toc_node_induction; intros depth.
  - rewrite parse_toc_item_tuple. cbn [flat_map toc_flatten toc_links map].
    rewrite app_nil_r. cbn [map]. unfold entry_link at 1. cbn [toc_title toc_href].
    rewrite link_eta. f_equal.
    unfold parse_toc_recursive.
    induction IH as [|x l Hx _ IHl]; cbn [flat_map]; [reflexivity|].
    rewrite flat_map_app, map_app, Hx, IHl. reflexivity.
  - destruct i. reflexivity.
  - destruct i. reflexivity.
  - reflexivity.
Qed.

(** X17. Parsing keeps every tuple, link and section of the container's
    table of contents, at any depth and in document order, with its title
    and href unchanged; it drops the other elements, and the depth argument
    has no influence. *)
Theorem parse_toc_keeps_links (toc : list toc_node) (depth : nat) :
  map entry_link (flat_map toc_flatten (parse_toc_recursive toc depth))
  = flat_map toc_links toc.
Proof.
  unfold parse_toc_recursive.
  induction toc as [|n toc IH]; cbn [flat_map]; [reflexivity|].
  now rewrite flat_map_app, map_app, parse_toc_item_links, IH.
Qed.

Lemma app_hash_inv (f f' r r' : pystr) :
  f ++ 35%N :: r = f' ++ 35%N :: r' -> ~ In 35%N f -> ~ In 35%N f' ->
  f = f' /\ r = r'.
Proof.
  revert f'. induction f as [|a f IH]; intros [|a' f'] E Hf Hf'; simpl in E.
  - inversion E. auto.
  - inversion E; subst. exfalso. apply Hf'. now left.
  - inversion E; subst. exfalso. apply Hf. now left.
  - inversion E; subst.
    destruct (IH f' H1 (fun X => Hf (or_intror X)) (fun X => Hf' (or_intror X)))
      as [-> ->]. auto.
Qed.

(** The two parts that the parser takes from an href. *)
Lemma href_parts (h : pystr) :
  (~ In 35%N h /\ href_file h = h /\ href_anchor h = [])
  \/ exists r,
       h = href_file h ++ 35%N :: href_anchor h ++ r
       /\ ~ In 35%N (href_file h) /\ ~ In 35%N (href_anchor h)
       /\ (r = [] \/ exists r', r = 35%N :: r').
Proof.
  unfold href_file, href_anchor.
  destruct (split_on_head 35 h) as [[Hn E] | (f & r & -> & Hf & E)].
  - left. rewrite E. split; [exact Hn|]. split; [reflexivity|].
    destruct (mem 35 h) eqn:M; [apply mem_In in M; contradiction | reflexivity].
  - right. rewrite E.
    assert (M : mem 35 (f ++ 35%N :: r) = true).
    { apply mem_In, in_or_app. right. now left. }
    rewrite M. cbn [nth].
    destruct (split_on_head 35 r) as [[Hn Er] | (a & r' & -> & Ha & Er)];
      rewrite Er; cbn [nth].
    + exists []. rewrite app_nil_r. auto.
    + exists (35%N :: r'). repeat split; eauto.
Qed.

Lemma parse_toc_item_parts (n : toc_node) :
  forall depth e,
    In e (flat_map toc_flatten (parse_toc_item depth n)) ->
    toc_file_href e = href_file (toc_href e)
    /\ toc_anchor e = href_anchor (toc_href e).
Proof.
  induction n as [s children IH | i | i |] using toc_node_induction;
    intros depth e.
  - rewrite parse_toc_item_tuple. cbn [flat_map toc_flatten].
    rewrite app_nil_r. intros [<- | He]; [cbn; auto|].
    apply in_flat_map in He. destruct He as (c & Hc & He).
    unfold parse_toc_recursive in Hc. apply in_flat_map in Hc.
    destruct Hc as (x & Hx & Hc).
    rewrite Forall_forall in IH. apply (IH x Hx (S depth) e).
    apply in_flat_map. exists c. auto.
  - cbn. intros [<- | []]. cbn. auto.
  - cbn. intros [<- | []]. cbn. auto.
  - intros [].
Qed.

(** X18. For every entry of the parsed table of contents, at any depth:
    an href without '#' is the file part, with an empty anchor; an href
    with '#' is the file part, a '#', the anchor, and then either nothing
    or a further '#' with what follows it.  Neither part holds a '#'. *)
Theorem parse_toc_entries_split (toc : list toc_node) (depth : nat) (e : TOCEntry) :
  In e (flat_map toc_flatten (parse_toc_recursive toc depth)) ->
  ~ In 35%N (toc_file_href e) /\ ~ In 35%N (toc_anchor e)
  /\ ((~ In 35%N (toc_href e) /\ toc_file_href e = toc_href e /\ toc_anchor e = [])
      \/ exists r,
           toc_href e = toc_file_href e ++ 35%N :: toc_anchor e ++ r
           /\ (r = [] \/ exists r', r = 35%N :: r')).
Proof.
  intros He. apply in_flat_map in He. destruct He as (c & Hc & He).
  unfold parse_toc_recursive in Hc. apply in_flat_map in Hc.
  destruct Hc as (n & Hn & Hc).
  destruct (@parse_toc_item_parts n depth e) as [Ef Ea].
  { apply in_flat_map. exists c. auto. }
  rewrite Ef, Ea.
  destruct (href_parts (toc_href e)) as [(Hn' & E1 & E2) | (r & E & Hf & Ha & Hr)].
  - rewrite E1, E2. split; [exact Hn'|]. split; [intros []|]. left. auto.
  - split; [exact Hf|]. split; [exact Ha|]. right. exists r. auto.
Qed.

(** X18 on a nested entry whose href has two '#'. *)
Lemma parse_toc_entries_witness :
  In (MkTOCEntry (py "Notes") (py "ch1.xhtml#sec#2") (py "ch1.xhtml") (py "sec") [])
     (flat_map toc_flatten
        (parse_toc_recursive
           [TocTuple {| link_title := py "Part"; link_href := py "p1.xhtml" |}
              [TocLink {| link_title := py "Notes";
                          link_href := py "ch1.xhtml#sec#2" |}]] 0))
  /\ ~ In 35%N (py "ch1.xhtml") /\ ~ In 35%N (py "sec").
Proof.
  assert (He : In (MkTOCEntry (py "Notes") (py "ch1.xhtml#sec#2")
                              (py "ch1.xhtml") (py "sec") [])
                  (flat_map toc_flatten
                     (parse_toc_recursive
                        [TocTuple {| link_title := py "Part"; link_href := py "p1.xhtml" |}
                           [TocLink {| link_title := py "Notes";
                                       link_href := py "ch1.xhtml#sec#2" |}]] 0))).
  { right. left. reflexivity. }
  split; [exact He|].
  destruct (@parse_toc_entries_split _ 0 _ He) as (Hf & Ha & _).
  split; assumption.
Defined.

(** ** The effects of a conversion *)

Section Confinement.
Context {U : Unicode} {H : Html}.

Lemma image_loop_confined W path out (items : list EpubItem) :
  forall st log r log',
    for_each items (image_step W (path_join out (py "images"))) st log = (r, log') ->
    forall ev, In ev log' -> In ev log \/ confined path out ev.
Proof.
  induction items as [|x items IH]; intros st log r log'; cbn [for_each].
  - unfold ret. intros E ev Hev. inversion E; subst. now left.
  - unfold bind at 1.
    destruct (image_step W (path_join out (py "images")) st x log)
      as [[e1|st1] log1] eqn:S.
    + intros E ev Hev. inversion E; subst. clear E. left.
      unfold image_step in S. destruct (item_type x);
        try (unfold ret in S; discriminate).
      run_monad. destruct (writable W _); [discriminate|].
      inversion S; subst. exact Hev.
    + intros F ev Hev. destruct (IH _ _ _ _ F ev Hev) as [Hin | Hc]; [|now right].
      unfold image_step in S. destruct (item_type x);
        try (unfold ret in S; inversion S; subst; now left).
      run_monad. destruct (writable W _); [|discriminate].
      inversion S; subst. apply in_app_or in Hin.
      destruct Hin as [Hin | [<- | []]]; [now left|]. right.
      cbn [confined]. exists (sanitize (basename (item_name x))). split.
      * apply images_dir_join, sanitize_no_slash.
      * apply sanitize_no_slash.
Qed.

Lemma process_epub_confined W path out log r log' :
  process_epub W path out log = (r, log') ->
  forall ev, In ev log' -> In ev log \/ confined path out ev.
Proof.
  intros Hrun ev Hev.
  assert (Hpre : forall ev, In ev (epub_log_before_images W path out log) ->
                            In ev log \/ confined path out ev).
  { intros ev0 H0. unfold epub_log_before_images in H0.
    event_cases H0; first [now left | subst ev0; right; cbn [confined]; auto]. }
  assert (Hloop : forall st r2 l2,
             for_each (epub_items r2) (image_step W (path_join out (py "images")))
                      [] (epub_log_before_images W path out log) = (st, l2) ->
             forall ev, In ev l2 -> In ev log \/ confined path out ev).
  { intros st r2 l2 F ev0 H0.
    destruct (image_loop_confined W path out _ _ _ F ev0 H0); auto. }
  destruct (endswith (str_lower path) (py ".epub")) eqn:Hext.
  - destruct (epub_at W path) as [b|] eqn:Hb.
    + rewrite (process_epub_loaded W path out log Hext Hb) in Hrun.
      destruct (for_each _ _ _ _) as [[e|im] l2] eqn:F.
      * inversion Hrun; subst. exact (Hloop _ _ _ F ev Hev).
      * destruct (epub_toc b) as [toc_list|lnk];
          [destruct (parse_toc_recursive toc_list 0)|];
          inversion Hrun; subst;
          (apply in_app_or in Hev; destruct Hev as [Hev | Hev];
           [exact (Hloop _ _ _ F ev Hev)|]);
          event_cases Hev; subst ev; right; exact I.
    + destruct (epub_faulty W path) as [[b fault]|] eqn:Hf.
      * rewrite (process_epub_faulty W path out log Hext Hb Hf) in Hrun.
        destruct fault; inversion Hrun; subst;
          event_cases Hev; first [now left | subst ev; right; cbn [confined]; auto].
      * rewrite (proj2 (process_epub_not_loaded W path out log) Hext Hb Hf) in Hrun.
        inversion Hrun; subst.
        event_cases Hev; first [now left | subst ev; right; cbn [confined]; auto].
  - destruct (proj1 (process_epub_not_loaded W path out log) Hext) as [msg E].
    rewrite E in Hrun. inversion Hrun; subst. now left.
Qed.

Lemma process_pdf_confined W path out log r log' :
  process_pdf W path out log = (r, log') ->
  forall ev, In ev log' -> In ev log \/ confined path out ev.
Proof.
  intros Hrun ev Hev.
  destruct (endswith (str_lower path) (py ".pdf")) eqn:Hext.
  - destruct (pdf_at W path) as [rd|] eqn:Hr.
    + revert Hrun. unfold process_pdf. rewrite Hext. cbn [negb].
      run_monad. rewrite Hr. cbn [fst snd].
      destruct (exists_at W out); destruct (get_pdf_outline_entries rd);
        intros E; inversion E; subst;
        event_cases Hev; first [now left | subst ev; right; cbn [confined]; auto].
    + destruct (pdf_faulty W path) as [[rd fault]|] eqn:Hf.
      * rewrite (process_pdf_faulty W path out log Hext Hr Hf) in Hrun.
        destruct fault; inversion Hrun; subst;
          event_cases Hev; first [now left | subst ev; right; cbn [confined]; auto].
      * rewrite (proj2 (process_pdf_not_loaded W path out log) Hext Hr Hf) in Hrun.
        inversion Hrun; subst.
        event_cases Hev; first [now left | subst ev; right; cbn [confined]; auto].
  - destruct (proj1 (process_pdf_not_loaded W path out log) Hext) as [msg E].
    rewrite E in Hrun. inversion Hrun; subst. now left.
Qed.
End Confinement.

(** X19. Whatever its outcome, a conversion reads only its source, removes
    only the output directory, creates only the output directory and its
    image directory, and writes only files that lie directly inside the
    image directory. *)
Theorem conversion_effects_confined (U : Unicode) (H : Html)
        W path out log r log' :
  process_book W path out log = (r, log') ->
  forall ev, In ev log' -> In ev log \/ confined path out ev.
Proof.
  unfold process_book.
  destruct (str_eqb (str_lower (snd (splitext path))) (py ".epub")).
  - apply process_epub_confined.
  - destruct (str_eqb (str_lower (snd (splitext path))) (py ".pdf")).
    + apply process_pdf_confined.
    + unfold raise. intros E ev Hev. inversion E; subst. now left.
Qed.

(** X19 on the sample EPUB: the one file written is the cover. *)
Lemma conversion_effects_witness :
  exists book log',
    process_book (U:=ascii_repertoire) (H:=raw_html)
                 sample_world (py "book.epub") (py "book_data") []
    = (inr book, log')
    /\ In (WriteFile (py "book_data/images/coverart1.JPG") [255; 216; 255]%N) log'
    /\ forall ev, In ev log' ->
                  In ev [] \/ confined (py "book.epub") (py "book_data") ev.
Proof.
  eexists. eexists. split; [evaluate_run|]. split.
  - cbn. tauto.
  - refine (@conversion_effects_confined ascii_repertoire raw_html sample_world
              (py "book.epub") (py "book_data") [] _ _ _).
    evaluate_run.
Defined.

(** ** The output directory of the command line *)

Lemma split_on_last (c : N) (s : pystr) :
  split_on c s = [s]
  \/ exists pre f fs,
       s = pre ++ c :: last (split_on c s) [] /\ split_on c s = f :: fs /\ fs <> [].
Proof.
  induction s as [|d s IH]; cbn [split_on].
  - now left.
  - destruct (N.eqb_spec d c) as [-> | Hd].
    + right. destruct IH as [E | (pre & f & fs & E & S & Hfs)].
      * exists [], [], [s]. rewrite E. cbn. repeat split. discriminate.
      * exists (c :: pre), [], (f :: fs). rewrite S in *. cbn [app].
        repeat split; [|discriminate].
        f_equal. exact E.
    + destruct IH as [E | (pre & f & fs & E & S & Hfs)].
      * left. rewrite E. reflexivity.
      * right. rewrite S in *. exists (d :: pre), (d :: f), fs. cbn [app].
        repeat split; [|exact Hfs].
        f_equal. rewrite E at 1. f_equal. f_equal.
        destruct fs; [congruence | reflexivity].
Qed.

Lemma last_field_clean (c : N) (s : pystr) : ~ In c (last (split_on c s) []).
Proof.
  intros Hc.
  assert (Hin : In (last (split_on c s) []) (split_on c s)).
  { pose proof (split_on_nonempty c s) as Hne.
    destruct (split_on c s) as [|f fs]; [congruence|].
    rewrite (app_removelast_last (l:=f :: fs) [] ltac:(discriminate)) at 2.
    apply in_or_app. right. now left. }
  destruct (split_on_fields c s _ c Hin Hc) as [_ Hneq]. congruence.
Qed.

Lemma firstn_prefix {A} (a b : list A) (n : nat) :
  n = List.length a -> firstn n (a ++ b) = a.
Proof.
  intros ->. rewrite firstn_app, Nat.sub_diag, firstn_all. cbn [firstn].
  apply app_nil_r.
Qed.

(** [splitext] cuts its argument in two; the extension is empty or a dot
    followed by characters that are neither dots nor slashes. *)
Lemma splitext_parts (p : pystr) :
  p = fst (splitext p) ++ snd (splitext p)
  /\ (snd (splitext p) = []
      \/ exists e, snd (splitext p) = 46%N :: e /\ ~ In 46%N e /\ ~ In 47%N e).
Proof.
  unfold splitext.
  destruct (split_on_last 46 (basename p)) as [E | (pre & f & fs & E & S & Hfs)].
  - rewrite E. cbn [fst snd]. rewrite app_nil_r. auto.
  - rewrite S. destruct fs as [|g fs]; [congruence|].
    rewrite <- S.
    set (ext := last (split_on 46 (basename p)) []) in *.
    assert (Hstem : firstn (List.length (basename p) - List.length ext - 1) (basename p)
                    = pre).
    { rewrite E at 2. apply firstn_prefix. rewrite E at 1.
      rewrite length_app. cbn [List.length]. lia. }
    rewrite Hstem.
    destruct (forallb (N.eqb 46) pre); cbn [fst snd].
    + rewrite app_nil_r. auto.
    + assert (Hb : exists dir, p = dir ++ basename p).
      { unfold basename.
        destruct (split_on_last 47 p) as [E1 | (pre1 & f1 & fs1 & E1 & _)].
        - exists []. rewrite E1. reflexivity.
        - exists (pre1 ++ [47%N]). rewrite <- app_assoc. exact E1. }
      destruct Hb as (dir & Hdir).
      assert (Hd : firstn (List.length p - List.length (basename p)) p = dir).
      { rewrite Hdir at 3. apply firstn_prefix. rewrite Hdir at 1.
        rewrite length_app. lia. }
      rewrite Hd. split.
      * rewrite <- app_assoc, <- E. exact Hdir.
      * right. exists ext. split; [reflexivity|]. split.
        -- apply last_field_clean.
        -- intros Hc. apply (last_field_clean 47 p). fold (basename p).
           rewrite E. apply in_or_app. right. now right.
Qed.

Lemma startswith_longer (s t : pystr) : t <> [] -> startswith s (s ++ t) = false.
Proof.
  intros Ht. induction s as [|c s IH]; cbn [app startswith].
  - destruct t; [congruence | reflexivity].
  - now rewrite N.eqb_refl, IH.
Qed.

Lemma startswith_diverges (s a b : pystr) (x y : N) :
  x <> y -> startswith (s ++ x :: a) (s ++ y :: b) = false.
Proof.
  intros Hxy. induction s as [|c s IH]; cbn [app startswith].
  - destruct (N.eqb_spec y x); [congruence | reflexivity].
  - now rewrite N.eqb_refl, IH.
Qed.

Lemma split_on_app_clean (c : N) (a b : pystr) :
  ~ In c b ->
  split_on c (a ++ b)
  = removelast (split_on c a) ++ [last (split_on c a) [] ++ b].
Proof.
  intros Hb. induction a as [|d a IH]; cbn [app].
  - rewrite split_on_no_sep by exact Hb. reflexivity.
  - cbn [split_on]. rewrite IH.
    pose proof (split_on_nonempty c a) as Hne.
    destruct (split_on c a) as [|f fs]; [congruence|].
    destruct (N.eqb d c).
    + reflexivity.
    + destruct fs as [|g fs]; reflexivity.
Qed.

Lemma last_field_app (c : N) (a b : pystr) :
  ~ In c b -> last (split_on c (a ++ b)) [] = last (split_on c a) [] ++ b.
Proof.
  intros Hb. rewrite split_on_app_clean by exact Hb. apply last_last.
Qed.

Lemma endswith_app (a b : pystr) : endswith (a ++ b) b = true.
Proof.
  unfold endswith. rewrite rev_app_distr.
  induction (rev b) as [|c l IH]; cbn [app startswith].
  - apply startswith_nil.
  - now rewrite N.eqb_refl.
Qed.

(** X20. The output directory that the command line derives from its
    argument is never the argument itself or a directory above it, so that
    clearing the output directory leaves the source in place; and its base
    name ends in "_data", which is what the library expects of a book
    folder. *)
Theorem cli_out_dir_spares_input (input_file : pystr) :
  startswith input_file (cli_out_dir input_file) = false
  /\ endswith (basename (cli_out_dir input_file)) (py "_data") = true.
Proof.
  unfold cli_out_dir. split.
  - destruct (splitext_parts input_file) as [E [E0 | (e & E1 & _)]].
    + rewrite E0, app_nil_r in E. rewrite <- E.
      apply startswith_longer. discriminate.
    + rewrite E at 1. rewrite E1.
      apply (startswith_diverges (fst (splitext input_file)) e (py "data")).
      discriminate.
  - unfold basename. rewrite last_field_app by (cbv; intuition discriminate).
    apply endswith_app.
Qed.

(* ===================================================================== *)
(** * Properties of the web server *)
(* ===================================================================== *)

(** ** Book identifiers *)

Lemma encode_char_wise (s : pystr) :
  encode_book_id s
  = flat_map (fun c => if N.eqb c 47 then py "__" else [c]) s.
Proof.
  unfold encode_book_id, replace, os_sep.
  induction s as [|c s IH]; cbn [replace_aux flat_map]; [reflexivity|].
  cbn [startswith]. rewrite startswith_nil, andb_true_r.
  rewrite (N.eqb_sym 47 c). destruct (N.eqb c 47).
  - cbn [List.length Nat.sub]. now rewrite IH.
  - cbn [app]. now rewrite IH.
Qed.

Lemma starts_underscore_encoded (s : pystr) :
  startswith (encode_book_id s) [95%N]
  = startswith s [95%N] || startswith s [47%N].
Proof.
  rewrite encode_char_wise. destruct s as [|c s]; [reflexivity|].
  cbn [flat_map startswith]. rewrite !startswith_nil, !andb_true_r.
  destruct (N.eqb_spec c 47) as [->|H47]; [reflexivity|].
  cbn [app startswith]. rewrite startswith_nil, andb_true_r.
  destruct (N.eqb_spec 47 c); [congruence|]. now rewrite orb_false_r.
Qed.

Lemma contains_cons (sub : pystr) (c : N) (s : pystr) :
  contains sub (c :: s) = startswith (c :: s) sub || contains sub s.
Proof. reflexivity. Qed.

Lemma startswith_two (a b : N) (s : pystr) :
  startswith s [a; b]
  = match s with
    | c :: s' => N.eqb a c && startswith s' [b]
    | [] => false
    end.
Proof. destruct s; reflexivity. Qed.

Lemma decode_encode_cons (c : N) (s : pystr) :
  decode_book_id (encode_book_id (c :: s))
  = if N.eqb c 47 then 47%N :: decode_book_id (encode_book_id s)
    else if N.eqb c 95 && (startswith s [95%N] || startswith s [47%N])
         then 47%N :: replace_aux (py "__") os_sep 1 (encode_book_id s)
         else c :: decode_book_id (encode_book_id s).
Proof.
  pose proof (starts_underscore_encoded s) as Hs.
  rewrite (encode_char_wise (c :: s)). cbn [flat_map].
  destruct (N.eqb_spec c 47) as [->|H47].
  - rewrite <- encode_char_wise. unfold decode_book_id, replace.
    change (py "__") with [95%N; 95%N]. cbn [app replace_aux startswith].
    rewrite !N.eqb_refl, startswith_nil. reflexivity.
  - rewrite <- encode_char_wise. cbn [app]. unfold decode_book_id, replace.
    cbn [replace_aux]. fold (py "__"). change (py "__") with [95%N; 95%N] at 1.
    rewrite startswith_two, Hs. rewrite (N.eqb_sym 95 c).
    destruct (N.eqb c 95 && (startswith s [95%N] || startswith s [47%N]));
      reflexivity.
Qed.

Lemma bad_pair_cons (c : N) (s : pystr) :
  contains (py "__") (c :: s) || contains (py "_/") (c :: s)
  = (N.eqb c 95 && (startswith s [95%N] || startswith s [47%N]))
    || (contains (py "__") s || contains (py "_/") s).
Proof.
  rewrite !contains_cons.
  change (py "__") with [95%N; 95%N]. change (py "_/") with [95%N; 47%N].
  rewrite !startswith_two. rewrite (N.eqb_sym 95 c).
  destruct (N.eqb c 95), (startswith s [95%N]), (startswith s [47%N]),
    (contains [95%N; 95%N] s), (contains [95%N; 47%N] s); reflexivity.
Qed.

Lemma round_trip_condition (rel : pystr) :
  decode_book_id (encode_book_id rel) = rel
  <-> contains (py "__") rel || contains (py "_/") rel = false.
Proof.
  induction rel as [|c s IH].
  - split; reflexivity.
  - rewrite decode_encode_cons, bad_pair_cons.
    destruct (N.eqb_spec c 47) as [->|H47].
    + cbn [N.eqb Pos.eqb andb orb]. rewrite <- IH.
      split; [intros E; injection E; trivial | intros E; now rewrite E].
    + destruct (N.eqb_spec c 95) as [->|H95]; cbn [andb].
      * destruct (startswith s [95%N] || startswith s [47%N]); cbn [orb].
        -- split; discriminate.
        -- rewrite <- IH.
           split; [intros E; injection E; trivial | intros E; now rewrite E].
      * cbn [orb]. rewrite <- IH.
        split; [intros E; injection E; trivial | intros E; now rewrite E].
Qed.

(** X21. A relative path survives encoding as a book id and decoding again
    exactly when it holds neither two underscores in a row nor an
    underscore before a slash. *)
Theorem book_id_round_trip (rel_path : pystr) :
  decode_book_id (encode_book_id rel_path) = rel_path
  <-> contains (py "__") rel_path = false /\ contains (py "_/") rel_path = false.
Proof.
  rewrite round_trip_condition, orb_false_iff. reflexivity.
Qed.

(** ** Category keys *)

Lemma category_char_range (c : N) :
  category_char c = true ->
  (97 <= c <= 122 \/ 48 <= c <= 57 \/ c = 95 \/ c = 45)%N.
Proof.
  unfold category_char, ascii_lower, ascii_digit, in_range.
  rewrite !orb_true_iff, !andb_true_iff, !N.leb_le, !N.eqb_eq. lia.
Qed.

Lemma category_char_plain (c : N) :
  category_char c = true ->
  isspace c = false /\ is_ascii c = true /\ to_ascii_lower c = c
  /\ c <> 32%N /\ c <> 47%N /\ c <> 46%N.
Proof.
  intros Hc. apply category_char_range in Hc. repeat split.
  - apply not_true_is_false. intros Hs. unfold isspace, in_range in Hs.
    rewrite ?orb_true_iff, ?andb_true_iff, ?N.leb_le, ?N.eqb_eq in Hs. lia.
  - unfold is_ascii. apply N.ltb_lt. lia.
  - unfold to_ascii_lower, ascii_upper, in_range.
    destruct (N.leb_spec 65 c), (N.leb_spec c 90); cbn [andb]; try reflexivity.
    lia.
  - lia.
  - lia.
  - lia.
Qed.

Lemma category_fullmatch_chars (k : pystr) :
  category_fullmatch k = true ->
  k <> [] /\ Forall (fun c => category_char c = true) k /\ List.length k <= 64.
Proof.
  destruct k as [|c k]; [discriminate|]. cbn [category_fullmatch].
  rewrite !andb_true_iff, forallb_forall, Nat.leb_le.
  intros [[Hc Hk] Hlen]. split; [discriminate|]. split.
  - constructor.
    + unfold category_char. rewrite <- !orb_assoc.
      apply orb_true_iff in Hc. destruct Hc as [-> | ->]; [reflexivity|].
      now rewrite orb_true_r.
    + now apply Forall_forall.
  - cbn [List.length]. lia.
Qed.

Lemma lstrip_id (s : pystr) :
  Forall (fun c => isspace c = false) s -> lstrip s = s.
Proof. destruct 1 as [|c s Hc _]; cbn [lstrip]; [reflexivity | now rewrite Hc]. Qed.

Lemma strip_id (s : pystr) :
  Forall (fun c => isspace c = false) s -> strip s = s.
Proof.
  intros Hs. unfold strip, rstrip. rewrite (lstrip_id Hs).
  rewrite lstrip_id; [apply rev_involutive|].
  apply Forall_forall. intros c Hc. apply in_rev in Hc.
  rewrite Forall_forall in Hs. now apply Hs.
Qed.

Lemma replace_absent (c : N) (new s : pystr) :
  ~ In c s -> replace [c] new s = s.
Proof.
  unfold replace. induction s as [|d s IH]; intros Hc; [reflexivity|].
  cbn [replace_aux startswith]. rewrite startswith_nil, andb_true_r.
  destruct (N.eqb_spec c d) as [-> | Hd].
  - exfalso. apply Hc. now left.
  - rewrite IH; [reflexivity|]. intros Hin. apply Hc. now right.
Qed.

Section CategoryKeys.
Context {U : Unicode}.

Lemma normalize_fixed (k : pystr) :
  category_fullmatch k = true -> normalize_category_key (Some k) = inr k.
Proof.
  intros Hm. destruct (category_fullmatch_chars k Hm) as (Hne & Hall & _).
  assert (Hplain : forall c, In c k -> _) by
    (intros c Hc; rewrite Forall_forall in Hall;
     exact (category_char_plain c (Hall c Hc))).
  unfold normalize_category_key.
  assert (Et : truthy k = true) by (destruct k; [congruence | reflexivity]).
  cbn [or_else]. rewrite Et.
  rewrite strip_id by (apply Forall_forall; intros c Hc; apply (Hplain c Hc)).
  rewrite Et. cbn [negb].
  assert (El : str_lower k = k).
  { unfold str_lower.
    assert (A : forallb is_ascii k = true)
      by (apply forallb_forall; intros c Hc; apply (Hplain c Hc)).
    rewrite A. rewrite <- (map_id k) at 2. apply map_ext_in.
    intros c Hc. apply (Hplain c Hc). }
  rewrite El. change (py " ") with [32%N].
  rewrite replace_absent.
  - now rewrite Hm.
  - intros Hc. destruct (Hplain _ Hc) as (_ & _ & _ & H32 & _). now apply H32.
Qed.

Lemma normalize_result (category : option pystr) (k : pystr) :
  normalize_category_key category = inr k ->
  k = [] \/ category_fullmatch k = true.
Proof.
  unfold normalize_category_key.
  destruct (truthy (strip (or_else category []))); cbn [negb].
  - destruct (category_fullmatch _) eqn:M; cbn [negb]; [|discriminate].
    intros E. inversion E; subst. now right.
  - intros E. inversion E. now left.
Qed.
End CategoryKeys.

Lemma category_key_chars_of_result (U : Unicode) (category : option pystr) (k : pystr) :
  normalize_category_key category = inr k ->
  k = [] \/ (~ In 47%N k /\ Forall (fun c => isspace c = false) k).
Proof.
  intros Hn. destruct (normalize_result _ Hn) as [-> | Hm]; [now left | right].
  destruct (category_fullmatch_chars k Hm) as (_ & Hall & _).
  rewrite Forall_forall in Hall. split.
  - intros Hc.
    destruct (category_char_plain _ (Hall _ Hc)) as (_ & _ & _ & _ & H47 & _).
    now apply H47.
  - apply Forall_forall. intros c Hc. apply (category_char_plain _ (Hall _ Hc)).
Qed.

(** X22. A key that [normalize_category_key] returns is empty or a string
    of at most 64 characters from a-z, 0-9, '_' and '-' that starts with a
    letter or a digit, so it holds no slash, dot or white space; and
    normalizing it again returns it unchanged. *)
Theorem category_key_normal_form (U : Unicode) (category : option pystr) (k : pystr) :
  normalize_category_key category = inr k ->
  (k = [] \/ (category_fullmatch k = true
              /\ List.length k <= 64
              /\ Forall (fun c => category_char c = true) k
              /\ ~ In 47%N k /\ ~ In 46%N k
              /\ Forall (fun c => isspace c = false) k))
  /\ normalize_category_key (Some k) = inr k.
Proof.
  intros Hn. destruct (normalize_result _ Hn) as [-> | Hm].
  - split; [now left | reflexivity].
  - split; [right | now apply normalize_fixed].
    destruct (category_fullmatch_chars k Hm) as (_ & Hall & Hlen).
    repeat split; try assumption.
    + intros Hc. rewrite Forall_forall in Hall.
      destruct (category_char_plain _ (Hall _ Hc)) as (_ & _ & _ & _ & H47 & _).
      now apply H47.
    + intros Hc. rewrite Forall_forall in Hall.
      destruct (category_char_plain _ (Hall _ Hc)) as (_ & _ & _ & _ & _ & H46).
      now apply H46.
    + apply Forall_forall. intros c Hc. rewrite Forall_forall in Hall.
      apply (category_char_plain _ (Hall _ Hc)).
Qed.

(** X22 on a name with capitals and spaces. *)
Lemma category_key_witness :
  normalize_category_key (U:=ascii_repertoire) (Some (py "  Self Help ")) = inr (py "self-help")
  /\ normalize_category_key (U:=ascii_repertoire) (Some (py "self-help")) = inr (py "self-help").
Proof.
  split; [reflexivity|].
  apply (@category_key_normal_form ascii_repertoire (Some (py "  Self Help ")) (py "self-help")).
  reflexivity.
Defined.

Lemma split_on_first_field (c : N) (k rest : pystr) :
  ~ In c k -> split_on c (k ++ c :: rest) = k :: split_on c rest.
Proof.
  induction k as [|d k IH]; intros Hk; cbn [app split_on].
  - now rewrite N.eqb_refl.
  - destruct (N.eqb_spec d c) as [-> | Hd].
    + exfalso. apply Hk. now left.
    + rewrite IH; [reflexivity|]. intros Hin. apply Hk. now right.
Qed.

(** X23. A book folder that lies in the directory of a normalized,
    non-empty category key is listed under exactly that key. *)
Theorem moved_book_keeps_category (U : Unicode) (category : option pystr)
        (k base_name : pystr) :
  normalize_category_key category = inr k ->
  k <> [] ->
  fst (category_from_rel_path (k ++ 47%N :: base_name)) = k.
Proof.
  intros Hn Hk.
  destruct (@category_key_chars_of_result U category k Hn) as [-> | (H47 & Hsp)];
    [congruence|].
  unfold category_from_rel_path.
  rewrite split_on_first_field by exact H47.
  pose proof (split_on_nonempty 47 base_name) as Hne.
  destruct (split_on 47 base_name) as [|f fs] eqn:S; [congruence|].
  cbn [List.length Nat.leb nth fst]. now apply strip_id.
Qed.

(** X23 for the category "Self Help". *)
Lemma moved_book_witness :
  normalize_category_key (U:=ascii_repertoire) (Some (py "Self Help")) = inr (py "self-help")
  /\ category_from_rel_path (U:=ascii_repertoire) (py "self-help/novel_data")
     = (py "self-help", py "Self Help")
  /\ fst (category_from_rel_path (U:=ascii_repertoire)
            (py "self-help" ++ 47%N :: py "novel_data")) = py "self-help".
Proof.
  split; [reflexivity|]. split; [reflexivity|].
  apply (@moved_book_keeps_category ascii_repertoire (Some (py "Self Help"))
           (py "self-help") (py "novel_data")).
  - reflexivity.
  - discriminate.
Defined.

(** ** The reader page *)

Lemma read_chapter_in_range (b : Book) (i : Z) :
  (0 <= i < Z.of_nat (List.length (book_spine b)))%Z ->
  exists ch,
    nth_error (book_spine b) (Z.to_nat i) = Some ch
    /\ read_chapter (Some b) i
       = inr {| current_chapter := ch;
                chapter_index := i;
                prev_idx := if (0 <? i)%Z then Some (i - 1)%Z else None;
                next_idx := if (i <? Z.of_nat (List.length (book_spine b)) - 1)%Z
                            then Some (i + 1)%Z else None |}.
Proof.
  intros Hi. unfold read_chapter.
  destruct (Z.ltb_spec i 0); [lia|].
  destruct (Z.leb_spec (Z.of_nat (List.length (book_spine b))) i); [lia|].
  cbn [orb].
  destruct (nth_error (book_spine b) (Z.to_nat i)) as [ch|] eqn:E.
  - exists ch. auto.
  - apply nth_error_None in E. lia.
Qed.

Lemma read_chapter_served (book : option Book) (i : Z) (page : ReaderPage) :
  read_chapter book i = inr page ->
  exists b, book = Some b
            /\ (0 <= i < Z.of_nat (List.length (book_spine b)))%Z.
Proof.
  unfold read_chapter. destruct book as [b|]; [|discriminate].
  destruct (Z.ltb_spec i 0); [discriminate|].
  destruct (Z.leb_spec (Z.of_nat (List.length (book_spine b))) i); [discriminate|].
  intros _. exists b. split; [reflexivity | lia].
Qed.

(** X24. A page that [read_chapter] serves shows the chapter at the
    requested position of the spine, and its links lead to pages that are
    served as well: the previous link is absent exactly on the first
    chapter, the next link exactly on the last one, and following a link
    gives a page whose opposite link leads back. *)
Theorem chapter_links_are_served (book : option Book) (i : Z) (page : ReaderPage) :
  read_chapter book i = inr page ->
  exists b,
    book = Some b
    /\ nth_error (book_spine b) (Z.to_nat i) = Some (current_chapter page)
    /\ (prev_idx page = None <-> i = 0%Z)
    /\ (next_idx page = None <-> i = (Z.of_nat (List.length (book_spine b)) - 1)%Z)
    /\ (forall p, prev_idx page = Some p ->
          p = (i - 1)%Z
          /\ exists page', read_chapter book p = inr page'
                           /\ next_idx page' = Some i)
    /\ (forall n, next_idx page = Some n ->
          n = (i + 1)%Z
          /\ exists page', read_chapter book n = inr page'
                           /\ prev_idx page' = Some i).
Proof.
  intros Hr. destruct (read_chapter_served _ _ Hr) as (b & -> & Hi).
  exists b. split; [reflexivity|].
  destruct (read_chapter_in_range b Hi) as (ch & Hch & E).
  rewrite E in Hr. inversion Hr; subst page. clear Hr.
  cbn [current_chapter prev_idx next_idx].
  split; [exact Hch|]. split; [|split; [|split]].
  - destruct (Z.ltb_spec 0 i); split; try discriminate; intros; try lia.
    reflexivity.
  - destruct (Z.ltb_spec i (Z.of_nat (List.length (book_spine b)) - 1));
      split; try discriminate; intros; try lia. reflexivity.
  - intros p. destruct (Z.ltb_spec 0 i); [|discriminate].
    intros Ep. inversion Ep; subst p. split; [reflexivity|].
    assert (Hp : (0 <= i - 1 < Z.of_nat (List.length (book_spine b)))%Z) by lia.
    destruct (read_chapter_in_range b Hp) as (ch' & _ & E').
    eexists. split; [exact E'|]. cbn [next_idx].
    destruct (Z.ltb_spec (i - 1) (Z.of_nat (List.length (book_spine b)) - 1));
      [f_equal; lia | lia].
  - intros n.
    destruct (Z.ltb_spec i (Z.of_nat (List.length (book_spine b)) - 1));
      [|discriminate].
    intros En. inversion En; subst n. split; [reflexivity|].
    assert (Hn : (0 <= i + 1 < Z.of_nat (List.length (book_spine b)))%Z) by lia.
    destruct (read_chapter_in_range b Hn) as (ch' & _ & E').
    eexists. split; [exact E'|]. cbn [prev_idx].
    destruct (Z.ltb_spec 0 (i + 1)); [f_equal; lia | lia].
Qed.

(** X24 on the middle chapter of a book of three. *)
Lemma chapter_links_witness :
  exists page,
    read_chapter (Some three_page_book) 1 = inr page
    /\ prev_idx page = Some 0%Z /\ next_idx page = Some 2%Z
    /\ exists page', read_chapter (Some three_page_book) 2 = inr page'
                     /\ prev_idx page' = Some 1%Z.
Proof.
  eexists. split; [reflexivity|]. split; [reflexivity|]. split; [reflexivity|].
  destruct (@chapter_links_are_served (Some three_page_book) 1 _ eq_refl)
    as (b & _ & _ & _ & _ & _ & Hn).
  destruct (Hn 2%Z eq_refl) as (_ & page' & E & Hp).
  exists page'. split; [exact E | exact Hp].
Defined.

(** ** Paths *)

Lemma str_eqb_refl (a : pystr) : str_eqb a a = true.
Proof. now apply str_eqb_eq. Qed.

Lemma str_eqb_sym (a b : pystr) : str_eqb a b = str_eqb b a.
Proof.
  destruct (str_eqb a b) eqn:E1, (str_eqb b a) eqn:E2; try reflexivity.
  - apply str_eqb_eq in E1. subst. now rewrite str_eqb_refl in E2.
  - apply str_eqb_eq in E2. subst. now rewrite str_eqb_refl in E1.
Qed.

(** The order of sequences is a strict total order when the order of the
    elements is. *)
Lemma lex_ltb_cases {A} (eqb ltb : A -> A -> bool) :
  (forall x y, eqb x y = true <-> x = y) ->
  (forall x y, (ltb x y = true /\ ltb y x = false /\ x <> y)
               \/ (x = y /\ ltb x y = false)
               \/ (ltb y x = true /\ ltb x y = false /\ x <> y)) ->
  forall a b,
    (lex_ltb eqb ltb a b = true /\ lex_ltb eqb ltb b a = false /\ a <> b)
    \/ (a = b /\ lex_ltb eqb ltb a b = false)
    \/ (lex_ltb eqb ltb b a = true /\ lex_ltb eqb ltb a b = false /\ a <> b).
Proof.
  intros Heq Hlt. induction a as [|x a IH]; intros [|y b]; cbn [lex_ltb].
  - right. left. auto.
  - left. repeat split. discriminate.
  - right. right. repeat split. discriminate.
  - destruct (eqb x y) eqn:Exy.
    + apply Heq in Exy. subst y.
      assert (Eyx : eqb x x = true) by now apply Heq.
      rewrite Eyx.
      destruct (IH b) as [(H1 & H2 & H3) | [(H1 & H2) | (H1 & H2 & H3)]].
      * left. repeat split; auto. congruence.
      * right. left. subst. auto.
      * right. right. repeat split; auto. congruence.
    + assert (Eyx : eqb y x = false).
      { destruct (eqb y x) eqn:E; [|reflexivity].
        apply Heq in E. subst. assert (eqb x x = true) by now apply Heq.
        congruence. }
      rewrite Eyx.
      destruct (Hlt x y) as [(H1 & H2 & H3) | [(H1 & H2) | (H1 & H2 & H3)]].
      * left. repeat split; auto. congruence.
      * subst. assert (eqb y y = true) by now apply Heq. congruence.
      * right. right. repeat split; auto. congruence.
Qed.

Lemma N_ltb_cases (x y : N) :
  (N.ltb x y = true /\ N.ltb y x = false /\ x <> y)
  \/ (x = y /\ N.ltb x y = false)
  \/ (N.ltb y x = true /\ N.ltb x y = false /\ x <> y).
Proof.
  destruct (N.lt_trichotomy x y) as [Hlt | [Heq | Hgt]].
  - left. split; [now apply N.ltb_lt|]. split; [apply N.ltb_ge; lia | lia].
  - right. left. split; [exact Heq | apply N.ltb_ge; lia].
  - right. right. split; [now apply N.ltb_lt|]. split; [apply N.ltb_ge; lia | lia].
Qed.

Lemma str_ltb_cases (x y : pystr) :
  (str_ltb x y = true /\ str_ltb y x = false /\ x <> y)
  \/ (x = y /\ str_ltb x y = false)
  \/ (str_ltb y x = true /\ str_ltb x y = false /\ x <> y).
Proof. apply lex_ltb_cases; [apply N.eqb_eq | apply N_ltb_cases]. Qed.

Lemma parts_ltb_cases (a b : list pystr) :
  (parts_ltb a b = true /\ parts_ltb b a = false /\ a <> b)
  \/ (a = b /\ parts_ltb a b = false)
  \/ (parts_ltb b a = true /\ parts_ltb a b = false /\ a <> b).
Proof. apply lex_ltb_cases; [apply str_eqb_eq | apply str_ltb_cases]. Qed.

Lemma shared_prefix_sym (a b : list pystr) : shared_prefix a b = shared_prefix b a.
Proof.
  revert b. induction a as [|x a IH]; intros [|y b]; cbn [shared_prefix];
    try reflexivity.
  rewrite (str_eqb_sym y x). destruct (str_eqb x y) eqn:E; [|reflexivity].
  apply str_eqb_eq in E. subst. now rewrite IH.
Qed.

Lemma shared_prefix_same (a : list pystr) : shared_prefix a a = a.
Proof.
  induction a as [|x a IH]; cbn [shared_prefix]; [reflexivity|].
  now rewrite str_eqb_refl, IH.
Qed.

(** The loop of [commonpath] never reads past the end of the greater
    list, and it yields the longest common prefix. *)
Lemma common_loop_not_greater (s1 s2 : list pystr) :
  parts_ltb s2 s1 = false -> common_loop s1 s2 = Some (shared_prefix s1 s2).
Proof.
  revert s2. induction s1 as [|x s1 IH]; intros [|y s2];
    cbn [common_loop shared_prefix parts_ltb lex_ltb]; try reflexivity.
  - discriminate.
  - rewrite (str_eqb_sym y x). destruct (str_eqb x y); [|reflexivity].
    intros Hlt. unfold parts_ltb in IH. now rewrite (IH s2 Hlt).
Qed.

Lemma common_loop_min_max (pa pb : list pystr) :
  common_loop (if parts_ltb pb pa then pb else pa)
              (if parts_ltb pa pb then pb else pa)
  = Some (shared_prefix pa pb).
Proof.
  destruct (parts_ltb_cases pa pb) as [(H1 & H2 & _) | [(-> & H1) | (H1 & H2 & _)]].
  - rewrite H1, H2. now apply common_loop_not_greater.
  - rewrite H1. now apply common_loop_not_greater.
  - rewrite H1, H2. rewrite shared_prefix_sym.
    now apply common_loop_not_greater.
Qed.

Lemma shared_prefix_is_prefix (a b : list pystr) :
  shared_prefix a b = a -> exists rest, b = a ++ rest.
Proof.
  revert b. induction a as [|x a IH]; intros b; [now exists b|].
  destruct b as [|y b]; cbn [shared_prefix]; [discriminate|].
  destruct (str_eqb x y) eqn:E; [|discriminate].
  apply str_eqb_eq in E. subst y. intros E. injection E as E.
  destruct (IH b E) as [rest ->]. now exists rest.
Qed.

Lemma shared_prefix_incl (a b : list pystr) (x : pystr) :
  In x (shared_prefix a b) -> In x a.
Proof.
  revert b. induction a as [|y a IH]; intros [|z b]; cbn [shared_prefix];
    try (intros []).
  destruct (str_eqb y z); [|intros []].
  intros [<- | Hx]; [now left | right; eauto].
Qed.

Lemma plain_name_clean (n : pystr) : plain_name n -> ~ In 47%N n.
Proof. now intros (_ & H & _). Qed.

Lemma split_on_join (comps : list pystr) :
  Forall (fun n => ~ In 47%N n) comps -> comps <> [] ->
  split_on 47 (join os_sep comps) = comps.
Proof.
  induction 1 as [|p comps Hp Hall IH]; intros Hne; [now contradiction Hne|].
  destruct comps as [|q r].
  - cbn [join]. now apply split_on_no_sep.
  - change (join os_sep (p :: q :: r)) with (p ++ 47%N :: join os_sep (q :: r)).
    rewrite split_on_first_field by exact Hp.
    rewrite IH by discriminate. reflexivity.
Qed.

Lemma join_plain_head (comps : list pystr) :
  Forall plain_name comps -> comps <> [] ->
  exists c r, join os_sep comps = c :: r /\ c <> 47%N.
Proof.
  intros Hall Hne. destruct comps as [|p comps]; [congruence|].
  inversion Hall as [|? ? (Hp & Hs & _) _]; subst.
  destruct p as [|c p]; [congruence|].
  exists c. destruct comps as [|q r].
  - exists p. split; [reflexivity|]. intros ->. apply Hs. now left.
  - eexists. split; [reflexivity|]. intros ->. apply Hs. now left.
Qed.

Lemma path_parts_join (comps : list pystr) :
  Forall plain_name comps -> path_parts (join os_sep comps) = comps.
Proof.
  intros Hall. unfold path_parts. destruct comps as [|p comps].
  - reflexivity.
  - rewrite split_on_join.
    + apply forallb_filter_id. apply forallb_forall. intros n Hn.
      rewrite Forall_forall in Hall. destruct (Hall n Hn) as (H1 & _ & H3 & _).
      destruct n as [|c n]; [congruence|]. cbn [truthy andb].
      destruct (str_eqb (c :: n) (py ".")) eqn:E; [|reflexivity].
      apply str_eqb_eq in E. congruence.
    + eapply Forall_impl; [|exact Hall]. intros n. apply plain_name_clean.
    + discriminate.
Qed.

Lemma path_parts_slash (s : pystr) : path_parts (47%N :: s) = path_parts s.
Proof.
  unfold path_parts. cbn [split_on]. rewrite N.eqb_refl. reflexivity.
Qed.

Lemma path_parts_normal (n : nat) (comps : list pystr) :
  Forall plain_name comps ->
  path_parts (repeat 47%N n ++ join os_sep comps) = comps.
Proof.
  intros Hall. induction n as [|n IH]; cbn [repeat app].
  - now apply path_parts_join.
  - now rewrite path_parts_slash.
Qed.

Lemma join_plain_inj (a b : list pystr) :
  Forall plain_name a -> Forall plain_name b ->
  join os_sep a = join os_sep b -> a = b.
Proof.
  intros Ha Hb E.
  rewrite <- (path_parts_join Ha), <- (path_parts_join Hb). now rewrite E.
Qed.

Lemma plain_removelast (l : list pystr) :
  Forall plain_name l -> Forall plain_name (removelast l).
Proof.
  intros Hl. apply Forall_forall. intros x Hx.
  rewrite Forall_forall in Hl. apply Hl.
  destruct l as [|y l]; [destruct Hx|].
  rewrite (app_removelast_last (l:=y :: l) [] ltac:(discriminate)).
  apply in_or_app. now left.
Qed.

(** Below a root, the loop of [normpath] keeps only plain names: a ".."
    removes the name before it, or nothing at the root. *)
Lemma normpath_step_plain (slashes : nat) (acc : list pystr) (comp : pystr) :
  slashes <> 0 -> Forall plain_name acc -> ~ In 47%N comp ->
  Forall plain_name (normpath_step slashes acc comp).
Proof.
  intros Hs Hacc Hc. unfold normpath_step.
  destruct (str_eqb comp []) eqn:E0; cbn [orb]; [exact Hacc|].
  destruct (str_eqb comp (py ".")) eqn:E1; [exact Hacc|].
  destruct (str_eqb comp (py "..")) eqn:E2; cbn [negb orb].
  - assert (Z0 : (slashes =? 0) = false) by now apply Nat.eqb_neq.
    rewrite Z0. cbn [andb orb].
    destruct (is_empty acc) eqn:Ee; cbn [negb andb]; [exact Hacc|].
    destruct (str_eqb (last acc []) (py "..")) eqn:El.
    + exfalso. apply str_eqb_eq in El.
      assert (Hin : In (last acc []) acc).
      { destruct acc as [|y l]; [discriminate|].
        rewrite (app_removelast_last (l:=y :: l) [] ltac:(discriminate)) at 2.
        apply in_or_app. right. now left. }
      rewrite Forall_forall in Hacc. destruct (Hacc _ Hin) as (_ & _ & _ & H4).
      congruence.
    + now apply plain_removelast.
  - apply Forall_app. split; [exact Hacc|]. constructor; [|constructor].
    apply str_eqb_neq in E0, E1, E2. repeat split; assumption.
Qed.

Lemma normpath_fold_plain (slashes : nat) (comps acc : list pystr) :
  slashes <> 0 -> Forall plain_name acc ->
  Forall (fun c => ~ In 47%N c) comps ->
  Forall plain_name (fold_left (normpath_step slashes) comps acc).
Proof.
  intros Hs. revert acc. induction comps as [|c comps IH]; intros acc Hacc Hc;
    cbn [fold_left]; [exact Hacc|].
  inversion Hc; subst. apply IH; [|assumption].
  now apply normpath_step_plain.
Qed.

Lemma split_on_clean (c : N) (s : pystr) :
  Forall (fun f => ~ In c f) (split_on c s).
Proof.
  apply Forall_forall. intros f Hf Hc.
  destruct (split_on_fields c s f c Hf Hc) as [_ Hneq]. congruence.
Qed.

(** [normpath] of an absolute path: one or two slashes, then plain names
    joined by slashes. *)
Lemma normpath_absolute (p : pystr) :
  isabs p = true ->
  exists comps,
    Forall plain_name comps
    /\ normpath p = repeat 47%N (initial_slashes p) ++ join os_sep comps
    /\ (initial_slashes p = 1 \/ initial_slashes p = 2).
Proof.
  intros Habs. unfold isabs in Habs.
  assert (Hn : initial_slashes p = 1 \/ initial_slashes p = 2).
  { unfold initial_slashes. rewrite Habs.
    destruct (startswith p (py "//") && negb (startswith p (py "///"))); auto. }
  exists (fold_left (normpath_step (initial_slashes p)) (split_on 47 p) []).
  split; [|split; [|exact Hn]].
  - apply normpath_fold_plain; [lia | constructor | apply split_on_clean].
  - unfold normpath.
    assert (Tp : truthy p = true) by (destruct p; [discriminate | reflexivity]).
    rewrite Tp. cbn [negb].
    destruct Hn as [-> | ->]; reflexivity.
Qed.

Lemma commonpath_absolute (a b : pystr) :
  firstn 1 a = os_sep -> firstn 1 b = os_sep ->
  commonpath a b
  = inr (os_sep ++ join os_sep (shared_prefix (path_parts a) (path_parts b))).
Proof.
  intros Ha Hb. unfold commonpath. rewrite Ha, Hb, str_eqb_refl. cbn [Bool.eqb negb].
  now rewrite common_loop_min_max.
Qed.

Lemma join_snoc (comps : list pystr) (x : pystr) :
  comps <> [] -> join os_sep (comps ++ [x]) = join os_sep comps ++ 47%N :: x.
Proof.
  induction comps as [|p comps IH]; intros Hne; [now contradiction Hne|].
  destruct comps as [|q r].
  - reflexivity.
  - change (join os_sep ((p :: q :: r) ++ [x]))
      with (p ++ 47%N :: join os_sep ((q :: r) ++ [x])).
    rewrite IH by discriminate.
    change (join os_sep (p :: q :: r)) with (p ++ 47%N :: join os_sep (q :: r)).
    now rewrite <- app_assoc.
Qed.

Lemma join_plain_last (comps : list pystr) :
  Forall plain_name comps -> comps <> [] ->
  exists s c, join os_sep comps = s ++ [c] /\ c <> 47%N.
Proof.
  induction 1 as [|p comps (Hp & Hs & _) Hall IH]; intros Hne;
    [now contradiction Hne|].
  destruct comps as [|q r].
  - cbn [join]. exists (removelast p), (last p 0%N). split.
    + now apply app_removelast_last.
    + intros E. apply Hs. rewrite <- E.
      rewrite (app_removelast_last 0%N Hp) at 2.
      apply in_or_app. right. now left.
  - destruct IH as (s & c & E & Hc); [discriminate|].
    exists (p ++ 47%N :: s), c. split; [|exact Hc].
    change (join os_sep (p :: q :: r)) with (p ++ 47%N :: join os_sep (q :: r)).
    rewrite E, <- app_assoc. reflexivity.
Qed.

Lemma plain_not_absolute (x : pystr) : plain_name x -> startswith x [47%N] = false.
Proof.
  intros (Hne & Hs & _). destruct x as [|c x]; [congruence|].
  cbn [startswith]. destruct (N.eqb_spec 47 c) as [<-|]; [|reflexivity].
  exfalso. apply Hs. now left.
Qed.

(** Joining a plain name to a normalized absolute path appends it as a
    further component. *)
Lemma path_join_plain (comps : list pystr) (x : pystr) :
  Forall plain_name comps -> plain_name x ->
  path_join (47%N :: join os_sep comps) x = 47%N :: join os_sep (comps ++ [x]).
Proof.
  intros Hall Hx. unfold path_join. rewrite (plain_not_absolute Hx).
  cbn [truthy negb orb].
  destruct comps as [|p comps].
  - reflexivity.
  - destruct (@join_plain_last (p :: comps) Hall ltac:(discriminate))
      as (s & c & E & Hc).
    assert (En : endswith (47%N :: join os_sep (p :: comps)) [47%N] = false).
    { unfold endswith. rewrite E. cbn [rev]. rewrite rev_app_distr.
      cbn [rev app startswith].
      destruct (N.eqb_spec 47 c); [congruence | reflexivity]. }
    rewrite En. rewrite join_snoc by discriminate.
    cbn [app]. reflexivity.
Qed.

Lemma descend_plain (names comps : list pystr) :
  Forall plain_name comps -> Forall plain_name names ->
  descend (47%N :: join os_sep comps) names
  = 47%N :: join os_sep (comps ++ names).
Proof.
  unfold descend. revert comps.
  induction names as [|x names IH]; intros comps Hc Hn; cbn [fold_left].
  - now rewrite app_nil_r.
  - inversion Hn; subst. rewrite path_join_plain by assumption.
    rewrite IH; [|apply Forall_app; split; [assumption | now constructor] | assumption].
    now rewrite <- app_assoc.
Qed.

Lemma isabs_cons (p : pystr) : isabs p = true -> exists t, p = 47%N :: t.
Proof.
  unfold isabs, os_sep. destruct p as [|c p]; [discriminate|].
  cbn [startswith]. rewrite startswith_nil, andb_true_r.
  intros E. apply N.eqb_eq in E. subst. now exists p.
Qed.

Lemma isabs_false (p : pystr) :
  isabs p = false -> p = [] \/ exists c t, p = c :: t /\ c <> 47%N.
Proof.
  unfold isabs, os_sep. destruct p as [|c p]; [now left|].
  cbn [startswith]. rewrite startswith_nil, andb_true_r.
  intros E. apply N.eqb_neq in E. right. exists c, p. split; congruence.
Qed.

(** Joining a relative path to an absolute one: the absolute one, a slash
    unless it ends in one, and the relative one. *)
Lemma path_join_relative (a b : pystr) :
  isabs a = true -> isabs b = false ->
  path_join a b = a ++ b /\ endswith a [47%N] = true
  \/ path_join a b = a ++ 47%N :: b /\ endswith a [47%N] = false.
Proof.
  intros Ha Hb. unfold path_join. unfold isabs, os_sep in Hb. rewrite Hb.
  destruct (isabs_cons _ Ha) as [t ->]. cbn [truthy negb orb].
  destruct (endswith (47%N :: t) [47%N]); auto.
Qed.

Lemma initial_slashes_single (t : pystr) :
  t = [] \/ (exists c t', t = c :: t' /\ c <> 47%N) ->
  initial_slashes (47%N :: t) = 1.
Proof.
  intros [-> | (c & t' & -> & Hc)]; [reflexivity|].
  unfold initial_slashes, os_sep. change (py "//") with [47%N; 47%N].
  cbn [startswith]. rewrite !N.eqb_refl.
  destruct (N.eqb_spec 47 c); [congruence|]. reflexivity.
Qed.

Lemma isabs_slash (t : pystr) : isabs (47%N :: t) = true.
Proof.
  unfold isabs, os_sep. cbn [startswith].
  now rewrite N.eqb_refl, startswith_nil.
Qed.

Lemma firstn_slash (n : nat) (t : pystr) :
  n = 1 \/ n = 2 -> firstn 1 (repeat 47%N n ++ t) = os_sep.
Proof. intros [-> | ->]; reflexivity. Qed.

Section BookDirectories.
Variable cwd : pystr.
Hypothesis cwd_absolute : isabs cwd = true.

Lemma books_root_shape :
  exists comps n,
    Forall plain_name comps
    /\ abspath cwd BOOKS_DIR = repeat 47%N n ++ join os_sep comps
    /\ (n = 1 \/ n = 2).
Proof.
  unfold abspath. change (isabs BOOKS_DIR) with false. cbv iota.
  assert (Ha : isabs (path_join cwd BOOKS_DIR) = true).
  { destruct (isabs_cons _ cwd_absolute) as [t Et].
    destruct (@path_join_relative cwd BOOKS_DIR cwd_absolute eq_refl)
      as [[-> _] | [-> _]]; rewrite Et; apply isabs_slash. }
  destruct (normpath_absolute _ Ha) as (comps & Hc & E & Hn).
  exists comps, (initial_slashes (path_join cwd BOOKS_DIR)). auto.
Qed.

Lemma safe_book_dir_inside (book_id : pystr) :
  exists r,
    safe_book_dir cwd book_id = inr r
    /\ forall full, r = Some full ->
         exists names, Forall plain_name names
                       /\ full = descend (abspath cwd BOOKS_DIR) names.
Proof.
  unfold safe_book_dir.
  set (rel := strip (normpath (decode_book_id book_id))).
  destruct (negb (truthy rel) || str_eqb rel (py "."));
    [exists None; split; [reflexivity | discriminate]|].
  destruct (isabs rel) eqn:Hrel; cbn [orb];
    [exists None; split; [reflexivity | discriminate]|].
  destruct (startswith rel (py "..") || contains (py "/../") rel);
    [exists None; split; [reflexivity | discriminate]|].
  destruct books_root_shape as (R & n & HR & Eroot & Hn).
  set (root := abspath cwd BOOKS_DIR) in *.
  assert (Hra : isabs root = true).
  { rewrite Eroot. destruct Hn as [-> | ->]; apply isabs_slash. }
  assert (Hj : exists mid, path_join root rel = root ++ mid).
  { destruct (path_join_relative _ _ Hra Hrel) as [[-> _] | [-> _]]; eauto. }
  assert (Hja : isabs (path_join root rel) = true).
  { destruct Hj as [mid ->]. destruct (isabs_cons _ Hra) as [t ->].
    apply isabs_slash. }
  destruct (normpath_absolute _ Hja) as (F & HF & Efull & Hm).
  assert (Efp : abspath cwd (path_join root rel) = normpath (path_join root rel)).
  { unfold abspath. now rewrite Hja. }
  rewrite Efp.
  rewrite commonpath_absolute;
    [| rewrite Eroot; now apply firstn_slash
     | rewrite Efull; now apply firstn_slash].
  assert (PR : path_parts root = R)
    by (rewrite Eroot; now apply path_parts_normal).
  assert (PF : path_parts (normpath (path_join root rel)) = F)
    by (rewrite Efull; now apply path_parts_normal).
  rewrite PR, PF.
  destruct (str_eqb (os_sep ++ join os_sep (shared_prefix R F)) root) eqn:Ec;
    cbn [negb]; [|exists None; split; [reflexivity | discriminate]].
  eexists. split; [reflexivity|]. intros full Efull'.
  injection Efull' as <-.
  apply str_eqb_eq in Ec. rewrite Eroot in Ec.
  assert (HL : Forall plain_name (shared_prefix R F)).
  { apply Forall_forall. intros x Hx. apply shared_prefix_incl in Hx.
    rewrite Forall_forall in HR. now apply HR. }
  destruct Hn as [-> | ->]; cbn [repeat app os_sep] in Ec.
  - injection Ec as Ec. apply (join_plain_inj HL HR) in Ec.
    apply shared_prefix_is_prefix in Ec. destruct Ec as [F' ->].
    apply Forall_app in HF. destruct HF as [_ HF'].
    exists F'. split; [exact HF'|].
    cbn [repeat app] in Eroot.
    assert (Hone : initial_slashes (path_join root rel) = 1).
    { destruct R as [|p R].
      - cbn [join] in Eroot. unfold path_join. unfold isabs, os_sep in Hrel.
        rewrite Hrel, Eroot. cbn. apply initial_slashes_single.
        destruct (isabs_false rel) as [-> | H2]; auto.
      - destruct (@join_plain_head (p :: R) HR ltac:(discriminate))
          as (c & r & Ej & Hc).
        destruct Hj as [mid ->]. rewrite Eroot, Ej. cbn [app].
        apply initial_slashes_single. right. eauto. }
    rewrite Efull, Hone, Eroot. cbn [repeat app].
    symmetry. now apply descend_plain.
  - exfalso. injection Ec as Ec.
    destruct (shared_prefix R F) as [|x L] eqn:EL; [discriminate|].
    destruct (@join_plain_head (x :: L) HL ltac:(discriminate)) as (c & r & Ej & Hc).
    rewrite Ej in Ec. congruence.
Qed.
End BookDirectories.

(** X25. In a process with an absolute working directory, [safe_book_dir]
    raises nothing, and a directory that it returns is the books directory
    or lies below it: it is reached from the absolute books directory by
    descending through plain names, none of them "..". *)
Theorem safe_book_dir_stays_inside (cwd book_id : pystr) :
  isabs cwd = true ->
  exists r,
    safe_book_dir cwd book_id = inr r
    /\ forall full, r = Some full ->
         exists names, Forall plain_name names
                       /\ full = descend (abspath cwd BOOKS_DIR) names.
Proof. intros Hcwd. now apply safe_book_dir_inside. Qed.

(** X25 for a book in a category folder, and for an id that climbs out. *)
Lemma safe_book_dir_witness :
  safe_book_dir (py "/srv/books") (py "technical__novel_data")
  = inr (Some (py "/srv/books/technical/novel_data"))
  /\ safe_book_dir (py "/srv/books") (py "x__..__..__etc") = inr None
  /\ exists names,
       Forall plain_name names
       /\ py "/srv/books/technical/novel_data"
          = descend (abspath (py "/srv/books") BOOKS_DIR) names.
Proof.
  split; [reflexivity|]. split; [reflexivity|].
  destruct (@safe_book_dir_stays_inside (py "/srv/books")
              (py "technical__novel_data") eq_refl) as (r & E & Hr).
  apply Hr. vm_compute in E. now inversion E.
Defined.

(** An id that names a folder and climbs back out of it, with a trailing
    space, resolves to the books directory itself. *)
Example safe_book_dir_reaches_root :
  safe_book_dir (py "/srv/books") (py "x__.. ") = inr (Some (py "/srv/books")).
Proof. reflexivity. Qed.

(** ** Normalized absolute paths *)

Lemma path_join_normal (n : nat) (comps : list pystr) (x : pystr) :
  n = 1 \/ n = 2 -> Forall plain_name comps -> plain_name x ->
  path_join (repeat 47%N n ++ join os_sep comps) x
  = repeat 47%N n ++ join os_sep (comps ++ [x]).
Proof.
  intros Hn Hall Hx. unfold path_join. rewrite (plain_not_absolute Hx).
  assert (T : truthy (repeat 47%N n ++ join os_sep comps) = true)
    by (destruct Hn as [-> | ->]; reflexivity).
  rewrite T. cbn [negb orb].
  destruct comps as [|p comps].
  - cbn [join app]. rewrite app_nil_r.
    assert (E : endswith (repeat 47%N n) [47%N] = true)
      by (destruct Hn as [-> | ->]; reflexivity).
    now rewrite E.
  - destruct (@join_plain_last (p :: comps) Hall ltac:(discriminate))
      as (s & c & E & Hc).
    assert (En : endswith (repeat 47%N n ++ join os_sep (p :: comps)) [47%N] = false).
    { unfold endswith. rewrite E, app_assoc, rev_app_distr.
      cbn [rev app startswith].
      destruct (N.eqb_spec 47 c); [congruence | reflexivity]. }
    rewrite En, join_snoc by discriminate.
    now rewrite <- app_assoc.
Qed.

Lemma descend_normal (names : list pystr) (n : nat) (comps : list pystr) :
  n = 1 \/ n = 2 -> Forall plain_name comps -> Forall plain_name names ->
  descend (repeat 47%N n ++ join os_sep comps) names
  = repeat 47%N n ++ join os_sep (comps ++ names).
Proof.
  intros Hn. unfold descend. revert comps.
  induction names as [|x names IH]; intros comps Hc Hnames; cbn [fold_left].
  - now rewrite app_nil_r.
  - inversion Hnames; subst. rewrite path_join_normal by assumption.
    rewrite IH; [|apply Forall_app; split; [assumption | now constructor] | assumption].
    now rewrite <- app_assoc.
Qed.

Lemma split_on_app_sep (c : N) (a b : pystr) :
  split_on c (a ++ c :: b) = split_on c a ++ split_on c b.
Proof.
  induction a as [|d a IH]; cbn [app split_on].
  - now rewrite N.eqb_refl.
  - rewrite IH. destruct (N.eqb d c); [reflexivity|].
    pose proof (split_on_nonempty c a) as Hne.
    destruct (split_on c a) as [|f fs]; [congruence | reflexivity].
Qed.

Lemma split_on_slashes (n : nat) (s : pystr) :
  split_on 47 (repeat 47%N n ++ s) = repeat [] n ++ split_on 47 s.
Proof.
  induction n as [|n IH]; cbn [repeat app split_on]; [reflexivity|].
  now rewrite N.eqb_refl, IH.
Qed.

Lemma last_app_nonempty {A} (a b : list A) (d : A) :
  b <> [] -> last (a ++ b) d = last b d.
Proof.
  intros Hb. induction a as [|x a IH]; [reflexivity|].
  cbn [app last]. destruct (a ++ b) eqn:E; [|exact IH].
  apply app_eq_nil in E. destruct E. congruence.
Qed.

(** The base name of a normalized absolute path is its last component. *)
Lemma basename_normal (n : nat) (comps : list pystr) :
  Forall plain_name comps ->
  basename (repeat 47%N n ++ join os_sep comps) = last comps [].
Proof.
  intros Hall. unfold basename. rewrite split_on_slashes.
  destruct comps as [|p comps].
  - cbn [join split_on last]. apply last_last.
  - rewrite split_on_join;
      [| eapply Forall_impl; [|exact Hall]; intros x; apply plain_name_clean
       | discriminate].
    apply last_app_nonempty. discriminate.
Qed.

Lemma last_plain (comps : list pystr) :
  Forall plain_name comps -> comps <> [] -> plain_name (last comps []).
Proof.
  intros Hall Hne. rewrite Forall_forall in Hall. apply Hall.
  rewrite (app_removelast_last [] Hne) at 2. apply in_or_app. right. now left.
Qed.

Lemma normpath_step_name (slashes : nat) (acc : list pystr) (x : pystr) :
  plain_name x -> normpath_step slashes acc x = acc ++ [x].
Proof.
  intros (H1 & _ & H3 & H4). unfold normpath_step.
  apply str_eqb_neq in H1, H3, H4. now rewrite H1, H3, H4.
Qed.

Lemma normpath_step_skip (slashes : nat) (acc : list pystr) (x : pystr) :
  x = [] \/ x = py "." -> normpath_step slashes acc x = acc.
Proof. intros [-> | ->]; reflexivity. Qed.

Lemma normpath_fold_names (slashes : nat) (names acc : list pystr) :
  Forall (fun x => plain_name x \/ x = [] \/ x = py ".") names ->
  fold_left (normpath_step slashes) names acc
  = acc ++ filter (fun x => truthy x && negb (str_eqb x (py "."))) names.
Proof.
  intros Hall. revert acc.
  induction Hall as [|x names Hx _ IH]; intros acc; cbn [fold_left filter].
  - now rewrite app_nil_r.
  - destruct Hx as [Hx | Hx].
    + rewrite (normpath_step_name _ _ Hx), IH.
      destruct Hx as (H1 & _ & H3 & _).
      destruct x as [|c x]; [congruence|]. cbn [truthy andb].
      apply str_eqb_neq in H3. rewrite H3. cbn [negb].
      now rewrite <- app_assoc.
    + rewrite (normpath_step_skip _ _ Hx), IH.
      destruct Hx as [-> | ->]; reflexivity.
Qed.

Lemma endswith_slash_inv (p : pystr) :
  endswith p [47%N] = true -> exists p', p = p' ++ [47%N].
Proof.
  unfold endswith. intros E. destruct (rev p) as [|c r] eqn:R; [discriminate|].
  cbn [rev app startswith] in E. apply andb_true_iff in E. destruct E as [E _].
  apply N.eqb_eq in E. subst c. exists (rev r).
  rewrite <- (rev_involutive p), R. reflexivity.
Qed.

Lemma initial_slashes_join (p q : pystr) :
  isabs p = true -> startswith q [47%N] = false ->
  initial_slashes (path_join p q) = initial_slashes p.
Proof.
  intros Hp Hq. destruct (isabs_cons _ Hp) as [t ->].
  assert (Hq' : q = [] \/ exists c q', q = c :: q' /\ c <> 47%N).
  { apply isabs_false. exact Hq. }
  unfold path_join. rewrite Hq. cbn [truthy negb orb].
  destruct t as [|b [|c t]].
  - change (endswith [47%N] [47%N]) with true. cbv iota. cbn [app].
    now rewrite initial_slashes_single.
  - unfold endswith. cbn [rev app startswith].
    unfold initial_slashes, os_sep. change (py "//") with [47%N; 47%N].
    change (py "///") with [47%N; 47%N; 47%N].
    destruct (N.eqb_spec 47 b) as [<- | Hb]; cbn [andb app startswith].
    + rewrite !N.eqb_refl. cbn [andb negb].
      destruct Hq' as [-> | (c & q' & -> & Hc)]; [reflexivity|].
      cbn [startswith]. destruct (N.eqb_spec 47 c); [congruence | reflexivity].
    + rewrite !N.eqb_refl. destruct (N.eqb_spec 47 b); [congruence|]. reflexivity.
  - destruct (endswith (47%N :: b :: c :: t) [47%N]);
      unfold initial_slashes, os_sep; change (py "//") with [47%N; 47%N];
      change (py "///") with [47%N; 47%N; 47%N]; cbn [app startswith];
      rewrite !startswith_nil; reflexivity.
Qed.

Lemma plain_or_dot_clean (names : list pystr) :
  Forall (fun x => plain_name x \/ x = py ".") names ->
  Forall (fun x => ~ In 47%N x) names.
Proof.
  intros Hall. eapply Forall_impl; [|exact Hall].
  intros x [Hx | ->]; [now apply plain_name_clean|].
  cbv. intuition discriminate.
Qed.

Lemma join_names_relative (names : list pystr) :
  Forall (fun x => plain_name x \/ x = py ".") names ->
  startswith (join os_sep names) [47%N] = false.
Proof.
  intros Hall. destruct names as [|x names]; [reflexivity|].
  inversion Hall as [|? ? Hx _]; subst.
  assert (Hh : exists c r, x = c :: r /\ c <> 47%N).
  { destruct Hx as [(H1 & H2 & _) | ->].
    - destruct x as [|c r]; [congruence|]. exists c, r. split; [reflexivity|].
      intros ->. apply H2. now left.
    - exists 46%N, []. split; [reflexivity | discriminate]. }
  destruct Hh as (c & r & -> & Hc).
  destruct names as [|y names]; cbn [join app startswith];
    (destruct (N.eqb_spec 47 c); [congruence | reflexivity]).
Qed.

(** Joining names to an absolute path and normalizing is normalizing and
    then descending through the names that are not ".". *)
Lemma normpath_join_names (p : pystr) (names : list pystr) :
  isabs p = true -> names <> [] ->
  Forall (fun x => plain_name x \/ x = py ".") names ->
  exists n comps,
    (n = 1 \/ n = 2) /\ Forall plain_name comps
    /\ normpath p = repeat 47%N n ++ join os_sep comps
    /\ normpath (path_join p (join os_sep names))
       = repeat 47%N n
         ++ join os_sep
              (comps ++ filter (fun x => truthy x && negb (str_eqb x (py "."))) names).
Proof.
  intros Hp Hne Hall.
  pose proof (join_names_relative Hall) as Hq.
  set (q := join os_sep names) in *.
  set (n := initial_slashes p).
  assert (Hn : n = 1 \/ n = 2).
  { destruct (normpath_absolute _ Hp) as (_ & _ & _ & Hn). exact Hn. }
  set (acc := fold_left (normpath_step n) (split_on 47 p) []).
  assert (Hacc : Forall plain_name acc).
  { apply normpath_fold_plain; [subst n; lia | constructor | apply split_on_clean]. }
  assert (Tp : truthy p = true).
  { destruct (isabs_cons _ Hp) as [t ->]. reflexivity. }
  assert (Ep : normpath p = repeat 47%N n ++ join os_sep acc).
  { unfold normpath. rewrite Tp. cbn [negb]. fold n. fold acc.
    destruct Hn as [-> | ->]; reflexivity. }
  exists n, acc. split; [exact Hn|]. split; [exact Hacc|]. split; [exact Ep|].
  assert (Hsq : split_on 47 q = names).
  { apply split_on_join; [now apply plain_or_dot_clean | exact Hne]. }
  assert (Hfold : fold_left (normpath_step n) (split_on 47 (path_join p q)) []
                  = fold_left (normpath_step n) names acc).
  { destruct (path_join_relative p q Hp Hq) as [[-> He] | [-> He]].
    - destruct (endswith_slash_inv _ He) as [p' Ep'].
      subst acc. rewrite Ep'. rewrite <- app_assoc. cbn [app].
      rewrite (split_on_app_sep 47 p' q), (split_on_app_sep 47 p' []), Hsq.
      rewrite !fold_left_app. reflexivity.
    - subst acc. rewrite split_on_app_sep, Hsq. now rewrite fold_left_app. }
  assert (Tj : truthy (path_join p q) = true).
  { destruct (path_join_relative p q Hp Hq) as [[-> _] | [-> _]];
      destruct (isabs_cons _ Hp) as [t ->]; reflexivity. }
  unfold normpath. rewrite Tj. cbn [negb].
  rewrite (initial_slashes_join p q Hp Hq). fold n. rewrite Hfold.
  rewrite normpath_fold_names.
  - destruct Hn as [-> | ->]; reflexivity.
  - eapply Forall_impl; [|exact Hall]. intros x [Hx | ->]; auto.
Qed.

Lemma filter_names_plain (names : list pystr) :
  Forall (fun x => plain_name x \/ x = py ".") names ->
  Forall plain_name
         (filter (fun x => truthy x && negb (str_eqb x (py "."))) names).
Proof.
  intros Hall. apply Forall_forall. intros x Hx. apply filter_In in Hx.
  destruct Hx as [Hin Hf]. rewrite Forall_forall in Hall.
  destruct (Hall x Hin) as [Hp | ->]; [exact Hp | discriminate].
Qed.

Lemma normpath_join_descend (p : pystr) (names : list pystr) :
  isabs p = true -> names <> [] ->
  Forall (fun x => plain_name x \/ x = py ".") names ->
  normpath (path_join p (join os_sep names))
  = descend (normpath p)
            (filter (fun x => truthy x && negb (str_eqb x (py "."))) names).
Proof.
  intros Hp Hne Hall.
  destruct (@normpath_join_names p names Hp Hne Hall) as (n & comps & Hn & Hc & Ep & Ej).
  rewrite Ej, Ep. symmetry.
  apply descend_normal; [exact Hn | exact Hc | now apply filter_names_plain].
Qed.

Lemma initial_slashes_normal (n : nat) (comps : list pystr) :
  n = 1 \/ n = 2 -> Forall plain_name comps ->
  initial_slashes (repeat 47%N n ++ join os_sep comps) = n.
Proof.
  intros Hn Hall.
  assert (Hj : join os_sep comps = []
               \/ exists c r, join os_sep comps = c :: r /\ c <> 47%N).
  { destruct comps as [|p comps]; [now left | right].
    apply join_plain_head; [exact Hall | discriminate]. }
  destruct Hn as [-> | ->]; cbn [repeat app].
  - now apply initial_slashes_single.
  - destruct Hj as [-> | (c & r & -> & Hc)]; [reflexivity|].
    unfold initial_slashes, os_sep. change (py "//") with [47%N; 47%N].
    change (py "///") with [47%N; 47%N; 47%N].
    cbn [startswith]. rewrite !N.eqb_refl.
    destruct (N.eqb_spec 47 c); [congruence | reflexivity].
Qed.

(** A normalized absolute path is its own normal form. *)
Lemma normpath_normal (n : nat) (comps : list pystr) :
  n = 1 \/ n = 2 -> Forall plain_name comps ->
  normpath (repeat 47%N n ++ join os_sep comps)
  = repeat 47%N n ++ join os_sep comps.
Proof.
  intros Hn Hall. unfold normpath.
  assert (T : truthy (repeat 47%N n ++ join os_sep comps) = true)
    by (destruct Hn as [-> | ->]; reflexivity).
  rewrite T. cbn [negb]. rewrite (initial_slashes_normal Hn Hall).
  rewrite normpath_fold_names.
  - cbn [app]. fold (path_parts (repeat 47%N n ++ join os_sep comps)).
    rewrite (path_parts_normal n Hall).
    destruct Hn as [-> | ->]; reflexivity.
  - rewrite split_on_slashes. apply Forall_app. split.
    + apply Forall_forall. intros x Hx. apply repeat_spec in Hx. auto.
    + destruct comps as [|p comps].
      * cbn. constructor; [auto | constructor].
      * rewrite split_on_join;
          [| eapply Forall_impl; [|exact Hall]; intros x; apply plain_name_clean
           | discriminate].
        eapply Forall_impl; [|exact Hall]. intros x Hx. now left.
Qed.

Section ServerPaths.
Variable cwd : pystr.
Hypothesis cwd_absolute : isabs cwd = true.

Lemma books_root_is_cwd : abspath cwd BOOKS_DIR = normpath cwd.
Proof.
  unfold abspath. change (isabs BOOKS_DIR) with false. cbv iota.
  change BOOKS_DIR with (join os_sep [py "."]).
  rewrite normpath_join_descend; [reflexivity | exact cwd_absolute | discriminate |].
  constructor; [now right | constructor].
Qed.

Lemma abspath_relative_names (names : list pystr) :
  names <> [] -> Forall (fun x => plain_name x \/ x = py ".") names ->
  abspath cwd (join os_sep names)
  = descend (abspath cwd BOOKS_DIR)
            (filter (fun x => truthy x && negb (str_eqb x (py "."))) names).
Proof.
  intros Hne Hall. rewrite books_root_is_cwd. unfold abspath.
  replace (isabs (join os_sep names)) with false
    by (symmetry; exact (join_names_relative Hall)).
  now apply normpath_join_descend.
Qed.

(** A directory below the books directory: a normalized absolute path, and
    absolute as it stands. *)
Lemma descended_dir_normal (names : list pystr) :
  Forall plain_name names ->
  exists n comps,
    (n = 1 \/ n = 2) /\ Forall plain_name comps
    /\ descend (abspath cwd BOOKS_DIR) names
       = repeat 47%N n ++ join os_sep (comps ++ names).
Proof.
  intros Hn. destruct (@books_root_shape cwd cwd_absolute) as (R & n & HR & E & Hn').
  exists n, R. split; [exact Hn'|]. split; [exact HR|].
  rewrite E. now apply descend_normal.
Qed.
End ServerPaths.

Lemma no_slash_relative (x : pystr) : ~ In 47%N x -> startswith x [47%N] = false.
Proof.
  intros Hs. destruct x as [|c x]; [reflexivity|]. cbn [startswith].
  destruct (N.eqb_spec 47 c) as [<-|]; [|reflexivity].
  exfalso. apply Hs. now left.
Qed.

(** An entry of a directory that is not the root: the directory, a slash,
    and the entry. *)
Lemma path_join_entry (n : nat) (comps : list pystr) (x : pystr) :
  Forall plain_name comps -> comps <> [] -> ~ In 47%N x ->
  path_join (repeat 47%N n ++ join os_sep comps) x
  = (repeat 47%N n ++ join os_sep comps) ++ 47%N :: x.
Proof.
  intros Hall Hne Hx. unfold path_join. rewrite (no_slash_relative _ Hx).
  destruct (join_plain_last Hall Hne) as (s & c & E & Hc).
  assert (T : truthy (repeat 47%N n ++ join os_sep comps) = true).
  { rewrite E. destruct (repeat 47%N n); [destruct s|]; reflexivity. }
  assert (En : endswith (repeat 47%N n ++ join os_sep comps) [47%N] = false).
  { unfold endswith. rewrite E, app_assoc, rev_app_distr.
    cbn [rev app startswith].
    destruct (N.eqb_spec 47 c); [congruence | reflexivity]. }
  now rewrite T, En.
Qed.

Lemma images_name_plain : plain_name (py "images").
Proof. repeat split; try discriminate. cbv. intuition discriminate. Qed.

(** X26. In a process with an absolute working directory, a file that
    [serve_image] answers with exists and is an entry, named without a
    slash, of the directory "images" of a directory at or below the books
    directory. *)
Theorem served_image_inside (SW : ServerWorld) (book_id image_name : pystr)
        (resp : response) :
  isabs (getcwd SW) = true ->
  serve_image SW book_id image_name = inr resp ->
  exists names entry,
    Forall plain_name names /\ ~ In 47%N entry
    /\ resp = FileResponse
                (descend (abspath (getcwd SW) BOOKS_DIR) (names ++ [py "images"])
                 ++ 47%N :: entry)
    /\ path_exists SW
         (descend (abspath (getcwd SW) BOOKS_DIR) (names ++ [py "images"])
          ++ 47%N :: entry) = true.
Proof.
  intros Hcwd. unfold serve_image.
  destruct (@safe_book_dir_inside (getcwd SW) Hcwd book_id) as (r & E & Hr).
  rewrite E. destruct r as [d|]; cbn [or_else]; [|discriminate].
  destruct (truthy d) eqn:Td; cbn [negb truthy]; [|discriminate].
  rewrite Td. cbn [negb].
  destruct (Hr d eq_refl) as (names & Hn & Ed).
  assert (Hni : Forall plain_name (names ++ [py "images"])).
  { apply Forall_app. split; [exact Hn|].
    constructor; [exact images_name_plain | constructor]. }
  destruct (@descended_dir_normal (getcwd SW) Hcwd _ Hni) as (n & R & _ & HR & Ex).
  assert (Ej : path_join (path_join d (py "images")) (basename image_name)
               = descend (abspath (getcwd SW) BOOKS_DIR) (names ++ [py "images"])
                 ++ 47%N :: basename image_name).
  { assert (Ed' : path_join d (py "images")
                  = descend (abspath (getcwd SW) BOOKS_DIR) (names ++ [py "images"])).
    { rewrite Ed. unfold descend. now rewrite fold_left_app. }
    rewrite Ed', Ex. apply path_join_entry.
    - apply Forall_app. split; assumption.
    - intros E0. apply app_eq_nil in E0. destruct E0 as [_ E0].
      apply app_eq_nil in E0. destruct E0 as [_ E0]. discriminate.
    - apply last_field_clean. }
  rewrite Ej.
  destruct (path_exists SW _) eqn:Hex; cbn [negb]; [|discriminate].
  intros Hresp. injection Hresp as <-.
  exists names, (basename image_name).
  split; [exact Hn|]. split; [apply last_field_clean|]. split; [reflexivity | exact Hex].
Qed.

(** X26 for the cover of the sample server's book. *)
Lemma served_image_witness :
  serve_image sample_server (py "novel_data") (py "cover.jpg")
  = inr (FileResponse (py "/srv/books/novel_data/images/cover.jpg"))
  /\ exists names entry,
       Forall plain_name names /\ ~ In 47%N entry
       /\ FileResponse (py "/srv/books/novel_data/images/cover.jpg")
          = FileResponse
              (descend (abspath (getcwd sample_server) BOOKS_DIR)
                       (names ++ [py "images"]) ++ 47%N :: entry).
Proof.
  split; [reflexivity|].
  destruct (@served_image_inside sample_server (py "novel_data") (py "cover.jpg")
              (FileResponse (py "/srv/books/novel_data/images/cover.jpg"))
              eq_refl eq_refl) as (names & entry & Hn & He & Er & _).
  exists names, entry. auto.
Defined.

(** ** Moving a book *)

Lemma category_key_plain (k : pystr) : category_fullmatch k = true -> plain_name k.
Proof.
  intros Hm. destruct (category_fullmatch_chars k Hm) as (Hne & Hall & _).
  rewrite Forall_forall in Hall.
  assert (H46 : ~ In 46%N k).
  { intros Hc. destruct (category_char_plain _ (Hall _ Hc)) as (_ & _ & _ & _ & _ & H).
    now apply H. }
  repeat split.
  - exact Hne.
  - intros Hc. destruct (category_char_plain _ (Hall _ Hc)) as (_ & _ & _ & _ & H & _).
    now apply H.
  - intros ->. apply H46. now left.
  - intros ->. apply H46. now left.
Qed.

Lemma filter_plain_id (names : list pystr) :
  Forall plain_name names ->
  filter (fun x => truthy x && negb (str_eqb x (py "."))) names = names.
Proof.
  intros Hall. apply forallb_filter_id, forallb_forall. intros x Hx.
  rewrite Forall_forall in Hall. destruct (Hall x Hx) as (H1 & _ & H3 & _).
  destruct x as [|c x]; [congruence|]. cbn [truthy andb].
  apply str_eqb_neq in H3. now rewrite H3.
Qed.

Lemma plain_name_end (x : pystr) (a : pystr) :
  plain_name x -> endswith (a ++ x) [47%N] = false.
Proof.
  intros (Hne & Hs & _). unfold endswith.
  rewrite (app_removelast_last 0%N Hne), app_assoc, rev_app_distr.
  cbn [rev app startswith].
  destruct (N.eqb_spec 47 (last x 0%N)) as [E|]; [|reflexivity].
  exfalso. apply Hs. rewrite E. rewrite (app_removelast_last 0%N Hne) at 2.
  apply in_or_app. right. now left.
Qed.

(** The path that the handler joins for a destination, as a list of
    names. *)
Lemma dest_path_names (key base : pystr) :
  plain_name base -> (key = [] \/ plain_name key) ->
  path_join (if truthy key then path_join BOOKS_DIR key else BOOKS_DIR) base
  = join os_sep (py "." :: (if truthy key then [key; base] else [base])).
Proof.
  intros Hb [-> | Hk].
  - cbn [truthy]. unfold path_join, BOOKS_DIR.
    rewrite (plain_not_absolute Hb). reflexivity.
  - assert (Tk : truthy key = true).
    { destruct Hk as (Hne & _). destruct key; [congruence | reflexivity]. }
    rewrite Tk.
    assert (E1 : path_join BOOKS_DIR key = py "." ++ 47%N :: key).
    { unfold path_join, BOOKS_DIR. rewrite (plain_not_absolute Hk). reflexivity. }
    rewrite E1. unfold path_join at 1. rewrite (plain_not_absolute Hb).
    change (py "." ++ 47%N :: key) with ([46%N; 47%N] ++ key).
    rewrite (plain_name_end [46%N; 47%N] Hk).
    cbn [app truthy negb orb join]. reflexivity.
Qed.

Section Moves.
Context {U : Unicode}.
Variable SW : ServerWorld.
Hypothesis cwd_absolute : isabs (getcwd SW) = true.

Lemma book_dir_base_name (names : list pystr) :
  Forall plain_name names ->
  endswith (basename (descend (abspath (getcwd SW) BOOKS_DIR) names)) (py "_data") = true ->
  plain_name (basename (descend (abspath (getcwd SW) BOOKS_DIR) names)).
Proof.
  intros Hn. destruct (@descended_dir_normal (getcwd SW) cwd_absolute names Hn)
    as (n & R & _ & HR & E).
  rewrite E. assert (Hall : Forall plain_name (R ++ names))
    by (apply Forall_app; split; assumption).
  rewrite (basename_normal n Hall).
  destruct (R ++ names) as [|x l] eqn:El; [discriminate|].
  intros _. rewrite <- El in *. apply last_plain; [exact Hall|].
  rewrite El. discriminate.
Qed.

Lemma book_dir_absolute (names : list pystr) :
  Forall plain_name names ->
  abspath (getcwd SW) (descend (abspath (getcwd SW) BOOKS_DIR) names)
  = descend (abspath (getcwd SW) BOOKS_DIR) names.
Proof.
  intros Hn. destruct (@descended_dir_normal (getcwd SW) cwd_absolute names Hn)
    as (n & R & Hn' & HR & E).
  rewrite E. unfold abspath.
  assert (Ha : isabs (repeat 47%N n ++ join os_sep (R ++ names)) = true)
    by (destruct Hn' as [-> | ->]; apply isabs_slash).
  rewrite Ha. apply normpath_normal; [exact Hn'|].
  apply Forall_app; split; assumption.
Qed.

Lemma move_events (book_id target : pystr) r evs src dst :
  move_book_to_category SW book_id target = (r, evs) ->
  In (ShutilMove src dst) evs ->
  exists names key,
    Forall plain_name names
    /\ src = descend (abspath (getcwd SW) BOOKS_DIR) names
    /\ path_isdir SW src = true
    /\ endswith (basename src) (py "_data") = true
    /\ normalize_category_key (Some target) = inr key
    /\ dst = descend (abspath (getcwd SW) BOOKS_DIR)
                     (if truthy key then [key; basename src] else [basename src])
    /\ dst <> src
    /\ path_exists SW dst = false
    /\ r = inr (RedirectResponse (py "/") 303).
Proof.
  unfold move_book_to_category.
  destruct (@safe_book_dir_inside (getcwd SW) cwd_absolute book_id) as (sd & E & Hsd).
  rewrite E. destruct sd as [d|]; cbn [or_else]; [|cbn; intros H1; inversion H1; subst; intros []].
  destruct (truthy d) eqn:Td; cbn [negb orb truthy];
    [|intros H1; inversion H1; subst; intros []].
  rewrite Td. cbn [negb orb].
  destruct (path_isdir SW d) eqn:Hdir; cbn [negb];
    [|intros H1; inversion H1; subst; intros []].
  destruct (endswith (basename d) (py "_data")) eqn:Hbase; cbn [negb];
    [|intros H1; inversion H1; subst; intros []].
  destruct (normalize_category_key (Some target)) as [e|key] eqn:Hkey;
    [intros H1; inversion H1; subst; intros []|].
  destruct (Hsd d eq_refl) as (names & Hn & Ed).
  assert (Hb : plain_name (basename d)).
  { rewrite Ed. apply book_dir_base_name; [exact Hn|]. now rewrite <- Ed. }
  assert (Hk : key = [] \/ plain_name key).
  { destruct (normalize_result _ Hkey) as [-> | Hm]; [now left | right].
    now apply category_key_plain. }
  rewrite (dest_path_names Hb Hk).
  rewrite (@abspath_relative_names (getcwd SW) cwd_absolute);
    [| discriminate
     | constructor; [now right|];
       destruct (truthy key) eqn:Tk;
       [ destruct Hk as [-> | Hk]; [discriminate|];
         constructor; [now left|]; constructor; [now left | constructor]
       | constructor; [now left | constructor] ] ].
  assert (Edot : forall l : list pystr,
             filter (fun x => truthy x && negb (str_eqb x (py "."))) (py "." :: l)
             = filter (fun x => truthy x && negb (str_eqb x (py "."))) l)
    by reflexivity.
  rewrite Edot.
  assert (Ef : filter (fun x => truthy x && negb (str_eqb x (py ".")))
                      (if truthy key then [key; basename d] else [basename d])
               = (if truthy key then [key; basename d] else [basename d])).
  { apply filter_plain_id. destruct (truthy key) eqn:Tk.
    - destruct Hk as [-> | Hk]; [discriminate|].
      constructor; [exact Hk|]. constructor; [exact Hb | constructor].
    - constructor; [exact Hb | constructor]. }
  rewrite Ef.
  assert (Ea : abspath (getcwd SW) d = d).
  { rewrite Ed. now apply book_dir_absolute. }
  rewrite Ea.
  set (dest := descend (abspath (getcwd SW) BOOKS_DIR)
                       (if truthy key then [key; basename d] else [basename d])).
  destruct (truthy key && negb (can_makedirs SW _));
    [intros H1; inversion H1; subst; intros []|].
  destruct (str_eqb d dest) eqn:Hsame; cbn [negb].
  - intros H1; injection H1 as <- <-. intros Hin.
    destruct (truthy key); [destruct Hin as [Hin | []]; discriminate | destruct Hin].
  - destruct (path_exists SW dest) eqn:Hex.
    + intros H1; injection H1 as <- <-. intros Hin.
      destruct (truthy key); [destruct Hin as [Hin | []]; discriminate | destruct Hin].
    + destruct (can_move SW d dest); cbn [negb].
      * intros H1; injection H1 as <- <-. intros Hin.
        assert (Hmv : ShutilMove d dest = ShutilMove src dst).
        { apply in_app_or in Hin. destruct Hin as [Hin | [Hin | [Hin | []]]].
          - destruct (truthy key); [destruct Hin as [Hin | []]; discriminate | destruct Hin].
          - exact Hin.
          - discriminate. }
        injection Hmv as <- <-.
        exists names, key. repeat split; try assumption; try reflexivity.
        intros Heq. apply str_eqb_neq in Hsame. congruence.
      * intros H1; injection H1 as <- <-. intros Hin.
        destruct (truthy key); [destruct Hin as [Hin | []]; discriminate | destruct Hin].
Qed.
End Moves.

(** X27. In a process with an absolute working directory, a folder that
    [move_book_to_category] moves is a directory at or below the books
    directory whose name ends in "_data"; it goes, under its own name,
    directly into the books directory or into the directory of the
    normalized category key directly below the books directory; the
    destination differs from the source and did not exist; and the request
    is answered with the redirect. *)
Theorem move_stays_in_library (U : Unicode) (SW : ServerWorld)
        (book_id target : pystr) r evs src dst :
  isabs (getcwd SW) = true ->
  move_book_to_category SW book_id target = (r, evs) ->
  In (ShutilMove src dst) evs ->
  exists names key,
    Forall plain_name names
    /\ src = descend (abspath (getcwd SW) BOOKS_DIR) names
    /\ path_isdir SW src = true
    /\ endswith (basename src) (py "_data") = true
    /\ normalize_category_key (Some target) = inr key
    /\ dst = descend (abspath (getcwd SW) BOOKS_DIR)
                     (if truthy key then [key; basename src] else [basename src])
    /\ dst <> src
    /\ path_exists SW dst = false
    /\ r = inr (RedirectResponse (py "/") 303).
Proof. intros Hcwd. now apply move_events. Qed.

(** X27 on the sample server: the novel goes to the category "Technical". *)
Lemma move_stays_witness :
  move_book_to_category (U:=ascii_repertoire) sample_server
                        (py "novel_data") (py "Technical")
  = (inr (RedirectResponse (py "/") 303),
     [OsMakedirs (py "./technical");
      ShutilMove (py "/srv/books/novel_data") (py "/srv/books/technical/novel_data");
      CacheClear])
  /\ exists names key,
       Forall plain_name names
       /\ py "/srv/books/novel_data"
          = descend (abspath (getcwd sample_server) BOOKS_DIR) names
       /\ normalize_category_key (U:=ascii_repertoire) (Some (py "Technical")) = inr key
       /\ py "/srv/books/technical/novel_data"
          = descend (abspath (getcwd sample_server) BOOKS_DIR)
                    (if truthy key then [key; basename (py "/srv/books/novel_data")]
                     else [basename (py "/srv/books/novel_data")]).
Proof.
  split; [reflexivity|].
  destruct (@move_stays_in_library ascii_repertoire sample_server
              (py "novel_data") (py "Technical")
              (inr (RedirectResponse (py "/") 303))
              [OsMakedirs (py "./technical");
               ShutilMove (py "/srv/books/novel_data")
                          (py "/srv/books/technical/novel_data");
               CacheClear]
              (py "/srv/books/novel_data") (py "/srv/books/technical/novel_data")
              eq_refl eq_refl (or_intror (or_introl eq_refl)))
    as (names & key & Hn & Es & _ & _ & Hk & Ed & _).
  exists names, key. auto.
Defined.
